(** * Leaky splits and uniqueness: a shallow embedding of
      [fiftyone/brain/internal/core/leaky_splits.py] and
      [fiftyone/brain/uniqueness.py].

    Python values are modelled the way the code uses them: [None]-able
    arguments as [option], raised exceptions as the [Raise] branch of
    [result], ordered dictionaries as association lists, mutable index
    objects as records threaded through a state monad. *)

From Stdlib Require Import List String Ascii Bool Arith PeanoNat NArith ZArith.
From Stdlib Require Import QArith Qabs Lia Lqa Permutation Sorted.
From Stdlib Require SpecFloat.
Import ListNotations.

Close Scope Q_scope.
Open Scope string_scope.
Open Scope list_scope.
Open Scope nat_scope.

Set Implicit Arguments.

(** ** Python primitives *)

Module Py.

(** The exception classes the modelled code can raise: [ValueError] by
    its own [raise] statements and by [int("", 2)], [TypeError] by
    calling [None], [OSError] by the file and image primitives. *)
Inductive exn : Type :=
| ValueError (msg : string)
| TypeError (msg : string)
| OSError (msg : string).

(** A call either returns or raises. *)
Inductive result (A : Type) : Type :=
| Return (a : A)
| Raise (e : exn).

Arguments Return {A} a.
Arguments Raise {A} e.

Definition bind {A B} (r : result A) (k : A -> result B) : result B :=
  match r with
  | Return a => k a
  | Raise e => Raise e
  end.

Definition raises {A} (r : result A) : bool :=
  match r with
  | Return _ => false
  | Raise _ => true
  end.

(** Truth value of a [None]-able list: [None] and [[]] are falsy. *)
Definition truthy_list {A} (x : option (list A)) : bool :=
  match x with
  | Some (_ :: _) => true
  | _ => false
  end.

(** Truth value of a [None]-able string: [None] and [""] are falsy. *)
Definition truthy_str (x : option string) : bool :=
  match x with
  | Some (String _ _) => true
  | _ => false
  end.

(** [x in l] on a list of strings. *)
Definition contains (x : string) (l : list string) : bool :=
  existsb (String.eqb x) l.

End Py.

Notation "x <- r ;; k" := (Py.bind r (fun x => k))
  (at level 61, r at next level, right associativity).

(** ** The sample / view collaborator

    The dataset framework ([import fiftyone as fo]) is not part of the
    repository.  The code consumes it through a narrow interface
    ([select], [match], [match_tags], [distinct], [iter_samples], field
    access, [save], [count]), which this module models. *)

Module fo.

(** Modelled from the spec: a sample of the dataset framework, a record
    with a stable identifier, a file path, a tag set and named fields. *)
Record Sample : Type := {
  id : string;
  filepath : string;
  tags : list string;
  fields : list (string * string)
}.

(** The documents of a dataset, in storage order. *)
Definition Dataset : Type := list Sample.

(** Modelled from the spec: a dataset or a view of the dataset framework.
    A collection is a dataset together with the identifiers it shows, in
    the order it shows them; a view is not a copy. *)
Record SampleCollection : Type := {
  _dataset : Dataset;
  _ids : list string
}.

Definition get_sample (ds : Dataset) (i : string) : option Sample :=
  find (fun s => String.eqb (id s) i) ds.

Definition has_id (ds : Dataset) (i : string) : bool :=
  existsb (fun s => String.eqb (id s) i) ds.

Fixpoint lookup_all (ds : Dataset) (ids : list string) : list Sample :=
  match ids with
  | [] => []
  | i :: rest =>
      match get_sample ds i with
      | Some s => s :: lookup_all ds rest
      | None => lookup_all ds rest
      end
  end.

(** Modelled from the spec: [iter_samples()] of the dataset framework,
    the documents the collection shows, in its order. *)
Definition iter_samples (c : SampleCollection) : list Sample :=
  lookup_all (_dataset c) (_ids c).

(** Modelled from the spec: [count()] of a collection of the dataset
    framework, the number of samples it shows (its [len]). *)
Definition count (c : SampleCollection) : nat :=
  List.length (iter_samples c).

(** Modelled from the spec: [count] is a method of the collections of
    the dataset framework.  The attribute [c.count], read and not called,
    is the bound method, an object that remembers its collection. *)
Inductive method : Type :=
| bound_count (self : SampleCollection).

(** [m()]: calling the bound method. *)
Definition call (m : method) : nat :=
  match m with
  | bound_count c => count c
  end.

(** Modelled from the spec: the truth value of a collection of the
    dataset framework in an [if].  A collection is a sized container
    ([__len__], [__bool__]): it is falsy exactly when it shows no
    sample. *)
Definition truthy (c : SampleCollection) : bool :=
  negb (Nat.eqb (count c) 0).

Definition whole (ds : Dataset) : SampleCollection :=
  {| _dataset := ds; _ids := map id ds |}.

(** The requested identifiers without repetition, each at its first
    occurrence. *)
Fixpoint first_occurrences (seen : list string) (ids : list string)
  : list string :=
  match ids with
  | [] => []
  | i :: rest =>
      if Py.contains i seen then first_occurrences seen rest
      else i :: first_occurrences (i :: seen) rest
  end.

(** Modelled from the spec: [select(ids, ordered)] of the dataset
    framework, a view of the documents whose identifier is requested; in
    request order when [ordered], in storage order otherwise. *)
Definition select (ds : Dataset) (ids : list string) (ordered : bool)
  : SampleCollection :=
  {| _dataset := ds;
     _ids :=
       if ordered
       then filter (has_id ds) (first_occurrences [] ids)
       else filter (fun i => Py.contains i ids) (map id ds) |}.

Definition get_field (s : Sample) (field : string) : option string :=
  option_map snd (find (fun kv => String.eqb (fst kv) field) (fields s)).

Fixpoint set_assoc (k v : string) (kvs : list (string * string))
  : list (string * string) :=
  match kvs with
  | [] => [(k, v)]
  | (k', v') :: rest =>
      if String.eqb k' k then (k, v) :: rest
      else (k', v') :: set_assoc k v rest
  end.

(** Modelled from the spec: [s[field] = value] on a sample of the
    dataset framework. *)
Definition set_field (s : Sample) (field value : string) : Sample :=
  {| id := id s;
     filepath := filepath s;
     tags := tags s;
     fields := set_assoc field value (fields s) |}.

(** Modelled from the spec: [s.save()] of the dataset framework; the
    document with the sample's identifier is replaced. *)
Definition save (ds : Dataset) (s : Sample) : Dataset :=
  map (fun d => if String.eqb (id d) (id s) then s else d) ds.

(** Insertion into a sorted list without repetition. *)
Fixpoint insert_sorted (v : string) (l : list string) : list string :=
  match l with
  | [] => [v]
  | w :: rest =>
      if String.eqb v w then l
      else if String.leb v w then v :: l
      else w :: insert_sorted v rest
  end.

Fixpoint present_values (field : string) (l : list Sample) : list string :=
  match l with
  | [] => []
  | s :: rest =>
      match get_field s field with
      | Some v => v :: present_values field rest
      | None => present_values field rest
      end
  end.

(** Modelled from the spec: [distinct(field)] of the dataset framework,
    the sorted distinct values of the field. *)
Definition distinct (c : SampleCollection) (field : string) : list string :=
  fold_right insert_sorted [] (present_values field (iter_samples c)).

(** Modelled from the spec: [match(F(field) == val)] of the dataset
    framework, the view of the samples whose field has the value. *)
Definition match_field_eq (c : SampleCollection) (field val : string)
  : SampleCollection :=
  {| _dataset := _dataset c;
     _ids :=
       map id
         (filter
            (fun s =>
               match get_field s field with
               | Some v => String.eqb v val
               | None => false
               end)
            (iter_samples c)) |}.

(** Modelled from the spec: [match_tags(tags)] of the dataset framework,
    the view of the samples carrying one of the tags. *)
Definition match_tags (c : SampleCollection) (ts : list string)
  : SampleCollection :=
  {| _dataset := _dataset c;
     _ids :=
       map id
         (filter (fun s => existsb (fun t => Py.contains t (tags s)) ts)
            (iter_samples c)) |}.

End fo.

(** ** Split resolution ([_to_views], [_field_to_views], [_tags_to_views]) *)

Module Splits.

Import Py.

Definition arithmetic_true {A} (x : option A) : nat :=
  match x with
  | Some _ => 1
  | None => 0
  end.

Definition _field_to_views (samples : fo.SampleCollection) (field : string)
  : result (list fo.SampleCollection) :=
  let field_values := fo.distinct samples field in
  if List.length field_values <? 2
  then Raise (ValueError
                ("Field " ++ field
                 ++ " has less than 2 distinct values,"
                 ++ "can't be used to create splits")%string)
  else Return (map (fun val => fo.match_field_eq samples field val)
                 field_values).

Definition _tags_to_views (samples : fo.SampleCollection)
  (tags : list string) : result (list fo.SampleCollection) :=
  if List.length tags <? 2
  then Raise (ValueError "Must provide at least two tags.")
  else Return (map (fun tag => fo.match_tags samples [tag]) tags).

(** How many of the three specifiers are not [None]. *)
Definition num_given (split_views : option (list fo.SampleCollection))
  (split_field : option string) (split_tags : option (list string)) : nat :=
  arithmetic_true split_views
  + arithmetic_true split_field
  + arithmetic_true split_tags.

(** The function returns Python's [None] (here [Return None]) when no
    dispatch branch is taken. *)
Definition _to_views (samples : fo.SampleCollection)
  (split_views : option (list fo.SampleCollection))
  (split_field : option string)
  (split_tags : option (list string))
  : result (option (list fo.SampleCollection)) :=
  if num_given split_views split_field split_tags =? 0
  then Raise (ValueError "One of the split arguments must be given.")
  else if 1 <? num_given split_views split_field split_tags
  then Raise (ValueError "Only one of the split arguments must be given.")
  else if truthy_list split_views
  then Return split_views
  else if truthy_str split_field
  then
    match split_field with
    | Some field =>
        views <- _field_to_views samples field ;; Return (Some views)
    | None => Return None
    end
  else if truthy_list split_tags
  then
    match split_tags with
    | Some tags =>
        views <- _tags_to_views samples tags ;; Return (Some views)
    | None => Return None
    end
  else Return None.

(** [LeakySplitsConfigInterface]: the three split specifiers. *)
Record LeakySplitsConfigInterface : Type := {
  split_views : option (list fo.SampleCollection);
  split_field : option string;
  split_tags : option (list string)
}.

End Splits.

(** ** The image fingerprint ([LeakySplitsHashIndex._image_hash]) *)

Module ImageHash.

Import Py.

(** A grayscale image: rows of pixel intensities. *)
Definition Matrix : Type := list (list Z).

(** [has_shape rows cols m]: the array has [rows] rows of [cols] pixels. *)
Definition has_shape (rows cols : nat) (m : Matrix) : Prop :=
  List.length m = rows /\ Forall (fun r => List.length r = cols) m.

(** [r[1:] > r[:-1]] on one row. *)
Definition row_diff (r : list Z) : list bool :=
  map (fun p => (fst p >? snd p)%Z) (combine (tl r) (removelast r)).

(** [resized[:, 1:] > resized[:, :-1]]. *)
Definition diff (resized : Matrix) : list (list bool) :=
  map row_diff resized.

(** [diff.flatten()], row-major. *)
Definition flatten (d : list (list bool)) : list bool := List.concat d.

(** ["".join(["1" if v else "0" for v in bits])]. *)
Fixpoint binary_string (bits : list bool) : string :=
  match bits with
  | [] => EmptyString
  | b :: rest => String (if b then "1" else "0")%char (binary_string rest)
  end.

Fixpoint int_base2_acc (s : string) (acc : N) : result N :=
  match s with
  | EmptyString => Return acc
  | String c rest =>
      if Ascii.eqb c "0" then int_base2_acc rest (2 * acc)%N
      else if Ascii.eqb c "1" then int_base2_acc rest (2 * acc + 1)%N
      else Raise (ValueError "invalid literal for int() with base 2")
  end.

(** [int(s, 2)] on a string of binary digits; the empty string is not a
    literal. *)
Definition int_base2 (s : string) : result N :=
  match s with
  | EmptyString => Raise (ValueError "invalid literal for int() with base 2")
  | _ => int_base2_acc s 0%N
  end.

Definition hex_digit (d : N) : ascii :=
  match d with
  | 0 => "0" | 1 => "1" | 2 => "2" | 3 => "3"
  | 4 => "4" | 5 => "5" | 6 => "6" | 7 => "7"
  | 8 => "8" | 9 => "9" | 10 => "a" | 11 => "b"
  | 12 => "c" | 13 => "d" | 14 => "e" | _ => "f"
  end%N%char.

Fixpoint hex_acc (fuel : nat) (n : N) (acc : string) : string :=
  match fuel with
  | O => acc
  | S fuel' =>
      if (n =? 0)%N then acc
      else hex_acc fuel' (n / 16)%N (String (hex_digit (n mod 16)%N) acc)
  end.

(** [format(n, "x")]: lower-case hexadecimal, no prefix, ["0"] for zero.
    The number of bits of [n] bounds the number of digits. *)
Definition format_x (n : N) : string :=
  if (n =? 0)%N then "0"
  else hex_acc (N.to_nat (N.size n)) n EmptyString.

Fixpoint zeros (k : nat) : string :=
  match k with
  | O => EmptyString
  | S k' => String "0"%char (zeros k')
  end.

(** [f"{n:0{width}x}"]: [width] is a minimum, reached by zeros on the
    left. *)
Definition format_0x (width : nat) (n : N) : string :=
  let digits := format_x n in
  (zeros (width - String.length digits) ++ digits)%string.

(** The part of [_image_hash] after [cv2.resize]. *)
Definition dhash (hash_size : nat) (resized : Matrix) : result string :=
  let d := diff resized in
  let binary := binary_string (flatten d) in
  v <- int_base2 binary ;;
  Return (format_0x (hash_size * hash_size / 4) v).

Section WithImageLibrary.

(** Opening the file, decoding it, converting to grayscale and resizing
    it to [hash_size] rows of [hash_size + 1] pixels is the image
    library's work; it fails on a missing or undecodable file. *)
Variable read_gray_resized : string -> nat -> result Matrix.

Definition _image_hash (image : string) (hash_size : nat)
  : result string :=
  resized <- read_gray_resized image hash_size ;;
  dhash hash_size resized.

Definition default_hash_size : nat := 24.

End WithImageLibrary.

(** The value of a lower-case hexadecimal digit, ["0"] to ["9"] and
    ["a"] to ["f"]; any other character is not a digit. *)
Definition hex_digit_value (c : ascii) : option N :=
  let n := N_of_ascii c in
  if ((48 <=? n) && (n <=? 57))%N then Some (n - 48)%N
  else if ((97 <=? n) && (n <=? 102))%N then Some (n - 87)%N
  else None.

Fixpoint hex_value_acc (s : string) (acc : N) : option N :=
  match s with
  | EmptyString => Some acc
  | String c rest =>
      match hex_digit_value c with
      | Some d => hex_value_acc rest (16 * acc + d)%N
      | None => None
      end
  end.

(** The number a string of lower-case hexadecimal digits denotes, most
    significant digit first; [None] when some character of the string is
    not such a digit. *)
Definition hex_value (s : string) : option N := hex_value_acc s 0%N.

Fixpoint bits_value_acc (bits : list bool) (acc : N) : N :=
  match bits with
  | [] => acc
  | b :: rest => bits_value_acc rest (2 * acc + (if b then 1 else 0))%N
  end.

(** The number a list of bits denotes, most significant bit first. *)
Definition bits_value (bits : list bool) : N := bits_value_acc bits 0%N.

End ImageHash.

(** ** The reporting contract ([LeakySplitIndexInterface]) *)

Module Interface.

(** An index object is a state; reading its [leaks] property may change
    it (the similarity index fills its cache). *)
Class LeakySplitIndexInterface (I : Type) : Type := {
  leaks : I -> fo.SampleCollection * I
}.

(** What a property of an index evaluates to: a number or a bound
    method. *)
Inductive object : Type :=
| Int (n : nat)
| BoundMethod (m : fo.method).

(** [o == n] for an integer [n]: a method object equals no number. *)
Definition equals_int (o : object) (n : nat) : bool :=
  match o with
  | Int k => Nat.eqb k n
  | BoundMethod _ => false
  end.

(** [num_leaks]: [return self.leaks.count], the attribute as it is read;
    the property does not call it. *)
Definition num_leaks {I} `{LeakySplitIndexInterface I} (self : I)
  : object * I :=
  let (view, self') := leaks self in
  (BoundMethod (fo.bound_count view), self').

End Interface.

(** ** The hash-bucket index ([LeakySplitsHashIndex]) *)

Module HashIndex.

Import Py.

(** [LeakySplitsHashConfig]. *)
Record LeakySplitsHashConfig : Type := {
  split_views : option (list fo.SampleCollection);
  split_field : option string;
  split_tags : option (list string);
  _method : string;
  hash_field : option string
}.

(** [defaultdict(list)] from fingerprint to identifiers: keys in the
    order of their first insertion. *)
Definition Hash2ids : Type := list (string * list string).

(** [d[hash].append(id)]. *)
Fixpoint append_id (hash i : string) (d : Hash2ids) : Hash2ids :=
  match d with
  | [] => [(hash, [i])]
  | (k, id_list) :: rest =>
      if String.eqb k hash then (k, id_list ++ [i]) :: rest
      else (k, id_list) :: append_id hash i rest
  end.

(** [d.values()]. *)
Definition values (d : Hash2ids) : list (list string) := map snd d.

(** [d.keys()]. *)
Definition keys (d : Hash2ids) : list string := map fst d.

(** [d[hash]] read without inserting: the empty list for a missing key. *)
Definition bucket (d : Hash2ids) (hash : string) : list string :=
  match find (fun kv => String.eqb (fst kv) hash) d with
  | Some (_, id_list) => id_list
  | None => []
  end.

Record LeakySplitsHashIndex : Type := {
  config : LeakySplitsHashConfig;
  _hash2ids : Hash2ids;
  index_split_views : option (list fo.SampleCollection);
  _dataset : fo.Dataset
}.

(** The argument of [leaks_by_sample]: an identifier string or a sample
    object. *)
Inductive SampleOrId : Type :=
| OfStr (i : string)
| OfSample (s : fo.Sample).

(** The loop of [leaks]. *)
Definition leak_ids (d : Hash2ids) : list string :=
  fold_left
    (fun leak_ids id_list =>
       if 1 <? List.length id_list then leak_ids ++ id_list else leak_ids)
    (values d) [].

Definition leaks (self : LeakySplitsHashIndex) : fo.SampleCollection :=
  fo.select (_dataset self) (leak_ids (_hash2ids self)) true.

Fixpoint scan_buckets (ds : fo.Dataset) (i : string)
  (buckets : list (list string)) : option fo.SampleCollection :=
  match buckets with
  | [] => None
  | id_list :: rest =>
      if contains i id_list then Some (fo.select ds id_list false)
      else scan_buckets ds i rest
  end.

(** [leaks_by_sample]; [None] is Python's [None], returned when the loop
    ends without a hit. *)
Definition leaks_by_sample (self : LeakySplitsHashIndex)
  (sample : SampleOrId) : option fo.SampleCollection :=
  let i :=
    match sample with
    | OfStr s => s
    | OfSample s => fo.id s
    end in
  scan_buckets (_dataset self) i (values (_hash2ids self)).

#[global] Instance hash_index_interface
  : Interface.LeakySplitIndexInterface LeakySplitsHashIndex :=
  {| Interface.leaks := fun self => (leaks self, self) |}.

Section WithHashFunctions.

(** [str(fou.compute_filehash(path))], the content hash of the dataset
    framework's utilities: fails on a missing file. *)
Variable compute_filehash : string -> result string.

(** The image library behind [_image_hash]. *)
Variable read_gray_resized : string -> nat -> result ImageHash.Matrix.

(** The [_hash_function] property: [None] for an unknown method. *)
Definition _hash_function (cfg : LeakySplitsHashConfig)
  : option (string -> result string) :=
  if String.eqb (_method cfg) "filepath" then Some compute_filehash
  else if String.eqb (_method cfg) "image"
  then Some (fun image =>
               ImageHash._image_hash read_gray_resized image
                 ImageHash.default_hash_size)
  else None.

(** Whether the configured method gives the sample the fingerprint
    [k]. *)
Definition has_hash (cfg : LeakySplitsHashConfig) (k : string)
  (s : fo.Sample) : bool :=
  match _hash_function cfg with
  | Some f =>
      match f (fo.filepath s) with
      | Return hash => String.eqb hash k
      | Raise _ => false
      end
  | None => false
  end.

(** The loop of [_compute_hashes] over the samples still to visit,
    threading the dictionary and the dataset's documents.  An exception
    leaves the writes made so far in place. *)
Fixpoint _compute_hashes_loop (cfg : LeakySplitsHashConfig)
  (todo : list fo.Sample) (d : Hash2ids) (ds : fo.Dataset)
  : fo.Dataset * result Hash2ids :=
  match todo with
  | [] => (ds, Return d)
  | s :: rest =>
      match _hash_function cfg with
      | None => (ds, Raise (TypeError "'NoneType' object is not callable"))
      | Some f =>
          match f (fo.filepath s) with
          | Raise e => (ds, Raise e)
          | Return hash =>
              let d' := append_id hash (fo.id s) d in
              let ds' :=
                match hash_field cfg with
                | Some (String c f') =>
                    fo.save ds (fo.set_field s (String c f') hash)
                | _ => ds
                end in
              _compute_hashes_loop cfg rest d' ds'
          end
      end
  end.

Definition _compute_hashes (cfg : LeakySplitsHashConfig)
  (samples : fo.SampleCollection) (d : Hash2ids)
  : fo.Dataset * result Hash2ids :=
  _compute_hashes_loop cfg (fo.iter_samples samples) d
    (fo._dataset samples).

(** [LeakySplitsHashIndex.__init__]: the documents of the dataset after
    the call, and the index or the exception. *)
Definition __init__ (samples : fo.SampleCollection)
  (cfg : LeakySplitsHashConfig)
  : fo.Dataset * result LeakySplitsHashIndex :=
  match Splits._to_views samples
          (split_views cfg) (split_field cfg) (split_tags cfg) with
  | Raise e => (fo._dataset samples, Raise e)
  | Return views =>
      match _compute_hashes cfg samples [] with
      | (ds, Raise e) => (ds, Raise e)
      | (ds, Return d) =>
          (ds,
           Return {| config := cfg;
                     _hash2ids := d;
                     index_split_views := views;
                     _dataset := ds |})
      end
  end.

End WithHashFunctions.

End HashIndex.

(** ** The embedding-similarity index ([LeakySplitsSKLIndex]) *)

Module SKLIndex.

Import Py.

(** The inherited similarity backend, consumed through the four
    operations [leaks] calls.  [B] is the state those operations read
    and change; exceptions of the backend are not modelled. *)
Class SimilarityBackend (B Emb : Type) : Type := {
  compute_embeddings :
    fo.Dataset -> B -> (Emb * list string * option (list string)) * B;
  add_to_index :
    Emb -> list string -> option (list string) -> B -> B;
  find_duplicates : Q -> B -> B;
  duplicates_view : B -> fo.SampleCollection * B
}.

Section WithBackend.

Context {B Emb : Type} {ops : SimilarityBackend B Emb}.

Record LeakySplitsSKLIndex : Type := {
  backend : B;
  _dataset : fo.Dataset;
  split_views : option (list fo.SampleCollection);
  _leak_threshold : Q;
  _cached_leaks_view : option fo.SampleCollection
}.

(** Methods are state transformers on the index object. *)
Definition Method (A : Type) : Type :=
  LeakySplitsSKLIndex -> A * LeakySplitsSKLIndex.

Definition ret {A} (a : A) : Method A := fun self => (a, self).

Definition mbind {A C} (m : Method A) (k : A -> Method C) : Method C :=
  fun self => let (a, self') := m self in k a self'.

Definition get {A} (f : LeakySplitsSKLIndex -> A) : Method A :=
  fun self => (f self, self).

(** Run a backend operation on the backend part of the index. *)
Definition on_backend {A} (op : B -> A * B) : Method A :=
  fun self =>
    let (a, b') := op (backend self) in
    (a,
     {| backend := b';
        _dataset := _dataset self;
        split_views := split_views self;
        _leak_threshold := _leak_threshold self;
        _cached_leaks_view := _cached_leaks_view self |}).

Definition set_cached_leaks_view (v : fo.SampleCollection)
  : Method unit :=
  fun self =>
    (tt,
     {| backend := backend self;
        _dataset := _dataset self;
        split_views := split_views self;
        _leak_threshold := _leak_threshold self;
        _cached_leaks_view := Some v |}).

(** [set_threshold]. *)
Definition set_threshold (threshold : Q) : Method unit :=
  fun self =>
    (tt,
     {| backend := backend self;
        _dataset := _dataset self;
        split_views := split_views self;
        _leak_threshold := threshold;
        _cached_leaks_view := _cached_leaks_view self |}).

(** The body of [leaks] below its cache test. *)
Definition compute_leaks : Method fo.SampleCollection :=
  mbind (get _dataset) (fun ds =>
  mbind (on_backend (compute_embeddings ds)) (fun r =>
  let '(embeddings, sample_ids, label_ids) := r in
  mbind (on_backend
           (fun b => (tt, add_to_index embeddings sample_ids label_ids b)))
    (fun _ =>
  mbind (get _leak_threshold) (fun threshold =>
  mbind (on_backend (fun b => (tt, find_duplicates threshold b)))
    (fun _ =>
  mbind (on_backend duplicates_view) (fun view =>
  mbind (set_cached_leaks_view view) (fun _ =>
  ret view))))))).

(** The [leaks] property.  [if self._cached_leaks_view:] tests the
    truth value of the attribute: [None] and a falsy view both fail
    it. *)
Definition leaks : Method fo.SampleCollection :=
  fun self =>
    match _cached_leaks_view self with
    | Some view =>
        if fo.truthy view then (view, self) else compute_leaks self
    | None => compute_leaks self
    end.

(** [LeakySplitsSKLIndex.__init__] on an initialized backend. *)
Definition __init__ (b : B) (samples : fo.SampleCollection)
  (cfg : Splits.LeakySplitsConfigInterface)
  : result LeakySplitsSKLIndex :=
  views <- Splits._to_views samples
             (Splits.split_views cfg) (Splits.split_field cfg)
             (Splits.split_tags cfg) ;;
  Return {| backend := b;
            _dataset := fo._dataset samples;
            split_views := views;
            _leak_threshold := 1%Q;
            _cached_leaks_view := None |}.

#[global] Instance skl_index_interface
  : Interface.LeakySplitIndexInterface LeakySplitsSKLIndex :=
  {| Interface.leaks := leaks |}.

End WithBackend.

Arguments LeakySplitsSKLIndex B : clear implicits.

(** The state of a test backend instrumented with call counters. *)
Record Counters : Type := {
  n_compute : nat;
  n_add : nat;
  n_find : nat;
  docs : fo.Dataset;
  indexed : list string;
  threshold : Q
}.

(** The counting backend: identifiers stand for their embeddings; an
    indexed sample is a duplicate when another indexed sample lies
    within the threshold of the last [find_duplicates]. *)
Definition counting_backend (dist : string -> string -> Q)
  : SimilarityBackend Counters (list string) :=
  {| compute_embeddings := fun ds c =>
       ((map fo.id ds, map fo.id ds, None),
        {| n_compute := S (n_compute c); n_add := n_add c;
           n_find := n_find c; docs := ds; indexed := indexed c;
           threshold := threshold c |});
     add_to_index := fun embeddings sample_ids label_ids c =>
       {| n_compute := n_compute c; n_add := S (n_add c);
          n_find := n_find c; docs := docs c;
          indexed := fo.first_occurrences [] (indexed c ++ sample_ids);
          threshold := threshold c |};
     find_duplicates := fun t c =>
       {| n_compute := n_compute c; n_add := n_add c;
          n_find := S (n_find c); docs := docs c; indexed := indexed c;
          threshold := t |};
     duplicates_view := fun c =>
       ({| fo._dataset := docs c;
           fo._ids :=
             filter
               (fun i =>
                  existsb
                    (fun j =>
                       negb (String.eqb i j)
                       && Qle_bool (dist i j) (threshold c))
                    (indexed c))
               (indexed c) |}, c) |}.

Definition fresh_counters : Counters :=
  {| n_compute := 0; n_add := 0; n_find := 0; docs := [];
     indexed := []; threshold := 0%Q |}.

End SKLIndex.

(** ** Uniqueness scores over exact numbers ([_compute_uniqueness])

    The steps of the function with rationals for the array elements.
    This model decides what does not depend on rounding: when the
    function raises, and what it returns when every distance is zero.
    [Uniqueness64] below has the same steps in the arithmetic of the
    program. *)

Module Uniqueness.

Import Py.

(** An array element after a division: a number, an infinity or
    not-a-number.  Numbers are exact rationals; rounding and overflow
    of machine floats are not modelled. *)
Inductive np_float : Type :=
| Num (q : Q)
| PosInf
| NegInf
| NaN.

(** Elementwise [x / m] on array elements: dividing by zero gives an
    infinity, or not-a-number for [0 / 0]. *)
Definition np_divide (x m : Q) : np_float :=
  if Qeq_bool m 0 then
    if Qeq_bool x 0 then NaN
    else if Qle_bool 0 x then PosInf else NegInf
  else Num (x / m).

Fixpoint insert (x : Q) (l : list Q) : list Q :=
  match l with
  | [] => [x]
  | y :: rest => if Qle_bool x y then x :: l else y :: insert x rest
  end.

(** Ascending order. *)
Definition sort (l : list Q) : list Q := fold_right insert [] l.

Definition sum (l : list Q) : Q := fold_right Qplus 0%Q l.

(** [np.mean] of one row. *)
Definition mean (l : list Q) : Q :=
  (sum l / inject_Z (Z.of_nat (List.length l)))%Q.

(** [row * weights], elementwise. *)
Definition times (row weights : list Q) : list Q :=
  map (fun p => (fst p * snd p)%Q) (combine row weights).

(** [array.max()]; an empty array has no maximum. *)
Definition max_of (l : list Q) : result Q :=
  match l with
  | [] => Raise (ValueError "zero-size array to reduction operation maximum")
  | x :: rest =>
      Return (fold_left (fun m y => if Qle_bool m y then y else m) rest x)
  end.

Definition K : nat := 3.

Definition weights : list Q := [6 # 10; 3 # 10; 1 # 10]%Q.

Section WithMetric.

(** The embedding vectors and the distance the neighbour search uses. *)
Variable E : Type.
Variable metric : E -> E -> Q.

(** Modelled from the spec: [NearestNeighbors(n_neighbors).fit(X)
    .kneighbors(Y)] of the external neighbour-search library: for each
    query the [n_neighbors] smallest distances to the fitted points, in
    ascending order; asking for more neighbours than fitted points is an
    error. *)
Definition kneighbors (n_neighbors : nat) (fitted queries : list E)
  : result (list (list Q)) :=
  if List.length fitted <? n_neighbors
  then Raise (ValueError "Expected n_neighbors <= n_samples_fit")
  else Return
         (map (fun y => firstn n_neighbors (sort (map (metric y) fitted)))
            queries).

Definition _compute_uniqueness (embeddings : list E)
  : result (list np_float) :=
  dists <- kneighbors (K + 1) embeddings embeddings ;;
  let sample_dists := map (fun row => mean (times (tl row) weights)) dists in
  m <- max_of sample_dists ;;
  Return (map (fun x => np_divide x m) sample_dists).

End WithMetric.

End Uniqueness.

(** ** Binary64 arithmetic

    [numpy] computes in IEEE 754 binary64.  The Standard Library's
    [SpecFloat] specifies the operations of the format on an explicit
    sign, mantissa and exponent. *)

Module Float64.

Import SpecFloat.

Local Open Scope Z_scope.

(** A number of the format: a signed zero, a signed infinity, a NaN, or
    [(-1)^s * m * 2^e]. *)
Definition float : Type := spec_float.

(** 53 bits of mantissa; 1024 is the exponent of the infinities. *)
Definition prec : Z := 53.
Definition emax : Z := 1024.

(** The exponent of the smallest positive number, [-1074]. *)
Definition emin : Z := Eval vm_compute in SpecFloat.emin prec emax.

Definition zero : float := S754_zero false.

(** The operations of the format, each the exact result rounded to the
    nearest number of the format, ties to even. *)
Definition add : float -> float -> float := SFadd prec emax.
Definition sub : float -> float -> float := SFsub prec emax.
Definition mul : float -> float -> float := SFmul prec emax.
Definition div : float -> float -> float := SFdiv prec emax.
Definition sqrt : float -> float := SFsqrt prec emax.

(** The number of the format nearest to an integer. *)
Definition of_Z (n : Z) : float := binary_normalize prec emax n 0 false.

Definition one : float := Eval vm_compute in of_Z 1.

Definition nan : float := S754_nan.

Definition infinity : float := S754_infinity false.

Definition is_nan (x : float) : bool :=
  match x with
  | S754_nan => true
  | _ => false
  end.

Definition is_finite (x : float) : bool :=
  match x with
  | S754_zero _ | S754_finite _ _ _ => true
  | _ => false
  end.

(** Every finite number of the format is an integer multiple of
    [2 ^ emin]; [scaled x] is that integer. *)
Definition scaled (x : float) : Z :=
  match x with
  | S754_finite s m e => cond_Zopp s (Zpos m * 2 ^ (e - emin))
  | _ => 0
  end.

(** [x < y]: the comparison of the numbers the two values denote, false
    when one of them is a NaN.  It reads the value and not the
    representation, so it does not depend on a mantissa being
    normalised; on numbers of the format it is [SFltb], the comparison
    of [SpecFloat]. *)
Definition ltb (x y : float) : bool :=
  match x, y with
  | S754_nan, _ | _, S754_nan => false
  | S754_infinity sx, S754_infinity sy => sx && negb sy
  | S754_infinity sx, _ => sx
  | _, S754_infinity sy => negb sy
  | _, _ => scaled x <? scaled y
  end.

(** [x <= y], likewise; on numbers of the format it is [SFleb]. *)
Definition leb (x y : float) : bool :=
  match x, y with
  | S754_nan, _ | _, S754_nan => false
  | S754_infinity sx, S754_infinity sy => sx || negb sy
  | S754_infinity sx, _ => sx
  | _, S754_infinity sy => negb sy
  | _, _ => scaled x <=? scaled y
  end.

(** A non-negative number of the format or plus infinity: the sign is
    clear, the value is not a NaN, and a finite value has an exponent of
    at least [emin]. *)
Definition nonneg (x : float) : Prop :=
  match x with
  | S754_zero s => s = false
  | S754_infinity s => s = false
  | S754_finite s m e => s = false /\ emin <= e
  | S754_nan => False
  end.

(** A record of the rounding steps has lost a bit. *)
Definition inexact (mrs : shr_record) : bool := shr_r mrs || shr_s mrs.

End Float64.

(** ** Uniqueness scores in binary64 ([_compute_uniqueness])

    The steps of [Uniqueness], with the numbers and the operations of
    the format: products, sums, the division of the mean and the
    division by the maximum are each rounded, overflow to an infinity,
    and propagate NaN. *)

Module Uniqueness64.

Import Py SpecFloat Float64.

Fixpoint insert (x : float) (l : list float) : list float :=
  match l with
  | [] => [x]
  | y :: rest => if leb x y then x :: l else y :: insert x rest
  end.

(** Ascending order. *)
Definition sort (l : list float) : list float := fold_right insert [] l.

(** The sum of one row, as [np.mean] accumulates it: the elements added
    one after the other, from zero. *)
Definition sum (l : list float) : float := fold_left add l zero.

(** [np.mean] of one row: the sum divided by the number of elements. *)
Definition mean (l : list float) : float :=
  div (sum l) (of_Z (Z.of_nat (List.length l))).

(** [row * weights], elementwise. *)
Definition times (row weights : list float) : list float :=
  map (fun p => mul (fst p) (snd p)) (combine row weights).

(** [array.max()]: a NaN in the array is the result; an empty array has
    no maximum. *)
Definition max_of (l : list float) : result float :=
  match l with
  | [] => Raise (ValueError "zero-size array to reduction operation maximum")
  | x :: rest =>
      Return
        (fold_left
           (fun m y =>
              if is_nan m then m
              else if is_nan y then y
              else if ltb m y then y else m)
           rest x)
  end.

Definition K : nat := 3.

(** The literals [0.6], [0.3] and [0.1]: the numbers of the format
    nearest to 6/10, 3/10 and 1/10, which the correctly rounded quotients
    are. *)
Definition weights : list float :=
  Eval vm_compute in
    [div (of_Z 6) (of_Z 10); div (of_Z 3) (of_Z 10); div (of_Z 1) (of_Z 10)].

Section WithMetric.

(** The embedding vectors and the distance the neighbour search
    computes, a number of the format. *)
Variable E : Type.
Variable metric : E -> E -> float.

(** Modelled from the spec: [NearestNeighbors(n_neighbors).fit(X)
    .kneighbors(Y)] of the external neighbour-search library: for each
    query the [n_neighbors] smallest distances to the fitted points, in
    ascending order; asking for more neighbours than fitted points is an
    error. *)
Definition kneighbors (n_neighbors : nat) (fitted queries : list E)
  : result (list (list float)) :=
  if List.length fitted <? n_neighbors
  then Raise (ValueError "Expected n_neighbors <= n_samples_fit")
  else Return
         (map (fun y => firstn n_neighbors (sort (map (metric y) fitted)))
            queries).

Definition _compute_uniqueness (embeddings : list E)
  : result (list float) :=
  dists <- kneighbors (K + 1) embeddings embeddings ;;
  let sample_dists := map (fun row => mean (times (tl row) weights)) dists in
  m <- max_of sample_dists ;;
  Return (map (fun x => div x m) sample_dists).

(** The distances from the sample at position [i] to the other
    samples. *)
Definition others (embeddings : list E) (i : nat) : list float :=
  match nth_error embeddings i with
  | Some x =>
      map (metric x) (firstn i embeddings ++ skipn (S i) embeddings)
  | None => []
  end.

(** The weighted mean of the three smallest distances to the other
    samples. *)
Definition weighted_knn_mean (embeddings : list E) (i : nat) : float :=
  mean (times (firstn K (sort (others embeddings i))) weights).

End WithMetric.

End Uniqueness64.

(** ** A small collection: six samples, the last a copy of the first *)

Module Example.

Import Py.

Definition sample (i path tag : string) : fo.Sample :=
  {| fo.id := i; fo.filepath := path; fo.tags := [tag]; fo.fields := [] |}.

Definition docs : fo.Dataset :=
  [ sample "s1" "/data/a.png" "train";
    sample "s2" "/data/b.png" "train";
    sample "s3" "/data/c.png" "train";
    sample "s4" "/data/d.png" "train";
    sample "s5" "/data/e.png" "test";
    sample "s6" "/copy/a.png" "test" ].

Definition samples : fo.SampleCollection := fo.whole docs.

(** The bytes of the files on disk. *)
Definition file_bytes (path : string) : option string :=
  if String.eqb path "/data/a.png" then Some "AAAA"
  else if String.eqb path "/data/b.png" then Some "BBBB"
  else if String.eqb path "/data/c.png" then Some "CCCC"
  else if String.eqb path "/data/d.png" then Some "DDDD"
  else if String.eqb path "/data/e.png" then Some "EEEE"
  else if String.eqb path "/copy/a.png" then Some "AAAA"
  else None.

(** A content hash that is the content itself. *)
Definition compute_filehash (path : string) : result string :=
  match file_bytes path with
  | Some bytes => Return bytes
  | None => Raise (OSError "No such file or directory")
  end.

(** No file of the example decodes as an image. *)
Definition read_gray_resized (path : string) (hash_size : nat)
  : result ImageHash.Matrix :=
  Raise (OSError "cannot identify image file").

Definition cfg : HashIndex.LeakySplitsHashConfig :=
  {| HashIndex.split_views := None;
     HashIndex.split_field := None;
     HashIndex.split_tags := Some ["train"; "test"];
     HashIndex._method := "filepath";
     HashIndex.hash_field := Some "filehash" |}.

(** The same configuration without a hash field. *)
Definition cfg_without_field : HashIndex.LeakySplitsHashConfig :=
  {| HashIndex.split_views := None;
     HashIndex.split_field := None;
     HashIndex.split_tags := Some ["train"; "test"];
     HashIndex._method := "filepath";
     HashIndex.hash_field := None |}.

Definition built : fo.Dataset * result HashIndex.LeakySplitsHashIndex :=
  HashIndex.__init__ compute_filehash read_gray_resized samples cfg.

Definition empty_index : HashIndex.LeakySplitsHashIndex :=
  {| HashIndex.config := cfg;
     HashIndex._hash2ids := [];
     HashIndex.index_split_views := None;
     HashIndex._dataset := [] |}.

Definition index : HashIndex.LeakySplitsHashIndex :=
  match snd built with
  | Return idx => idx
  | Raise _ => empty_index
  end.

(** Three rows of four pixels, brighter to the right. *)
Definition ramp3 : ImageHash.Matrix :=
  [[1; 2; 3; 4]; [1; 2; 3; 4]; [1; 2; 3; 4]]%Z.

(** Three rows of four equal pixels. *)
Definition flat3 : ImageHash.Matrix :=
  [[7; 7; 7; 7]; [7; 7; 7; 7]; [7; 7; 7; 7]]%Z.

(** Twenty-four rows of twenty-five pixels, brighter to the right. *)
Definition ramp24 : ImageHash.Matrix :=
  repeat (map Z.of_nat (seq 0 25)) 24.

(** Points on a line, with the distance of the line. *)
Definition line_metric (x y : Q) : Q := Qabs (x - y).

(** Any two different samples of the example are at distance 5. *)
Definition far_apart (i j : string) : Q :=
  if String.eqb i j then 0%Q else 5%Q.

Definition skl_cfg : Splits.LeakySplitsConfigInterface :=
  {| Splits.split_views := None;
     Splits.split_field := None;
     Splits.split_tags := Some ["train"; "test"] |}.

Definition skl_empty_index : SKLIndex.LeakySplitsSKLIndex SKLIndex.Counters :=
  {| SKLIndex.backend := SKLIndex.fresh_counters;
     SKLIndex._dataset := [];
     SKLIndex.split_views := None;
     SKLIndex._leak_threshold := 1%Q;
     SKLIndex._cached_leaks_view := None |}.

(** The similarity index over the six samples, on the counting backend. *)
Definition skl_index : SKLIndex.LeakySplitsSKLIndex SKLIndex.Counters :=
  match
    SKLIndex.__init__ SKLIndex.fresh_counters samples skl_cfg
  with
  | Return idx => idx
  | Raise _ => skl_empty_index
  end.

(** The [leaks] property on the counting backend. *)
Definition skl_leaks
  : SKLIndex.LeakySplitsSKLIndex SKLIndex.Counters ->
    fo.SampleCollection * SKLIndex.LeakySplitsSKLIndex SKLIndex.Counters :=
  SKLIndex.leaks (ops := SKLIndex.counting_backend far_apart).

(** Five stations on a line, at 0, 1, 3, 7 and 8. *)
Inductive station : Type := At0 | At1 | At3 | At7 | At8.

Definition coordinate (p : station) : Float64.float :=
  match p with
  | At0 => Float64.of_Z 0
  | At1 => Float64.of_Z 1
  | At3 => Float64.of_Z 3
  | At7 => Float64.of_Z 7
  | At8 => Float64.of_Z 8
  end.

(** The Euclidean distance of two points of the line, computed in the
    format: the square root of the squared difference. *)
Definition euclid_1d (x y : Float64.float) : Float64.float :=
  let d := Float64.sub x y in
  Float64.sqrt (Float64.mul d d).

Definition line_distance (p q : station) : Float64.float :=
  euclid_1d (coordinate p) (coordinate q).

Definition stations : list station := [At0; At1; At3; At7; At8].

(** Four points so far apart that the square of every difference
    overflows. *)
Definition far_points : list Float64.float :=
  [Float64.of_Z 0; Float64.of_Z (2 ^ 600); Float64.of_Z (2 ^ 601);
   Float64.of_Z (2 ^ 602)].

(** The largest weighted mean of the five stations, that of the station
    at 8: about 0.9333. *)
Definition largest_mean : Float64.float :=
  SpecFloat.S754_finite false 8406719304424927 (-53).

End Example.

(** ** Tagging the leaks ([LeakySplitIndexInterface.tag_leaks]) *)

Module Tagging.

(** Modelled from the spec: [s.tags.append(tag)] on a sample of the
    dataset framework; the tags are a list and may repeat. *)
Definition append_tag (s : fo.Sample) (tag : string) : fo.Sample :=
  {| fo.id := fo.id s;
     fo.filepath := fo.filepath s;
     fo.tags := fo.tags s ++ [tag];
     fo.fields := fo.fields s |}.

(** The loop of [tag_leaks] over the samples still to visit, threading
    the dataset's documents. *)
Fixpoint tag_loop (todo : list fo.Sample) (tag : string) (ds : fo.Dataset)
  : fo.Dataset :=
  match todo with
  | [] => ds
  | s :: rest => tag_loop rest tag (fo.save ds (append_tag s tag))
  end.

(** [tag_leaks] on the hash-bucket index: the index shares the dataset
    with the samples it tags. *)
Definition tag_leaks (self : HashIndex.LeakySplitsHashIndex) (tag : string)
  : HashIndex.LeakySplitsHashIndex :=
  {| HashIndex.config := HashIndex.config self;
     HashIndex._hash2ids := HashIndex._hash2ids self;
     HashIndex.index_split_views := HashIndex.index_split_views self;
     HashIndex._dataset :=
       tag_loop (fo.iter_samples (HashIndex.leaks self)) tag
         (HashIndex._dataset self) |}.

(** The default tag. *)
Definition default_tag : string := "leak".

End Tagging.

(** ** Preparing the data of the uniqueness path
       ([_validate], [_parse_rois], [_make_data_loader],
       [_make_patch_data_loader], [_compute_embeddings],
       [_compute_patch_embeddings]) *)

Module Loaders.

Import Py.

(** A bounding box [[x, y, w, h]] in relative coordinates. *)
Record Detection : Type := { bounding_box : list Q }.

(** A polyline: its vertices. *)
Record Polyline : Type := { points : list (Q * Q) }.

(** The value of a label field: one of the four classes the code accepts,
    or a value of another class, named by [__class__.__name__] (["NoneType"]
    for an unset field). *)
Inductive Label : Type :=
| OfDetection (d : Detection)
| OfDetections (detections : list Detection)
| OfPolyline (p : Polyline)
| OfPolylines (polylines : list Polyline)
| OfOther (class_name : string).

(** The sample as the uniqueness path reads it.  A field the sample does
    not declare is outside the model: [label] is total. *)
Record Sample : Type := {
  id : string;
  filepath : string;
  media_type : string;
  label : string -> Label
}.

(** [fom.IMAGE]. *)
Definition IMAGE : string := "image".

Section WithFiles.

(** [os.path.exists]. *)
Variable exists_on_disk : string -> bool.

(** [Polyline.to_detection] of the dataset framework: the box around the
    vertices. *)
Variable to_detection : Polyline -> Detection.

(** How Python prints the set of allowed class names in the message of
    [_parse_rois]; the order of a set is not fixed. *)
Variable allowed_names : string.

(** [_validate]: [None] or an exception. *)
Definition _validate (sample : Sample) : result unit :=
  if negb (exists_on_disk (filepath sample))
  then Raise (ValueError
                ("Sample '" ++ id sample ++ "' source media '"
                 ++ filepath sample ++ "' does not exist on disk")%string)
  else if negb (String.eqb (media_type sample) IMAGE)
  then Raise (ValueError
                ("Sample '" ++ id sample ++ "' source media '"
                 ++ filepath sample
                 ++ "' is not a recognized image format")%string)
  else Return tt.

Definition class_name (l : Label) : string :=
  match l with
  | OfDetection _ => "Detection"
  | OfDetections _ => "Detections"
  | OfPolyline _ => "Polyline"
  | OfPolylines _ => "Polylines"
  | OfOther name => name
  end.

(** [_parse_rois]: the detections of a [Detections] value. *)
Definition _parse_rois (sample : Sample) (roi_field : string)
  : result (list Detection) :=
  match label sample roi_field with
  | OfDetections detections => Return detections
  | OfDetection d => Return [d]
  | OfPolyline p => Return [to_detection p]
  | OfPolylines polylines => Return (map to_detection polylines)
  | OfOther name =>
      Raise (ValueError
               ("Sample '" ++ id sample ++ "' field '" ++ roi_field
                ++ "' (" ++ name
                ++ ") is not a valid ROI field; must be a "
                ++ allowed_names ++ " instance")%string)
  end.

(** The loop of [_make_data_loader]; the image paths go to the torch
    dataset in this order. *)
Fixpoint _make_data_loader (samples : list Sample) : result (list string) :=
  match samples with
  | [] => Return []
  | sample :: rest =>
      _ <- _validate sample ;;
      image_paths <- _make_data_loader rest ;;
      Return (filepath sample :: image_paths)
  end.

(** The whole image as region of interest. *)
Definition whole_image : Detection :=
  {| bounding_box := [0; 0; 1; 1]%Q |}.

(** The loop of [_make_patch_data_loader]: the image paths and, beside
    them, the regions of interest of each image. *)
Fixpoint _make_patch_data_loader (samples : list Sample)
  (roi_field : string) : result (list string * list (list Detection)) :=
  match samples with
  | [] => Return ([], [])
  | sample :: rest =>
      _ <- _validate sample ;;
      rois <- _parse_rois sample roi_field ;;
      let rois :=
        match rois with
        | [] => [whole_image]
        | _ => rois
        end in
      r <- _make_patch_data_loader rest roi_field ;;
      Return (filepath sample :: fst r, rois :: snd r)
  end.

End WithFiles.

Section WithModel.

(** Images (or patches) as the model takes them, embedding vectors as it
    returns them. *)
Variables Img Vec : Type.

(** [model.embed_all(batch)]. *)
Variable embed_all : list Img -> list Vec.

(** [np.vstack] of two arrays of rows. *)
Definition vstack (a b : list Vec) : list Vec := a ++ b.

(** The loop of [_compute_embeddings] over the batches still to come;
    [None] is the initial [embeddings = None]. *)
Fixpoint _compute_embeddings_loop (data_loader : list (list Img))
  (embeddings : option (list Vec)) : option (list Vec) :=
  match data_loader with
  | [] => embeddings
  | imgs :: rest =>
      let vectors := embed_all imgs in
      _compute_embeddings_loop rest
        (match embeddings with
         | None => Some vectors
         | Some e => Some (vstack e vectors)
         end)
  end.

Definition _compute_embeddings (data_loader : list (list Img))
  : option (list Vec) :=
  _compute_embeddings_loop data_loader None.

Fixpoint batches_fuel (fuel batch_size : nat) (items : list Img)
  : list (list Img) :=
  match fuel with
  | O => []
  | S fuel' =>
      match items with
      | [] => []
      | _ =>
          firstn batch_size items
          :: batches_fuel fuel' batch_size (skipn batch_size items)
      end
  end.

(** Modelled from the spec: the batches of the external data loader,
    sequential and of fixed size, the last one possibly shorter. *)
Definition batches (batch_size : nat) (items : list Img) : list (list Img) :=
  batches_fuel (List.length items) batch_size items.

(** The batch size of [_make_data_loader]. *)
Definition batch_size : nat := 16.

(** An array of shape [(d,)] or [(n, d)]. *)
Inductive ndarray : Type :=
| Vector1D (v : Vec)
| Matrix2D (rows : list Vec).

(** [np.vstack((embeddings, embedding))] with a vector as second
    argument: a vector as first argument counts as one row. *)
Definition vstack_row (embeddings : ndarray) (embedding : Vec) : ndarray :=
  match embeddings with
  | Vector1D v => Matrix2D [v; embedding]
  | Matrix2D rows => Matrix2D (rows ++ [embedding])
  end.

(** [vectors.mean(axis=0)]. *)
Variable mean_axis0 : list Vec -> Vec.

(** The loop of [_compute_patch_embeddings]; each element of the loader
    holds the patches of one image. *)
Fixpoint _compute_patch_embeddings_loop (data_loader : list (list Img))
  (embeddings : option ndarray) : option ndarray :=
  match data_loader with
  | [] => embeddings
  | patches :: rest =>
      let vectors := embed_all patches in
      let embedding := mean_axis0 vectors in
      _compute_patch_embeddings_loop rest
        (match embeddings with
         | None => Some (Vector1D embedding)
         | Some e => Some (vstack_row e embedding)
         end)
  end.

Definition _compute_patch_embeddings (data_loader : list (list Img))
  : option ndarray :=
  _compute_patch_embeddings_loop data_loader None.

End WithModel.

End Loaders.

(** * Properties *)

(** ** Split resolution *)

Section SplitResolution.

Import Py Splits.

Variable samples : fo.SampleCollection.

Lemma to_views_none_given :
  _to_views samples None None None
  = Raise (ValueError "One of the split arguments must be given.").
Proof. reflexivity. Qed.

Lemma to_views_several_given sv sf st :
  1 < num_given sv sf st ->
  _to_views samples sv sf st
  = Raise (ValueError "Only one of the split arguments must be given.").
Proof.
  unfold num_given, _to_views.
  destruct sv, sf, st; simpl; intros Hn; try reflexivity; lia.
Qed.

Lemma to_views_only_views v vs :
  _to_views samples (Some (v :: vs)) None None = Return (Some (v :: vs)).
Proof. reflexivity. Qed.

Lemma to_views_only_field c f :
  _to_views samples None (Some (String c f)) None
  = (views <- _field_to_views samples (String c f) ;; Return (Some views)).
Proof. reflexivity. Qed.

Lemma to_views_only_tags t ts :
  _to_views samples None None (Some (t :: ts))
  = (views <- _tags_to_views samples (t :: ts) ;; Return (Some views)).
Proof. reflexivity. Qed.

Lemma field_to_views_raises field :
  raises (_field_to_views samples field)
  = (List.length (fo.distinct samples field) <? 2).
Proof.
  unfold _field_to_views.
  destruct (List.length (fo.distinct samples field) <? 2); reflexivity.
Qed.

Lemma tags_to_views_raises ts :
  raises (_tags_to_views samples ts) = (List.length ts <? 2).
Proof.
  unfold _tags_to_views.
  destruct (List.length ts <? 2); reflexivity.
Qed.

Lemma raises_bind_return {A B} (r : result A) (f : A -> B) :
  raises (x <- r ;; Return (f x)) = raises r.
Proof. destruct r; reflexivity. Qed.

(** When exactly one specifier is given and it is truthy, resolution
    raises exactly in the two documented cases. *)
Lemma to_views_raises_one_truthy sv sf st :
  num_given sv sf st = 1 ->
  (truthy_list sv || truthy_str sf || truthy_list st) = true ->
  raises (_to_views samples sv sf st) = true <->
  (exists field, sf = Some field
                 /\ List.length (fo.distinct samples field) < 2)
  \/ (exists ts, st = Some ts /\ List.length ts < 2).
Proof.
  unfold num_given.
  destruct sv as [[|v vs]|], sf as [[|c f]|], st as [[|t ts]|];
    simpl; intros Hn Ht; try discriminate; try lia.
  - split; [discriminate|].
    intros [(field & Hf & _)|(l & Hl & _)]; discriminate.
  - rewrite to_views_only_field, raises_bind_return, field_to_views_raises.
    rewrite Nat.ltb_lt. split.
    + intros Hlt. left. eexists. split; [reflexivity|exact Hlt].
    + intros [(field & Hf & Hlt)|(l & Hl & _)]; [|discriminate].
      injection Hf as <-. exact Hlt.
  - rewrite to_views_only_tags, raises_bind_return, tags_to_views_raises.
    rewrite Nat.ltb_lt. split.
    + intros Hlt. right. eexists. split; [reflexivity|exact Hlt].
    + intros [(field & Hf & _)|(l & Hl & Hlt)]; [discriminate|].
      injection Hl as <-. exact Hlt.
Qed.

(** A falsy single specifier takes no dispatch branch. *)
Lemma to_views_one_falsy sv sf st :
  num_given sv sf st = 1 ->
  (truthy_list sv || truthy_str sf || truthy_list st) = false ->
  _to_views samples sv sf st = Return None.
Proof.
  unfold num_given.
  destruct sv as [[|v vs]|], sf as [[|c f]|], st as [[|t ts]|];
    simpl; intros Hn Ht; try discriminate; try lia; reflexivity.
Qed.

(** X1. [_to_views] raises exactly when no specifier is given, when more
    than one is given, or when the single one given is a non-empty field
    name with fewer than two distinct values or a non-empty list of fewer
    than two tags. *)
Lemma to_views_raises_iff sv sf st :
  raises (_to_views samples sv sf st) = true <->
  num_given sv sf st = 0
  \/ 1 < num_given sv sf st
  \/ (num_given sv sf st = 1
      /\ ((exists field,
              sf = Some field /\ field <> ""
              /\ List.length (fo.distinct samples field) < 2)
          \/ (exists ts,
                 st = Some ts /\ ts <> [] /\ List.length ts < 2))).
Proof.
  destruct (Nat.eq_dec (num_given sv sf st) 0) as [H0|H0].
  { split; [auto|]. intros _. unfold _to_views. now rewrite H0. }
  destruct (Nat.eq_dec (num_given sv sf st) 1) as [H1|H1].
  - destruct (truthy_list sv || truthy_str sf || truthy_list st) eqn:Ht.
    + rewrite (to_views_raises_one_truthy _ _ _ H1 Ht). split.
      * intros [(field & Hf & Hlt)|(ts & Hs & Hlt)]; right; right;
          (split; [exact H1|]); [left|right].
        -- exists field. repeat split; auto. intros ->. subst sf.
           destruct sv as [[|? ?]|], st as [[|? ?]|];
             simpl in *; try discriminate; lia.
        -- exists ts. repeat split; auto. intros ->. subst st.
           destruct sv as [[|? ?]|], sf as [[|? ?]|];
             simpl in *; try discriminate; lia.
      * intros [?|[?|(_ & [(field & Hf & _ & Hlt)|(ts & Hs & _ & Hlt)])]];
          try lia; [left|right]; eauto.
    + rewrite (to_views_one_falsy _ _ _ H1 Ht). cbn [raises]. split;
        [discriminate|].
      intros [?|[?|(_ & [(field & -> & Hne & _)|(ts & -> & Hne & _)])]];
        try lia.
      * destruct field; [congruence|].
        rewrite !orb_false_iff in Ht. simpl in Ht. intuition discriminate.
      * destruct ts; [congruence|].
        rewrite !orb_false_iff in Ht. simpl in Ht. intuition discriminate.
  - assert (Hgt : 1 < num_given sv sf st) by lia.
    rewrite (to_views_several_given _ _ _ Hgt). cbn [raises]. tauto.
Qed.

End SplitResolution.

(** C10. Supplying exactly one split specifier as an empty collection
    ([split_views=[]] or [split_tags=[]]) counts as one given argument, so
    neither missing-argument error is raised; every dispatch branch tests
    truthiness, so [_to_views] takes none of them and returns [None]: no
    error and no list of views. *)
Theorem to_views_empty_collection_returns_none :
  (forall samples,
      Splits.num_given (Some []) None None = 1
      /\ Splits._to_views samples (Some []) None None = Py.Return None)
  /\ (forall samples,
         Splits.num_given None None (Some []) = 1
         /\ Splits._to_views samples None None (Some []) = Py.Return None)
  /\ (exists samples sv sf st,
         Splits.num_given sv sf st = 1
         /\ (sv = Some [] \/ st = Some [])
         /\ Py.raises (Splits._to_views samples sv sf st) = false
         /\ Splits._to_views samples sv sf st = Py.Return None).
Proof.
  split; [|split].
  - intros samples. split; reflexivity.
  - intros samples. split; reflexivity.
  - exists (fo.whole []), (Some []), None, None.
    repeat split; auto.
Qed.

(** C4, evaluated where the code departs from it. With [split_tags=[]] as
    the only specifier fewer than two tags are supplied; [_tags_to_views]
    raises on that argument, yet [_to_views] never reaches it and raises
    nothing. *)
Theorem to_views_too_few_tags_no_error :
  forall samples,
    Splits.num_given None None (Some []) = 1
    /\ List.length (@nil string) < 2
    /\ Py.raises (Splits._tags_to_views samples []) = true
    /\ Py.raises (Splits._to_views samples None None (Some [])) = false.
Proof.
  intros samples. repeat split; auto.
Qed.

(** ** Facts about the collaborator model *)

Section CollaboratorFacts.

Lemma contains_In x l : Py.contains x l = true <-> In x l.
Proof.
  unfold Py.contains. rewrite existsb_exists. split.
  - intros (y & Hy & Heq). apply String.eqb_eq in Heq. now subst.
  - intros Hx. exists x. split; [exact Hx|apply String.eqb_refl].
Qed.

Lemma contains_false x l : Py.contains x l = false <-> ~ In x l.
Proof.
  rewrite <- contains_In. destruct (Py.contains x l); split;
    congruence.
Qed.

Lemma get_sample_some ds i s :
  fo.get_sample ds i = Some s -> In s ds /\ fo.id s = i.
Proof.
  unfold fo.get_sample. intros Hf. apply find_some in Hf.
  destruct Hf as [Hin Heq]. apply String.eqb_eq in Heq. auto.
Qed.

Lemma has_id_In ds i : fo.has_id ds i = true <-> In i (map fo.id ds).
Proof.
  unfold fo.has_id. rewrite existsb_exists, in_map_iff. split.
  - intros (s & Hin & Heq). apply String.eqb_eq in Heq. eauto.
  - intros (s & Heq & Hin). exists s. split; [exact Hin|].
    now apply String.eqb_eq.
Qed.

Lemma get_sample_has_id ds i :
  fo.get_sample ds i = None <-> fo.has_id ds i = false.
Proof.
  unfold fo.get_sample, fo.has_id.
  induction ds as [|d ds IH]; simpl; [tauto|].
  destruct (fo.id d =? i)%string; simpl; [split; discriminate|exact IH].
Qed.

(** The identifiers a collection yields are those it shows that exist in
    its dataset, in the order it shows them. *)
Lemma lookup_all_ids ds ids :
  map fo.id (fo.lookup_all ds ids) = filter (fo.has_id ds) ids.
Proof.
  induction ids as [|i ids IH]; simpl; [reflexivity|].
  destruct (fo.get_sample ds i) as [s|] eqn:Hs.
  - destruct (get_sample_some _ _ Hs) as [Hin Hid].
    assert (Hh : fo.has_id ds i = true).
    { apply has_id_In, in_map_iff. eauto. }
    rewrite Hh. simpl. now rewrite Hid, IH.
  - apply get_sample_has_id in Hs. now rewrite Hs.
Qed.

Lemma iter_samples_ids c :
  map fo.id (fo.iter_samples c)
  = filter (fo.has_id (fo._dataset c)) (fo._ids c).
Proof. apply lookup_all_ids. Qed.

Lemma iter_samples_NoDup c :
  NoDup (fo._ids c) -> NoDup (map fo.id (fo.iter_samples c)).
Proof. intros Hnd. rewrite iter_samples_ids. now apply NoDup_filter. Qed.

Lemma iter_samples_has_id c i :
  In i (map fo.id (fo.iter_samples c)) -> fo.has_id (fo._dataset c) i = true.
Proof. rewrite iter_samples_ids, filter_In. tauto. Qed.

Lemma first_occurrences_NoDup ids :
  forall seen,
    NoDup ids -> (forall i, In i ids -> ~ In i seen) ->
    fo.first_occurrences seen ids = ids.
Proof.
  induction ids as [|i ids IH]; intros seen Hnd Hseen; simpl;
    [reflexivity|].
  inversion Hnd as [|? ? Hni Hnd']; subst.
  assert (Hc : Py.contains i seen = false).
  { apply contains_false, Hseen. now left. }
  rewrite Hc. f_equal. apply IH; [exact Hnd'|].
  intros j Hj [Heq|Hin].
  - subst. contradiction.
  - apply (Hseen j); [now right|exact Hin].
Qed.

Lemma filter_all {A} (f : A -> bool) l :
  (forall x, In x l -> f x = true) -> filter f l = l.
Proof.
  intros Hall. apply forallb_filter_id, forallb_forall. exact Hall.
Qed.

(** An ordered selection of distinct identifiers that all exist shows
    exactly these identifiers, in the requested order. *)
Lemma select_ordered_ids ds ids :
  NoDup ids -> (forall i, In i ids -> fo.has_id ds i = true) ->
  fo._ids (fo.select ds ids true) = ids
  /\ map fo.id (fo.iter_samples (fo.select ds ids true)) = ids.
Proof.
  intros Hnd Hall.
  assert (Hids : fo._ids (fo.select ds ids true) = ids).
  { simpl. rewrite first_occurrences_NoDup; auto.
    now apply filter_all. }
  split; [exact Hids|].
  rewrite iter_samples_ids, Hids. simpl. now apply filter_all.
Qed.

(** An unordered selection shows the requested identifiers that exist,
    in storage order. *)
Lemma select_unordered_In ds ids i :
  In i (fo._ids (fo.select ds ids false))
  <-> In i ids /\ fo.has_id ds i = true.
Proof.
  simpl. rewrite filter_In, contains_In, has_id_In. tauto.
Qed.

Lemma save_ids ds s : map fo.id (fo.save ds s) = map fo.id ds.
Proof.
  unfold fo.save. rewrite map_map. apply map_ext_in.
  intros d _. destruct (fo.id d =? fo.id s)%string eqn:Heq;
    [|reflexivity].
  apply String.eqb_eq in Heq. now symmetry.
Qed.

Lemma has_id_ext ds ds' i :
  map fo.id ds = map fo.id ds' -> fo.has_id ds i = fo.has_id ds' i.
Proof.
  intros Heq.
  destruct (fo.has_id ds i) eqn:H1, (fo.has_id ds' i) eqn:H2;
    try reflexivity.
  - apply has_id_In in H1. rewrite Heq in H1. apply has_id_In in H1.
    congruence.
  - apply has_id_In in H2. rewrite <- Heq in H2. apply has_id_In in H2.
    congruence.
Qed.

End CollaboratorFacts.

(** ** The hash-bucket index *)

Section HashIndexFacts.

Import Py HashIndex.

Lemma leak_ids_acc (vals : list (list string)) :
  forall acc,
    fold_left
      (fun leak_ids id_list =>
         if 1 <? List.length id_list then leak_ids ++ id_list else leak_ids)
      vals acc
    = acc ++ List.concat (filter (fun l => 1 <? List.length l) vals).
Proof.
  induction vals as [|l vals IH]; intros acc; simpl.
  - now rewrite app_nil_r.
  - rewrite IH. destruct (1 <? List.length l); simpl;
      [now rewrite app_assoc|reflexivity].
Qed.

(** The loop of [leaks] concatenates, in bucket order, the buckets with
    more than one member. *)
Lemma leak_ids_concat d :
  leak_ids d
  = List.concat (filter (fun l => 1 <? List.length l) (values d)).
Proof. unfold leak_ids. now rewrite leak_ids_acc. Qed.

Lemma append_id_perm hash i d :
  Permutation (List.concat (values (append_id hash i d)))
    (List.concat (values d) ++ [i]).
Proof.
  induction d as [|[k l] d IH]; simpl; [reflexivity|].
  destruct (k =? hash)%string; simpl.
  - rewrite <- !app_assoc. apply Permutation_app_head, Permutation_app_comm.
  - rewrite <- app_assoc. now apply Permutation_app_head.
Qed.

Lemma bucket_append_id hash i d k :
  bucket (append_id hash i d) k
  = if (k =? hash)%string then bucket d k ++ [i] else bucket d k.
Proof.
  unfold bucket.
  induction d as [|[k' l] d IH]; simpl.
  - rewrite (String.eqb_sym hash k). now destruct (k =? hash)%string.
  - destruct (k' =? hash)%string eqn:Hk'; simpl.
    + apply String.eqb_eq in Hk'. subst k'.
      rewrite (String.eqb_sym hash k). now destruct (k =? hash)%string.
    + destruct (k' =? k)%string eqn:Hkk; [|exact IH].
      apply String.eqb_eq in Hkk. subst k'. now rewrite Hk'.
Qed.

Lemma keys_append_id hash i d :
  keys (append_id hash i d)
  = if contains hash (keys d) then keys d else keys d ++ [hash].
Proof.
  unfold keys, contains.
  induction d as [|[k l] d IH]; simpl; [reflexivity|].
  rewrite (String.eqb_sym hash k).
  destruct (k =? hash)%string; simpl; [reflexivity|].
  rewrite IH. now destruct (existsb (String.eqb hash) (map fst d)).
Qed.

Lemma keys_append_id_NoDup hash i d :
  NoDup (keys d) -> NoDup (keys (append_id hash i d)).
Proof.
  intros Hnd. rewrite keys_append_id.
  destruct (contains hash (keys d)) eqn:Hc; [exact Hnd|].
  apply contains_false in Hc.
  apply NoDup_app; [exact Hnd|repeat constructor; intros []|].
  intros a Ha [<-|[]]. contradiction.
Qed.

(** With distinct keys, an entry of the dictionary is what [bucket]
    reads at its key. *)
Lemma bucket_of_entry d k l :
  NoDup (keys d) -> In (k, l) d -> bucket d k = l.
Proof.
  unfold bucket, keys.
  induction d as [|[k' l'] d IH]; simpl; intros Hnd Hin; [contradiction|].
  inversion Hnd as [|? ? Hni Hnd']; subst.
  destruct Hin as [Heq|Hin].
  - injection Heq as -> ->. now rewrite String.eqb_refl.
  - destruct (k' =? k)%string eqn:Hk; [|now apply IH].
    apply String.eqb_eq in Hk. subst k'. exfalso. apply Hni.
    apply in_map_iff. now exists (k, l).
Qed.

Section Loop.

Variable compute_filehash : string -> result string.
Variable read_gray_resized : string -> nat -> result ImageHash.Matrix.
Variable cfg : LeakySplitsHashConfig.

(** A successful run of the loop adds every visited identifier once,
    each to the bucket of its fingerprint and behind the identifiers
    already there, keeps the keys distinct, and leaves the identifiers
    of the dataset's documents alone. *)
Lemma compute_hashes_loop_spec todo :
  forall d ds ds' d',
    _compute_hashes_loop compute_filehash read_gray_resized cfg todo d ds
    = (ds', Return d') ->
    Permutation (List.concat (values d'))
      (List.concat (values d) ++ map fo.id todo)
    /\ map fo.id ds' = map fo.id ds
    /\ (NoDup (keys d) -> NoDup (keys d'))
    /\ (forall k,
           bucket d' k
           = bucket d k
             ++ map fo.id
                  (filter
                     (has_hash compute_filehash read_gray_resized cfg k)
                     todo)).
Proof.
  induction todo as [|s todo IH]; intros d ds ds' d'; simpl.
  - intros Heq. injection Heq as <- <-.
    rewrite !app_nil_r. repeat split; auto.
    intros k. now rewrite app_nil_r.
  - destruct (_hash_function compute_filehash read_gray_resized cfg)
      as [f|] eqn:Hf; [|discriminate].
    destruct (f (fo.filepath s)) as [hash|e] eqn:Hh; [|discriminate].
    intros Hloop. apply IH in Hloop.
    destruct Hloop as (Hperm & Hids & Hkeys & Hbucket).
    split; [|split; [|split]].
    + rewrite Hperm, append_id_perm, <- app_assoc. reflexivity.
    + rewrite Hids.
      destruct (hash_field cfg) as [[|c f']|]; auto using save_ids.
    + intros Hnd. now apply Hkeys, keys_append_id_NoDup.
    + intros k. rewrite Hbucket, bucket_append_id.
      unfold has_hash at 2. rewrite Hf, Hh.
      rewrite (String.eqb_sym hash k).
      destruct (k =? hash)%string; simpl;
        [now rewrite <- app_assoc|reflexivity].
Qed.

(** What a successfully built index holds. *)
Lemma init_spec samples ds idx :
  NoDup (fo._ids samples) ->
  __init__ compute_filehash read_gray_resized samples cfg
  = (ds, Return idx) ->
  _dataset idx = ds
  /\ map fo.id ds = map fo.id (fo._dataset samples)
  /\ Permutation (List.concat (values (_hash2ids idx)))
       (map fo.id (fo.iter_samples samples))
  /\ NoDup (List.concat (values (_hash2ids idx)))
  /\ NoDup (keys (_hash2ids idx))
  /\ (forall k,
         bucket (_hash2ids idx) k
         = map fo.id
             (filter (has_hash compute_filehash read_gray_resized cfg k)
                (fo.iter_samples samples)))
  /\ (forall i,
         In i (List.concat (values (_hash2ids idx))) ->
         fo.has_id ds i = true).
Proof.
  intros Hnd. unfold __init__.
  destruct (Splits._to_views samples (split_views cfg) (split_field cfg)
              (split_tags cfg)) as [views|e]; [|discriminate].
  unfold _compute_hashes.
  destruct (_compute_hashes_loop compute_filehash read_gray_resized cfg
              (fo.iter_samples samples) [] (fo._dataset samples))
    as [ds0 [d|e]] eqn:Hloop; [|discriminate].
  intros Heq. injection Heq as <- <-. simpl.
  apply compute_hashes_loop_spec in Hloop.
  destruct Hloop as (Hperm & Hids & Hkeys & Hbucket). simpl in *.
  repeat split; auto.
  - eapply Permutation_NoDup; [symmetry; exact Hperm|].
    now apply iter_samples_NoDup.
  - apply Hkeys. constructor.
  - intros i Hi. rewrite (has_id_ext _ _ i Hids).
    apply iter_samples_has_id.
    eapply Permutation_in; [exact Hperm|exact Hi].
Qed.

End Loop.

Lemma NoDup_app_disjoint {A} (l1 l2 : list A) x :
  NoDup (l1 ++ l2) -> In x l1 -> In x l2 -> False.
Proof.
  induction l1 as [|a l1 IH]; simpl; intros Hnd H1 H2; [contradiction|].
  inversion Hnd as [|? ? Hni Hnd']; subst.
  destruct H1 as [->|H1]; [|now apply IH].
  apply Hni, in_or_app. now right.
Qed.

Lemma concat_filter_NoDup {A} (f : list A -> bool) (L : list (list A)) :
  NoDup (List.concat L) -> NoDup (List.concat (filter f L)).
Proof.
  induction L as [|l L IH]; simpl; intros Hnd; [constructor|].
  pose proof (NoDup_app_remove_l _ _ Hnd) as HL.
  destruct (f l); simpl; [|now apply IH].
  apply NoDup_app; [now apply NoDup_app_remove_r in Hnd|now apply IH|].
  intros a Ha Hin. apply (NoDup_app_disjoint _ _ a Hnd Ha).
  apply in_concat in Hin. destruct Hin as (l' & Hl' & Hal').
  apply filter_In in Hl'. apply in_concat. exists l'. tauto.
Qed.

(** Buckets that do not repeat an identifier do not share one either. *)
Lemma concat_NoDup_one_bucket {A} (L : list (list A)) l1 l2 x :
  NoDup (List.concat L) ->
  In l1 L -> In l2 L -> In x l1 -> In x l2 -> l1 = l2.
Proof.
  induction L as [|l L IH]; simpl; intros Hnd H1 H2 Hx1 Hx2;
    [contradiction|].
  destruct H1 as [->|H1], H2 as [->|H2].
  - reflexivity.
  - exfalso. apply (NoDup_app_disjoint _ _ x Hnd Hx1).
    apply in_concat. eauto.
  - exfalso. apply (NoDup_app_disjoint _ _ x Hnd Hx2).
    apply in_concat. eauto.
  - apply IH; auto. now apply NoDup_app_remove_l in Hnd.
Qed.

(** On an index whose buckets repeat no identifier and hold only
    identifiers of the dataset, [leaks] shows the buckets of two or more
    members, concatenated. *)
Lemma leaks_ids_of_index idx :
  NoDup (List.concat (values (_hash2ids idx))) ->
  (forall i, In i (List.concat (values (_hash2ids idx))) ->
             fo.has_id (_dataset idx) i = true) ->
  fo._ids (leaks idx)
  = List.concat
      (filter (fun l => 2 <=? List.length l) (values (_hash2ids idx)))
  /\ map fo.id (fo.iter_samples (leaks idx))
     = List.concat
         (filter (fun l => 2 <=? List.length l) (values (_hash2ids idx))).
Proof.
  intros Hnd Hhas. unfold leaks. rewrite leak_ids_concat.
  apply select_ordered_ids.
  - now apply concat_filter_NoDup.
  - intros i Hi. apply Hhas.
    apply in_concat in Hi. destruct Hi as (l & Hl & Hil).
    apply filter_In in Hl. apply in_concat. exists l. tauto.
Qed.

Lemma scan_buckets_hit ds i buckets :
  In i (List.concat buckets) ->
  exists id_list,
    In id_list buckets /\ In i id_list
    /\ scan_buckets ds i buckets = Some (fo.select ds id_list false).
Proof.
  induction buckets as [|l buckets IH]; simpl; intros Hin; [contradiction|].
  destruct (contains i l) eqn:Hc.
  - apply contains_In in Hc. exists l. auto.
  - apply contains_false in Hc. apply in_app_or in Hin.
    destruct Hin as [Hin|Hin]; [contradiction|].
    destruct (IH Hin) as (l' & Hl' & Hil' & Hscan). exists l'. auto.
Qed.

Lemma scan_buckets_miss ds i buckets :
  ~ In i (List.concat buckets) -> scan_buckets ds i buckets = None.
Proof.
  induction buckets as [|l buckets IH]; simpl; intros Hni; [reflexivity|].
  destruct (contains i l) eqn:Hc.
  - apply contains_In in Hc. exfalso. apply Hni, in_or_app. now left.
  - apply IH. intros Hin. apply Hni, in_or_app. now right.
Qed.

End HashIndexFacts.

(** ** Leaks of the hash-bucket index *)

(** C1. On every hash-bucket index built from a collection that shows each
    sample once, [leaks] is a view over the indexed dataset that shows
    exactly the identifiers of the buckets with at least two members,
    concatenated in bucket order with each bucket's own order kept, and
    materializes to the samples with these identifiers in that order; an
    identifier is shown exactly when it lies in such a bucket, and the
    identifier of a singleton bucket is never shown.  Each bucket lists, in
    the order the samples were visited, the identifiers of the samples
    with its fingerprint. *)
Theorem hash_leaks_are_the_duplicate_buckets :
  forall compute_filehash read_gray_resized samples cfg ds idx,
    NoDup (fo._ids samples) ->
    HashIndex.__init__ compute_filehash read_gray_resized samples cfg
    = (ds, Py.Return idx) ->
    fo._dataset (HashIndex.leaks idx) = HashIndex._dataset idx
    /\ map fo.id (HashIndex._dataset idx) = map fo.id (fo._dataset samples)
    /\ fo._ids (HashIndex.leaks idx)
       = List.concat
           (filter (fun id_list => 2 <=? List.length id_list)
              (HashIndex.values (HashIndex._hash2ids idx)))
    /\ map fo.id (fo.iter_samples (HashIndex.leaks idx))
       = fo._ids (HashIndex.leaks idx)
    /\ (forall i,
           In i (fo._ids (HashIndex.leaks idx)) <->
           exists id_list,
             In id_list (HashIndex.values (HashIndex._hash2ids idx))
             /\ 2 <= List.length id_list /\ In i id_list)
    /\ (forall i,
           In [i] (HashIndex.values (HashIndex._hash2ids idx)) ->
           ~ In i (fo._ids (HashIndex.leaks idx)))
    /\ (forall k id_list,
           In (k, id_list) (HashIndex._hash2ids idx) ->
           id_list
           = map fo.id
               (filter
                  (HashIndex.has_hash compute_filehash read_gray_resized
                     cfg k)
                  (fo.iter_samples samples))).
Proof.
  intros cfh rgr samples cfg ds idx Hnd Hinit.
  destruct (init_spec cfh rgr cfg samples Hnd Hinit)
    as (Hds & Hids & _ & Hndc & Hkeys & Hbucket & Hhas).
  rewrite <- Hds in Hhas.
  destruct (leaks_ids_of_index idx Hndc Hhas) as [Hleak Hmat].
  assert (Hin : forall i,
             In i (fo._ids (HashIndex.leaks idx)) <->
             exists id_list,
               In id_list (HashIndex.values (HashIndex._hash2ids idx))
               /\ 2 <= List.length id_list /\ In i id_list).
  { intros i. rewrite Hleak, in_concat. split.
    - intros (l & Hl & Hil). apply filter_In in Hl. destruct Hl as [Hl Hlen].
      apply Nat.leb_le in Hlen. eauto.
    - intros (l & Hl & Hlen & Hil). exists l. split; [|exact Hil].
      apply filter_In. split; [exact Hl|now apply Nat.leb_le]. }
  split; [reflexivity|]. split; [now rewrite Hds|].
  split; [exact Hleak|]. split; [now rewrite Hmat, Hleak|].
  split; [exact Hin|]. split.
  - intros i Hsingle Hshown. apply Hin in Hshown.
    destruct Hshown as (l & Hl & Hlen & Hil).
    assert (Heq : l = [i]).
    { apply (concat_NoDup_one_bucket _ l [i] i Hndc); auto. now left. }
    subst l. simpl in Hlen. lia.
  - intros k l Hkl. rewrite <- Hbucket. symmetry.
    now apply bucket_of_entry.
Qed.

Lemma hash_leaks_are_the_duplicate_buckets_witness :
  NoDup (fo._ids Example.samples)
  /\ fo._ids (HashIndex.leaks Example.index) = ["s1"; "s6"]
  /\ ~ In "s2" (fo._ids (HashIndex.leaks Example.index)).
Proof.
  assert (Hnd : NoDup (fo._ids Example.samples)).
  { repeat constructor; simpl; intuition discriminate. }
  assert (Hinit :
            HashIndex.__init__ Example.compute_filehash
              Example.read_gray_resized Example.samples Example.cfg
            = (fst Example.built, Py.Return Example.index)).
  { vm_compute. reflexivity. }
  destruct (hash_leaks_are_the_duplicate_buckets _ _ _ _ Hnd Hinit)
    as (_ & _ & Hleak & _ & _ & Hsingle & _).
  split; [exact Hnd|]. split.
  - rewrite Hleak. vm_compute. reflexivity.
  - apply Hsingle. vm_compute. tauto.
Defined.

(** For a sample of the indexed collection [leaks_by_sample] always finds
    a bucket, whatever its size: the answer is the unordered selection of
    the one bucket that holds the sample's identifier, and it shows that
    identifier. *)
Lemma leaks_by_sample_of_member :
  forall compute_filehash read_gray_resized samples cfg ds idx x,
    NoDup (fo._ids samples) ->
    HashIndex.__init__ compute_filehash read_gray_resized samples cfg
    = (ds, Py.Return idx) ->
    In x (fo.iter_samples samples) ->
    exists id_list,
      In id_list (HashIndex.values (HashIndex._hash2ids idx))
      /\ In (fo.id x) id_list
      /\ HashIndex.leaks_by_sample idx (HashIndex.OfSample x)
         = Some (fo.select (HashIndex._dataset idx) id_list false)
      /\ (forall i,
             In i (fo._ids (fo.select (HashIndex._dataset idx) id_list false))
             <-> In i id_list).
Proof.
  intros cfh rgr samples cfg ds idx x Hnd Hinit Hx.
  destruct (init_spec cfh rgr cfg samples Hnd Hinit)
    as (Hds & Hids & Hperm & Hndc & _ & _ & Hhas).
  assert (Hin : In (fo.id x)
                  (List.concat (HashIndex.values (HashIndex._hash2ids idx)))).
  { eapply Permutation_in; [symmetry; exact Hperm|]. now apply in_map. }
  destruct (scan_buckets_hit (HashIndex._dataset idx) _ _ Hin)
    as (l & Hl & Hxl & Hscan).
  exists l. repeat split; auto.
  - apply select_unordered_In.
  - intros Hi. apply select_unordered_In. split; [exact Hi|].
    rewrite Hds. apply Hhas, in_concat. eauto.
Qed.

(** An identifier outside every bucket gets Python's [None]. *)
Lemma leaks_by_sample_of_stranger idx i :
  ~ In i (List.concat (HashIndex.values (HashIndex._hash2ids idx))) ->
  HashIndex.leaks_by_sample idx (HashIndex.OfStr i) = None.
Proof. intros Hni. now apply scan_buckets_miss. Qed.

(** Split resolution comes before hashing: when it raises, the constructor
    of the hash-bucket index raises the same exception and the dataset's
    documents are as they were, no fingerprint written. *)
Lemma hash_init_raises_eagerly :
  forall compute_filehash read_gray_resized samples cfg e,
    Splits._to_views samples (HashIndex.split_views cfg)
      (HashIndex.split_field cfg) (HashIndex.split_tags cfg) = Py.Raise e ->
    HashIndex.__init__ compute_filehash read_gray_resized samples cfg
    = (fo._dataset samples, Py.Raise e).
Proof.
  intros cfh rgr samples cfg e Hr. unfold HashIndex.__init__.
  now rewrite Hr.
Qed.

(** C2, evaluated where the code departs from it. In the six-sample
    collection the sample ["s2"] shares its fingerprint with no other
    sample, so its bucket has exactly one member and it is no leak;
    [leaks_by_sample] nevertheless returns a view, the one showing ["s2"]
    alone, where the property has no result.  For ["s1"], whose bucket has
    two members, it returns both. *)
Theorem leaks_by_sample_singleton_bucket_returns_view :
  In ["s2"] (HashIndex.values (HashIndex._hash2ids Example.index))
  /\ ~ In "s2" (fo._ids (HashIndex.leaks Example.index))
  /\ HashIndex.leaks_by_sample Example.index (HashIndex.OfStr "s2")
     = Some (fo.select (HashIndex._dataset Example.index) ["s2"] false)
  /\ option_map fo._ids
       (HashIndex.leaks_by_sample Example.index (HashIndex.OfStr "s2"))
     = Some ["s2"]
  /\ option_map fo._ids
       (HashIndex.leaks_by_sample Example.index (HashIndex.OfStr "s1"))
     = Some ["s1"; "s6"].
Proof.
  repeat split; try (vm_compute; reflexivity).
  - vm_compute. tauto.
  - vm_compute. intuition discriminate.
Qed.

(** C9. [leaks_by_sample] gives the same answer for a sample object and
    for that sample's identifier string. *)
Theorem leaks_by_sample_object_or_id :
  forall (idx : HashIndex.LeakySplitsHashIndex) (s : fo.Sample),
    HashIndex.leaks_by_sample idx (HashIndex.OfSample s)
    = HashIndex.leaks_by_sample idx (HashIndex.OfStr (fo.id s)).
Proof. intros idx s. reflexivity. Qed.

(** C3 (code bug). [num_leaks] is meant to be the number of samples in
    the view [leaks] returns, but the property returns [self.leaks.count]
    without calling it.  For every index of every implementation of the
    reporting contract the result is the bound method of the leaks view
    and equals no number.  On the six-sample index, where one test sample
    is a copy of a train sample, the view has 2 samples (calling the
    method gives 2), yet [num_leaks == 2] is false. *)
Theorem num_leaks_is_a_bound_method :
  (forall (I : Type) (contract : Interface.LeakySplitIndexInterface I)
          (self : I),
      fst (Interface.num_leaks self)
      = Interface.BoundMethod (fo.bound_count (fst (Interface.leaks self)))
      /\ (forall n : nat,
             fst (Interface.num_leaks self) <> Interface.Int n
             /\ Interface.equals_int (fst (Interface.num_leaks self)) n
                = false))
  /\ fo.count (fst (Interface.leaks Example.index)) = 2
  /\ fst (Interface.num_leaks Example.index)
     = Interface.BoundMethod
         (fo.bound_count (fst (Interface.leaks Example.index)))
  /\ Interface.equals_int (fst (Interface.num_leaks Example.index)) 2
     = false.
Proof.
  split.
  - intros I contract self. unfold Interface.num_leaks.
    destruct (Interface.leaks self) as [view self']. cbn [fst].
    split; [reflexivity|]. intros n. split; [discriminate|reflexivity].
  - split; [vm_compute; reflexivity|]. split; reflexivity.
Qed.

(** ** The embedding-similarity index *)

Section SKLIndexFacts.

Import SKLIndex.

Context {B Emb : Type} {ops : SimilarityBackend B Emb}.

(** A cached view that is truthy is returned as it is, and the index,
    its backend included, stays as it was: no backend operation runs. *)
Lemma leaks_cache_hit (self : LeakySplitsSKLIndex B) view :
  _cached_leaks_view self = Some view ->
  fo.truthy view = true ->
  leaks self = (view, self).
Proof. intros Hc Ht. unfold leaks. now rewrite Hc, Ht. Qed.

(** The pipeline stores the view it returns, and touches neither the
    threshold nor the dataset nor the split views. *)
Lemma compute_leaks_spec (self : LeakySplitsSKLIndex B) :
  _cached_leaks_view (snd (compute_leaks self))
  = Some (fst (compute_leaks self))
  /\ _leak_threshold (snd (compute_leaks self)) = _leak_threshold self
  /\ _dataset (snd (compute_leaks self)) = _dataset self
  /\ split_views (snd (compute_leaks self)) = split_views self.
Proof.
  unfold compute_leaks, mbind, get, on_backend, set_cached_leaks_view, ret.
  simpl.
  destruct (compute_embeddings (_dataset self) (backend self))
    as [[[embeddings sample_ids] label_ids] b1]. simpl.
  destruct (duplicates_view
              (find_duplicates (_leak_threshold self)
                 (add_to_index embeddings sample_ids label_ids b1)))
    as [view b2]. simpl. auto.
Qed.

Lemma leaks_caches_result (self : LeakySplitsSKLIndex B) :
  _cached_leaks_view (snd (leaks self)) = Some (fst (leaks self)).
Proof.
  unfold leaks.
  destruct (_cached_leaks_view self) as [view|] eqn:Hc;
    [destruct (fo.truthy view) eqn:Ht|]; simpl;
    auto; apply compute_leaks_spec.
Qed.

(** X28. When the first access of [leaks] returns a truthy (non-empty)
    view, the second access returns the same view and leaves the index,
    its backend included, as the first access left it. *)
Lemma leaks_second_access (self : LeakySplitsSKLIndex B) :
  fo.truthy (fst (leaks self)) = true ->
  leaks (snd (leaks self)) = leaks self.
Proof.
  intros Ht.
  rewrite (leaks_cache_hit (snd (leaks self)) (leaks_caches_result self) Ht).
  now destruct (leaks self).
Qed.

(** [set_threshold] writes [_leak_threshold] and nothing else. *)
Lemma set_threshold_frame (self : LeakySplitsSKLIndex B) t :
  _leak_threshold (snd (set_threshold t self)) = t
  /\ _cached_leaks_view (snd (set_threshold t self))
     = _cached_leaks_view self
  /\ backend (snd (set_threshold t self)) = backend self
  /\ _dataset (snd (set_threshold t self)) = _dataset self
  /\ split_views (snd (set_threshold t self)) = split_views self.
Proof. simpl. auto. Qed.

(** X29. With a truthy (non-empty) view in the cache, the view [leaks]
    returns is the same before and after [set_threshold]. *)
Lemma leaks_after_set_threshold (self : LeakySplitsSKLIndex B) view t :
  _cached_leaks_view self = Some view ->
  fo.truthy view = true ->
  fst (leaks (snd (set_threshold t self))) = fst (leaks self).
Proof.
  intros Hc Ht.
  rewrite (leaks_cache_hit self Hc Ht).
  now rewrite (leaks_cache_hit (snd (set_threshold t self)) Hc Ht).
Qed.

(** Split resolution comes before any backend work: if it raises, so
    does the constructor. *)
Lemma skl_init_raises_eagerly (b : B) samples cfg e :
  Splits._to_views samples (Splits.split_views cfg)
    (Splits.split_field cfg) (Splits.split_tags cfg) = Py.Raise e ->
  __init__ b samples cfg = Py.Raise e.
Proof. intros Hr. unfold __init__. now rewrite Hr. Qed.

End SKLIndexFacts.

(** C6, evaluated where the code departs from it. On the six-sample
    collection, with all samples far apart, the first access of [leaks]
    runs the pipeline once and stores an empty view in
    [_cached_leaks_view].  The empty view is falsy, so the second access
    fails the cache test and runs compute, add and find a second time. *)
Theorem skl_leaks_empty_view_recomputed :
  let first := Example.skl_leaks Example.skl_index in
  let second := Example.skl_leaks (snd first) in
  fo._ids (fst first) = []
  /\ SKLIndex._cached_leaks_view (snd first) = Some (fst first)
  /\ fo.truthy (fst first) = false
  /\ (SKLIndex.n_compute (SKLIndex.backend (snd first)),
      SKLIndex.n_add (SKLIndex.backend (snd first)),
      SKLIndex.n_find (SKLIndex.backend (snd first))) = (1, 1, 1)
  /\ (SKLIndex.n_compute (SKLIndex.backend (snd second)),
      SKLIndex.n_add (SKLIndex.backend (snd second)),
      SKLIndex.n_find (SKLIndex.backend (snd second))) = (2, 2, 2).
Proof. repeat split; vm_compute; reflexivity. Qed.

(** C7, evaluated where the code departs from it. Same index, after
    [leaks] has been computed and stored as an empty view:
    [set_threshold 10] leaves [_cached_leaks_view] as it is, but the next
    access of [leaks] runs the pipeline again with the new threshold and
    returns all six samples where the access before returned none. *)
Theorem skl_set_threshold_changes_empty_leaks :
  let computed := snd (Example.skl_leaks Example.skl_index) in
  let changed := snd (SKLIndex.set_threshold (10 # 1) computed) in
  SKLIndex._cached_leaks_view computed
  = Some (fst (Example.skl_leaks Example.skl_index))
  /\ SKLIndex._cached_leaks_view changed
     = SKLIndex._cached_leaks_view computed
  /\ fo._ids (fst (Example.skl_leaks computed)) = []
  /\ fo._ids (fst (Example.skl_leaks changed))
     = ["s1"; "s2"; "s3"; "s4"; "s5"; "s6"].
Proof. repeat split; vm_compute; reflexivity. Qed.

(** ** The image fingerprint *)

Section ImageHashFacts.

Import Py ImageHash.

Lemma removelast_length' {A} (r : list A) :
  List.length (removelast r) = List.length r - 1.
Proof.
  induction r as [|a r IH]; [reflexivity|].
  destruct r as [|b r]; [reflexivity|].
  change (removelast (a :: b :: r)) with (a :: removelast (b :: r)).
  cbn [List.length]. rewrite IH. simpl. lia.
Qed.

Lemma removelast_nth {A} (r : list A) d :
  forall j, j < List.length r - 1 -> nth j (removelast r) d = nth j r d.
Proof.
  induction r as [|a r IH]; intros j Hj; [reflexivity|].
  destruct r as [|b r]; [simpl in Hj; lia|].
  change (removelast (a :: b :: r)) with (a :: removelast (b :: r)).
  destruct j as [|j]; [reflexivity|].
  simpl. apply IH. simpl in *. lia.
Qed.

Lemma tl_nth {A} (r : list A) d j : nth j (tl r) d = nth (S j) r d.
Proof. destruct r; [now destruct j|reflexivity]. Qed.

Lemma tl_length {A} (r : list A) : List.length (tl r) = List.length r - 1.
Proof. destruct r; simpl; lia. Qed.

Lemma row_diff_length r : List.length (row_diff r) = List.length r - 1.
Proof.
  unfold row_diff.
  rewrite length_map, length_combine, tl_length, removelast_length'. lia.
Qed.

(** Entry [j] of a row's comparison is [r[j+1] > r[j]]. *)
Lemma row_diff_nth r j :
  S j < List.length r ->
  nth j (row_diff r) false = (nth (S j) r 0 >? nth j r 0)%Z.
Proof.
  intros Hj. unfold row_diff.
  change false with ((fun p : Z * Z => (fst p >? snd p)%Z) (0, 0)%Z).
  rewrite map_nth, combine_nth;
    [|now rewrite tl_length, removelast_length'].
  simpl. rewrite tl_nth, removelast_nth; [reflexivity|lia].
Qed.

Lemma diff_shape rows cols m :
  has_shape rows (S cols) m ->
  List.length (diff m) = rows
  /\ Forall (fun r => List.length r = cols) (diff m).
Proof.
  intros [Hrows Hcols]. unfold diff. split; [now rewrite length_map|].
  apply Forall_map. eapply Forall_impl; [|exact Hcols].
  intros r Hr. simpl. rewrite row_diff_length, Hr. lia.
Qed.

Lemma concat_length_uniform {A} cols (d : list (list A)) :
  Forall (fun r => List.length r = cols) d ->
  List.length (List.concat d) = List.length d * cols.
Proof.
  induction 1 as [|r d Hr _ IH]; simpl; [reflexivity|].
  rewrite length_app, IH, Hr. reflexivity.
Qed.

(** Row-major order: entry [(i, j)] is at position [i * cols + j]. *)
Lemma concat_nth_uniform {A} cols (d : list (list A)) dflt :
  Forall (fun r => List.length r = cols) d ->
  forall i j,
    i < List.length d -> j < cols ->
    nth (i * cols + j) (List.concat d) dflt = nth j (nth i d []) dflt.
Proof.
  induction 1 as [|r d Hr _ IH]; intros i j Hi Hj; simpl in Hi; [lia|].
  simpl List.concat. destruct i as [|i].
  - simpl. rewrite app_nth1; [reflexivity|lia].
  - rewrite app_nth2; [|simpl; lia].
    replace (S i * cols + j - List.length r) with (i * cols + j)
      by (simpl; lia).
    simpl. apply IH; lia.
Qed.

Lemma int_base2_acc_binary bits :
  forall acc,
    int_base2_acc (binary_string bits) acc
    = Return (bits_value_acc bits acc).
Proof.
  induction bits as [|b bits IH]; intros acc; [reflexivity|].
  destruct b; simpl; rewrite IH; [reflexivity|].
  now rewrite N.add_0_r.
Qed.

(** [int(_, 2)] reads a non-empty string of binary digits as the number
    its bits denote. *)
Lemma int_base2_binary bits :
  bits <> [] ->
  int_base2 (binary_string bits) = Return (bits_value bits).
Proof.
  destruct bits as [|b bits]; [congruence|]. intros _.
  unfold int_base2, bits_value.
  rewrite <- int_base2_acc_binary. now destruct b.
Qed.

Lemma bits_value_acc_bound bits :
  forall acc,
    (bits_value_acc bits acc
     < (acc + 1) * 2 ^ N.of_nat (List.length bits))%N.
Proof.
  induction bits as [|b bits IH]; intros acc.
  - simpl. lia.
  - cbn [bits_value_acc List.length].
    rewrite Nat2N.inj_succ, N.pow_succ_r'.
    specialize (IH (2 * acc + (if b then 1 else 0))%N).
    set (v := bits_value_acc _ _) in *.
    set (p := (2 ^ N.of_nat (List.length bits))%N) in *.
    destruct b; nia.
Qed.

Lemma bits_value_bound bits :
  (bits_value bits < 2 ^ N.of_nat (List.length bits))%N.
Proof.
  unfold bits_value. pose proof (bits_value_acc_bound bits 0). lia.
Qed.

Lemma string_length_append s1 s2 :
  String.length (s1 ++ s2)%string = String.length s1 + String.length s2.
Proof. induction s1 as [|c s1 IH]; simpl; [reflexivity|now rewrite IH]. Qed.

Lemma zeros_length k : String.length (zeros k) = k.
Proof. induction k as [|k IH]; simpl; [reflexivity|now rewrite IH]. Qed.

Lemma hex_acc_length fuel :
  forall n acc k,
    (n < 16 ^ N.of_nat k)%N ->
    String.length (hex_acc fuel n acc) <= String.length acc + k.
Proof.
  induction fuel as [|fuel IH]; intros n acc k Hn; simpl; [lia|].
  destruct (n =? 0)%N eqn:Hz; [lia|].
  apply N.eqb_neq in Hz.
  destruct k as [|k]; [simpl in Hn; lia|].
  rewrite Nat2N.inj_succ, N.pow_succ_r' in Hn.
  apply N.Div0.div_lt_upper_bound in Hn.
  specialize (IH _ (String (hex_digit (n mod 16)%N) acc) _ Hn).
  simpl in IH. lia.
Qed.

Lemma format_x_length n k :
  0 < k -> (n < 16 ^ N.of_nat k)%N -> String.length (format_x n) <= k.
Proof.
  intros Hk Hn. unfold format_x.
  destruct (n =? 0)%N; [simpl; lia|].
  exact (@hex_acc_length _ n EmptyString k Hn).
Qed.

(** The width of the format is a minimum. *)
Lemma format_0x_length width n :
  String.length (format_0x width n)
  = Nat.max width (String.length (format_x n)).
Proof.
  unfold format_0x. rewrite string_length_append, zeros_length. lia.
Qed.

Lemma hex_digit_value_hex_digit d :
  (d < 16)%N -> hex_digit_value (hex_digit d) = Some d.
Proof.
  intros Hd.
  assert (Hcases :
            (d = 0 \/ d = 1 \/ d = 2 \/ d = 3 \/ d = 4 \/ d = 5 \/ d = 6
             \/ d = 7 \/ d = 8 \/ d = 9 \/ d = 10 \/ d = 11 \/ d = 12
             \/ d = 13 \/ d = 14 \/ d = 15)%N) by lia.
  repeat (destruct Hcases as [->|Hcases]; [reflexivity|]).
  now subst d.
Qed.

Lemma hex_value_acc_hex_acc fuel :
  forall n acc,
    (n < 2 ^ N.of_nat fuel)%N ->
    hex_value_acc (hex_acc fuel n acc) 0 = hex_value_acc acc n.
Proof.
  induction fuel as [|fuel IH]; intros n acc Hn.
  - simpl in *. now replace n with 0%N by lia.
  - simpl hex_acc. destruct (n =? 0)%N eqn:Hz.
    + apply N.eqb_eq in Hz. now subst n.
    + rewrite IH.
      * cbn [hex_value_acc].
        rewrite hex_digit_value_hex_digit by (apply N.mod_lt; lia).
        f_equal. symmetry. apply N.div_mod. lia.
      * rewrite Nat2N.inj_succ, N.pow_succ_r' in Hn.
        apply N.Div0.div_lt_upper_bound.
        lia.
Qed.

Lemma hex_value_acc_zeros k s :
  hex_value_acc (zeros k ++ s)%string 0 = hex_value_acc s 0.
Proof. induction k as [|k IH]; [reflexivity|exact IH]. Qed.

(** Reading the formatted string back as hexadecimal gives the number:
    every character is a lower-case hexadecimal digit and the digits lose
    nothing. *)
Lemma hex_value_format_0x width n :
  hex_value (format_0x width n) = Some n.
Proof.
  unfold hex_value, format_0x. rewrite hex_value_acc_zeros.
  unfold format_x. destruct (n =? 0)%N eqn:Hz.
  - apply N.eqb_eq in Hz. now subst n.
  - rewrite hex_value_acc_hex_acc; [reflexivity|].
    rewrite N2Nat.id. apply N.size_gt.
Qed.

End ImageHashFacts.

(** X17. For every positive hash size the fingerprint has the width of
    the format, [hash_size * hash_size // 4] digits, or one digit more;
    when [hash_size] is odd the square is not a multiple of four. *)
Lemma dhash_length_any_size :
  forall hash_size resized,
    0 < hash_size ->
    ImageHash.has_shape hash_size (hash_size + 1) resized ->
    exists h,
      ImageHash.dhash hash_size resized = Py.Return h
      /\ hash_size * hash_size / 4 <= String.length h
         <= hash_size * hash_size / 4 + 1.
Proof.
  intros hs m Hpos Hshape. rewrite Nat.add_1_r in Hshape.
  destruct (diff_shape Hshape) as [Hrows Hcols].
  pose proof (concat_length_uniform Hcols) as Hlen. rewrite Hrows in Hlen.
  assert (Hne : ImageHash.flatten (ImageHash.diff m) <> []).
  { intros Heq. unfold ImageHash.flatten in Heq. rewrite Heq in Hlen.
    simpl in Hlen. nia. }
  unfold ImageHash.dhash. rewrite (int_base2_binary Hne). cbn [Py.bind].
  eexists. split; [reflexivity|].
  rewrite format_0x_length.
  pose proof (bits_value_bound (ImageHash.flatten (ImageHash.diff m)))
    as Hb.
  unfold ImageHash.flatten in Hb at 2. rewrite Hlen in Hb.
  assert (Hle : String.length
                  (ImageHash.format_x
                     (ImageHash.bits_value
                        (ImageHash.flatten (ImageHash.diff m))))
                <= hs * hs / 4 + 1).
  { apply format_x_length; [lia|].
    eapply N.lt_le_trans; [exact Hb|].
    replace (16 ^ N.of_nat (hs * hs / 4 + 1))%N
      with (2 ^ (4 * N.of_nat (hs * hs / 4 + 1)))%N
      by (rewrite N.pow_mul_r; reflexivity).
    apply N.pow_le_mono_r; [lia|].
    pose proof (Nat.div_mod_eq (hs * hs) 4) as Hdm.
    pose proof (Nat.mod_upper_bound (hs * hs) 4) as Hmod. lia. }
  lia.
Qed.

(** C5 (amended). For every even [hash_size] of at least 2 and every
    grayscale matrix of [hash_size] rows and [hash_size + 1] columns the
    resize step produces, [_image_hash] returns a string of exactly
    [hash_size * hash_size / 4] characters, each a hexadecimal digit
    ([hex_value] reads it), that denotes the number whose
    [hash_size * hash_size] bits, row-major and most significant first,
    are the comparisons [pixel[i][j+1] > pixel[i][j]]; the string is a
    function of the pixels alone. *)
Theorem image_hash_even_size :
  forall read_gray_resized image hash_size resized,
    Nat.even hash_size = true ->
    0 < hash_size ->
    read_gray_resized image hash_size = Py.Return resized ->
    ImageHash.has_shape hash_size (hash_size + 1) resized ->
    exists h,
      ImageHash._image_hash read_gray_resized image hash_size = Py.Return h
      /\ ImageHash.dhash hash_size resized = Py.Return h
      /\ String.length h = hash_size * hash_size / 4
      /\ ImageHash.hex_value h
         = Some
             (ImageHash.bits_value
                (ImageHash.flatten (ImageHash.diff resized)))
      /\ List.length (ImageHash.flatten (ImageHash.diff resized))
         = hash_size * hash_size
      /\ (forall i j,
             i < hash_size -> j < hash_size ->
             nth (i * hash_size + j)
               (ImageHash.flatten (ImageHash.diff resized)) false
             = (nth (S j) (nth i resized []) 0
                >? nth j (nth i resized []) 0)%Z).
Proof.
  intros read image hs m Heven Hpos Hread Hshape.
  rewrite Nat.add_1_r in Hshape.
  destruct (diff_shape Hshape) as [Hrows Hcols].
  pose proof (concat_length_uniform Hcols) as Hlen. rewrite Hrows in Hlen.
  assert (Hne : ImageHash.flatten (ImageHash.diff m) <> []).
  { intros Heq. unfold ImageHash.flatten in Heq. rewrite Heq in Hlen.
    simpl in Hlen. nia. }
  apply Nat.even_spec in Heven. destruct Heven as [half Hhalf].
  assert (Hquarter : hs * hs / 4 = half * half).
  { subst hs. replace (2 * half * (2 * half)) with (half * half * 4) by lia.
    apply Nat.div_mul. lia. }
  assert (Hfour : hs * hs = 4 * (half * half)) by (subst hs; lia).
  exists (ImageHash.format_0x (hs * hs / 4)
            (ImageHash.bits_value (ImageHash.flatten (ImageHash.diff m)))).
  assert (Hdhash :
            ImageHash.dhash hs m
            = Py.Return
                (ImageHash.format_0x (hs * hs / 4)
                   (ImageHash.bits_value
                      (ImageHash.flatten (ImageHash.diff m))))).
  { unfold ImageHash.dhash. now rewrite (int_base2_binary Hne). }
  split; [unfold ImageHash._image_hash; now rewrite Hread|].
  split; [exact Hdhash|].
  split; [|split; [apply hex_value_format_0x|split; [exact Hlen|]]].
  - rewrite format_0x_length. apply Nat.max_l.
    apply format_x_length; [rewrite Hquarter; nia|].
    pose proof (bits_value_bound (ImageHash.flatten (ImageHash.diff m)))
      as Hb.
    unfold ImageHash.flatten in Hb at 2. rewrite Hlen, Hfour in Hb.
    rewrite Hquarter.
    replace (16 ^ N.of_nat (half * half))%N
      with (2 ^ (4 * N.of_nat (half * half)))%N
      by (rewrite N.pow_mul_r; reflexivity).
    now rewrite Nat2N.inj_mul in Hb.
  - intros i j Hi Hj. unfold ImageHash.flatten.
    rewrite (concat_nth_uniform false Hcols) by lia.
    unfold ImageHash.diff.
    change (@nil bool) with (ImageHash.row_diff []).
    rewrite map_nth. apply row_diff_nth.
    destruct Hshape as [Hr Hc]. rewrite Forall_forall in Hc.
    rewrite (Hc (nth i m [])); [lia|]. apply nth_In. lia.
Qed.

Lemma image_hash_even_size_witness :
  Nat.even 24 = true
  /\ 0 < 24
  /\ ImageHash.has_shape 24 (24 + 1) Example.ramp24
  /\ exists h,
       ImageHash._image_hash (fun _ _ => Py.Return Example.ramp24)
         "/data/a.png" ImageHash.default_hash_size = Py.Return h
       /\ String.length h = 144.
Proof.
  assert (Hshape : ImageHash.has_shape 24 (24 + 1) Example.ramp24).
  { split; [reflexivity|]. unfold Example.ramp24.
    apply Forall_forall. intros r Hr. apply repeat_spec in Hr.
    now subst r. }
  split; [reflexivity|]. split; [lia|]. split; [exact Hshape|].
  destruct (@image_hash_even_size (fun _ _ => Py.Return Example.ramp24)
              "/data/a.png" 24 Example.ramp24
              eq_refl (Nat.lt_0_succ 23) eq_refl Hshape)
    as (h & Hh & _ & Hlen & _).
  exists h. split; [exact Hh|exact Hlen].
Defined.

(** C5 as stated fails for an odd size: with [hash_size = 3] the width is
    [9 // 4 = 2], yet a matrix whose rows all increase hashes to the three
    digits ["1ff"], while a constant matrix hashes to ["00"]: the length
    is neither [hash_size * hash_size / 4] nor fixed. *)
Lemma image_hash_odd_size_counterexample :
  ImageHash.has_shape 3 (3 + 1) Example.ramp3
  /\ ImageHash.has_shape 3 (3 + 1) Example.flat3
  /\ ImageHash.dhash 3 Example.ramp3 = Py.Return "1ff"
  /\ ImageHash.dhash 3 Example.flat3 = Py.Return "00"
  /\ String.length "1ff" <> 3 * 3 / 4
  /\ ~ (forall resized h,
          ImageHash.has_shape 3 (3 + 1) resized ->
          ImageHash.dhash 3 resized = Py.Return h ->
          String.length h = 3 * 3 / 4).
Proof.
  assert (Hramp : ImageHash.has_shape 3 (3 + 1) Example.ramp3).
  { split; [reflexivity|]. repeat constructor. }
  assert (Hflat : ImageHash.has_shape 3 (3 + 1) Example.flat3).
  { split; [reflexivity|]. repeat constructor. }
  split; [exact Hramp|]. split; [exact Hflat|].
  split; [reflexivity|]. split; [reflexivity|]. split.
  - intros Heq. vm_compute in Heq. discriminate.
  - intros Hall.
    specialize (Hall Example.ramp3 "1ff" Hramp eq_refl).
    vm_compute in Hall. discriminate.
Qed.

(** ** Uniqueness scores *)

Section UniquenessFacts.

Import Py Uniqueness.

Local Open Scope Q_scope.

Lemma Qle_bool_false x y : Qle_bool x y = false -> y < x.
Proof.
  intros Hf. apply Qnot_le_lt. intros Hle.
  apply Qle_bool_iff in Hle. congruence.
Qed.

Lemma insert_In x a l : In x (insert a l) <-> a = x \/ In x l.
Proof.
  induction l as [|y l IH]; simpl; [tauto|].
  destruct (Qle_bool a y); simpl; [tauto|]. rewrite IH. tauto.
Qed.

Lemma sort_In x l : In x (sort l) <-> In x l.
Proof.
  induction l as [|a l IH]; simpl; [tauto|].
  rewrite insert_In, IH. intuition.
Qed.

Lemma insert_length a l : List.length (insert a l) = S (List.length l).
Proof.
  induction l as [|y l IH]; simpl; [reflexivity|].
  destruct (Qle_bool a y); simpl; [reflexivity|now rewrite IH].
Qed.

Lemma sort_length l : List.length (sort l) = List.length l.
Proof.
  induction l as [|a l IH]; simpl; [reflexivity|].
  now rewrite insert_length, IH.
Qed.

End UniquenessFacts.

Section UniquenessScores.

Import Py Uniqueness.

Local Open Scope Q_scope.

Variable E : Type.
Variable metric : E -> E -> Q.

Lemma In_tl {A} (y : A) l : In y (tl l) -> In y l.
Proof. destruct l; simpl; auto. Qed.

Lemma In_firstn {A} (y : A) n : forall l, In y (firstn n l) -> In y l.
Proof.
  induction n as [|n IH]; intros [|a l]; simpl; try tauto.
  intros [->|Hy]; auto.
Qed.

Lemma fold_max_spec rest :
  forall x,
    let m := fold_left (fun m y => if Qle_bool m y then y else m) rest x in
    In m (x :: rest) /\ forall y, In y (x :: rest) -> y <= m.
Proof.
  induction rest as [|a rest IH]; intros x; simpl.
  - split; [now left|]. intros y [<-|[]]. lra.
  - destruct (Qle_bool x a) eqn:Hxa.
    + apply Qle_bool_iff in Hxa.
      destruct (IH a) as [Hin Hmax]. simpl in Hin, Hmax. split; [tauto|].
      intros y [<-|Hy]; [|now apply Hmax].
      specialize (Hmax a (or_introl eq_refl)). lra.
    + apply Qle_bool_false in Hxa.
      destruct (IH x) as [Hin Hmax]. simpl in Hin, Hmax. split; [tauto|].
      intros y [<-|[<-|Hy]]; auto.
      specialize (Hmax x (or_introl eq_refl)). lra.
Qed.

(** [max()] returns an element that bounds all elements. *)
Lemma max_of_spec l m :
  max_of l = Return m -> In m l /\ forall y, In y l -> y <= m.
Proof.
  destruct l as [|x rest]; simpl; [discriminate|].
  intros Hm. injection Hm as <-. apply fold_max_spec.
Qed.

(** The steps of [_compute_uniqueness] on at least [K + 1] samples. *)
Lemma compute_uniqueness_steps embeddings :
  (4 <= List.length embeddings)%nat ->
  exists m,
    max_of
      (map
         (fun x =>
            mean
              (times
                 (tl (firstn (K + 1) (sort (map (metric x) embeddings))))
                 weights))
         embeddings)
    = Return m
    /\ _compute_uniqueness metric embeddings
       = Return
           (map
              (fun x =>
                 np_divide
                   (mean
                      (times
                         (tl (firstn (K + 1)
                                (sort (map (metric x) embeddings))))
                         weights))
                   m)
              embeddings).
Proof.
  intros Hlen. unfold _compute_uniqueness, kneighbors.
  assert (Hk : (List.length embeddings <? K + 1)%nat = false).
  { apply Nat.ltb_ge. simpl. lia. }
  rewrite Hk. cbn [bind]. rewrite map_map.
  destruct embeddings as [|x0 rest]; [simpl in Hlen; lia|].
  cbn [map max_of bind]. eexists. split; [reflexivity|].
  now rewrite map_map.
Qed.

End UniquenessScores.

(** ** Rounding in binary64 *)

Section Float64Facts.

Import SpecFloat Float64.

Local Open Scope Z_scope.

Lemma iter_pos_nat {A} (f : A -> A) p :
  forall x, iter_pos f p x = Nat.iter (Pos.to_nat p) f x.
Proof.
  induction p as [p IH|p IH|]; intros x; cbn [iter_pos].
  - rewrite !IH, Pos2Nat.inj_xI.
    replace (S (2 * Pos.to_nat p))%nat
      with (Pos.to_nat p + (Pos.to_nat p + 1))%nat by lia.
    rewrite !Nat.iter_add. reflexivity.
  - rewrite !IH, Pos2Nat.inj_xO.
    replace (2 * Pos.to_nat p)%nat
      with (Pos.to_nat p + Pos.to_nat p)%nat by lia.
    rewrite Nat.iter_add. reflexivity.
  - reflexivity.
Qed.

Lemma shr_1_spec mrs :
  0 <= shr_m mrs ->
  shr_m (shr_1 mrs) = shr_m mrs / 2
  /\ inexact (shr_1 mrs) = Z.odd (shr_m mrs) || inexact mrs.
Proof.
  destruct mrs as [m r s]. unfold inexact. cbn [shr_m shr_r shr_s].
  intros Hm. destruct m as [|p|p]; [| |lia].
  - cbn. split; [reflexivity|]. reflexivity.
  - destruct p as [p|p|]; cbn [shr_1 shr_m shr_r shr_s].
    + split; [|reflexivity].
      rewrite Pos2Z.inj_xI. apply Z.div_unique with (r := 1); lia.
    + split; [|reflexivity].
      rewrite Pos2Z.inj_xO. apply Z.div_unique with (r := 0); lia.
    + split; reflexivity.
Qed.

Lemma loc_of_shr_record_exact mrs :
  loc_of_shr_record mrs = loc_Exact <-> inexact mrs = false.
Proof.
  destruct mrs as [m [|] [|]]; unfold inexact; cbn; split;
    intros H; congruence.
Qed.

Lemma shr_record_of_loc_m m l : shr_m (shr_record_of_loc m l) = m.
Proof. destruct l as [|[| |]]; reflexivity. Qed.

Lemma shr_record_of_loc_inexact m l :
  inexact (shr_record_of_loc m l) = true -> l <> loc_Exact.
Proof. destruct l as [|[| |]]; cbn; congruence. Qed.

(** Shifting a non-negative mantissa keeps it non-negative. *)
Lemma iter_shr_1_nonneg k :
  forall mrs, 0 <= shr_m mrs -> 0 <= shr_m (Nat.iter k shr_1 mrs).
Proof.
  induction k as [|k IH]; intros mrs Hm; [exact Hm|].
  change (Nat.iter (S k) shr_1 mrs) with (shr_1 (Nat.iter k shr_1 mrs)).
  destruct (@shr_1_spec (Nat.iter k shr_1 mrs)) as [Hq _].
  { now apply IH. }
  rewrite Hq. apply Z.div_pos; [now apply IH|lia].
Qed.

(** Shifting by [k] places a mantissa that is at most [2 ^ N] leaves one
    that is at most [2 ^ (N - k)], strictly below when a bit was lost. *)
Lemma iter_shr_1_bound k :
  forall mrs N,
    0 <= shr_m mrs ->
    Z.of_nat k <= N ->
    shr_m mrs <= 2 ^ N ->
    (inexact mrs = true -> shr_m mrs < 2 ^ N) ->
    shr_m (Nat.iter k shr_1 mrs) <= 2 ^ (N - Z.of_nat k)
    /\ (inexact (Nat.iter k shr_1 mrs) = true ->
        shr_m (Nat.iter k shr_1 mrs) < 2 ^ (N - Z.of_nat k)).
Proof.
  induction k as [|k IH]; intros mrs N Hm Hk Hle Hlt.
  - change (Nat.iter 0 shr_1 mrs) with mrs.
    cbn [Z.of_nat]. rewrite Z.sub_0_r. split; assumption.
  - change (Nat.iter (S k) shr_1 mrs) with (shr_1 (Nat.iter k shr_1 mrs)).
    destruct (IH mrs N Hm ltac:(lia) Hle Hlt) as [Hle' Hlt'].
    pose proof (@iter_shr_1_nonneg k mrs Hm) as Hnn.
    set (cur := Nat.iter k shr_1 mrs) in *.
    destruct (@shr_1_spec cur Hnn) as [Hq Hi]. rewrite Hq, Hi.
    replace (N - Z.of_nat k) with (Z.succ (N - Z.of_nat (S k))) in Hle', Hlt'
      by lia.
    rewrite Z.pow_succ_r in Hle', Hlt' by lia.
    set (P := 2 ^ (N - Z.of_nat (S k))) in *.
    pose proof (Z.div_mod (shr_m cur) 2 ltac:(lia)) as Hdm.
    pose proof (Z.mod_pos_bound (shr_m cur) 2 ltac:(lia)) as Hmod.
    split; [lia|].
    intros Hor. apply orb_true_iff in Hor. destruct Hor as [Hodd|Hin].
    + apply Z.odd_spec in Hodd. destruct Hodd as [h Hh]. lia.
    + specialize (Hlt' Hin). lia.
Qed.


(** What [shr] does: [n] shifts when [n] is positive, none otherwise. *)
Lemma shr_spec mrs e n :
  shr mrs e n = (Nat.iter (Z.to_nat n) shr_1 mrs, e + Z.max 0 n).
Proof.
  unfold shr. destruct n as [|p|p].
  - cbn. now rewrite Z.add_0_r.
  - rewrite iter_pos_nat. reflexivity.
  - cbn. now rewrite Z.add_0_r.
Qed.

Lemma fexp_eq k : fexp prec emax k = Z.max (k - 53) (-1074).
Proof. reflexivity. Qed.

Lemma Zdigits2_nonneg m : 0 <= Zdigits2 m.
Proof. destruct m; cbn; lia. Qed.

(** A mantissa of at most [2 ^ N] has at most [N + 1] digits. *)
Lemma Zdigits2_bound m N :
  0 <= m -> 0 <= N -> m <= 2 ^ N -> Zdigits2 m <= N + 1.
Proof.
  intros Hm HN Hle. destruct m as [|p|p]; [cbn; lia| |lia].
  cbn [Zdigits2].
  assert (Hsize : digits2_pos p = Pos.size p).
  { clear. induction p as [p IH|p IH|]; cbn; congruence. }
  rewrite Hsize. pose proof (Pos.size_le p) as Hs.
  apply Pos2Z.pos_le_pos in Hs.
  rewrite Pos2Z.inj_pow in Hs. change (Z.pos p~0) with (2 * Z.pos p) in Hs.
  apply (Z.pow_le_mono_r_iff 2); [lia|lia|].
  rewrite Z.pow_add_r by lia. change (2 ^ 1) with 2. lia.
Qed.

Lemma shr_fexp_spec m e l :
  shr_fexp prec emax m e l
  = (Nat.iter (Z.to_nat (fexp prec emax (Zdigits2 m + e) - e)) shr_1
       (shr_record_of_loc m l),
     e + Z.max 0 (fexp prec emax (Zdigits2 m + e) - e)).
Proof. unfold shr_fexp. apply shr_spec. Qed.

(** After the shift to the exponent of the format the exponent is at
    least [emin]. *)
Lemma shr_fexp_shape m e l mrs e' :
  0 <= m ->
  shr_fexp prec emax m e l = (mrs, e') ->
  0 <= shr_m mrs /\ -1074 <= e'.
Proof.
  intros Hm. rewrite shr_fexp_spec. intros Heq. injection Heq as <- <-.
  split.
  - apply iter_shr_1_nonneg. now rewrite shr_record_of_loc_m.
  - rewrite fexp_eq. lia.
Qed.

(** A mantissa and exponent denoting at most 1 still denote at most 1
    after the shift, strictly less when a bit was lost. *)
Lemma shr_fexp_le_one m e l mrs e' :
  0 <= m -> e <= 0 ->
  m <= 2 ^ (- e) ->
  (l <> loc_Exact -> m < 2 ^ (- e)) ->
  shr_fexp prec emax m e l = (mrs, e') ->
  e' <= 0
  /\ shr_m mrs <= 2 ^ (- e')
  /\ (inexact mrs = true -> shr_m mrs < 2 ^ (- e')).
Proof.
  intros Hm He Hle Hlt. rewrite shr_fexp_spec. intros Heq.
  injection Heq as <- <-.
  pose proof (@Zdigits2_bound m (- e) Hm ltac:(lia) Hle) as Hd.
  pose proof (Zdigits2_nonneg m) as Hd0.
  rewrite fexp_eq. set (n := Z.max (Zdigits2 m + e - 53) (-1074) - e).
  assert (Hn : e + Z.max 0 n <= 0) by (unfold n; lia).
  split; [exact Hn|].
  pose proof (@iter_shr_1_bound (Z.to_nat n) (shr_record_of_loc m l) (- e))
    as Hb.
  rewrite shr_record_of_loc_m in Hb.
  specialize (Hb Hm ltac:(lia) Hle
                 (fun Hi => Hlt (@shr_record_of_loc_inexact m l Hi))).
  replace (- e - Z.of_nat (Z.to_nat n)) with (- (e + Z.max 0 n)) in Hb
    by lia.
  exact Hb.
Qed.

Lemma round_nearest_even_bounds m l :
  m <= round_nearest_even m l <= m + 1
  /\ (l = loc_Exact -> round_nearest_even m l = m).
Proof.
  destruct l as [|[| |]]; cbn [round_nearest_even];
    try destruct (Z.even m); split; try lia; try reflexivity;
    intros; congruence.
Qed.

(** Rounding a non-negative mantissa gives a zero, a finite number whose
    exponent is at least [emin], or an infinity, with the sign asked
    for. *)
Lemma binary_round_aux_shape sx mx ex lx :
  0 <= mx ->
  match binary_round_aux prec emax sx mx ex lx with
  | S754_zero s => s = sx
  | S754_infinity s => s = sx
  | S754_finite s m e => s = sx /\ -1074 <= e
  | S754_nan => False
  end.
Proof.
  intros Hm. unfold binary_round_aux.
  destruct (shr_fexp prec emax mx ex lx) as [mrs1 e1] eqn:H1.
  destruct (@shr_fexp_shape mx ex lx mrs1 e1 Hm H1) as [Hm1 _].
  pose proof (round_nearest_even_bounds (shr_m mrs1)
                (loc_of_shr_record mrs1)) as [Hr _].
  destruct (shr_fexp prec emax
              (round_nearest_even (shr_m mrs1) (loc_of_shr_record mrs1))
              e1 loc_Exact) as [mrs2 e2] eqn:H2.
  assert (Hr0 : 0 <= round_nearest_even (shr_m mrs1)
                       (loc_of_shr_record mrs1)) by lia.
  destruct (@shr_fexp_shape _ _ _ _ _ Hr0 H2) as [Hm2 He2].
  destruct (shr_m mrs2) as [|p|p]; [reflexivity| |lia].
  destruct (e2 <=? emax - prec); [split; [reflexivity|exact He2]|reflexivity].
Qed.

(** Rounding what denotes at most 1 gives at most 1. *)
Lemma binary_round_aux_le_one sx mx ex lx :
  0 <= mx -> ex <= 0 ->
  mx <= 2 ^ (- ex) ->
  (lx <> loc_Exact -> mx < 2 ^ (- ex)) ->
  match binary_round_aux prec emax sx mx ex lx with
  | S754_zero _ => True
  | S754_finite _ m e => e <= 0 /\ Z.pos m <= 2 ^ (- e)
  | _ => False
  end.
Proof.
  intros Hm He Hle Hlt. unfold binary_round_aux.
  destruct (shr_fexp prec emax mx ex lx) as [mrs1 e1] eqn:H1.
  destruct (@shr_fexp_shape mx ex lx mrs1 e1 Hm H1) as [Hm1 _].
  destruct (@shr_fexp_le_one mx ex lx mrs1 e1 Hm He Hle Hlt H1)
    as (He1 & Hle1 & Hlt1).
  pose proof (round_nearest_even_bounds (shr_m mrs1)
                (loc_of_shr_record mrs1)) as [Hr Hex].
  set (m2 := round_nearest_even (shr_m mrs1) (loc_of_shr_record mrs1)) in *.
  assert (Hle2 : m2 <= 2 ^ (- e1)).
  { destruct (inexact mrs1) eqn:Hi.
    - specialize (Hlt1 eq_refl). lia.
    - apply loc_of_shr_record_exact in Hi. rewrite (Hex Hi). exact Hle1. }
  destruct (shr_fexp prec emax m2 e1 loc_Exact) as [mrs2 e2] eqn:H2.
  assert (Hr0 : 0 <= m2) by lia.
  destruct (@shr_fexp_shape _ _ _ _ _ Hr0 H2) as [Hm2 _].
  destruct (@shr_fexp_le_one m2 e1 loc_Exact mrs2 e2 Hr0 He1 Hle2
              ltac:(congruence) H2) as (He2 & Hle3 & _).
  destruct (shr_m mrs2) as [|p|p]; [exact I| |lia].
  assert (Hb : (e2 <=? emax - prec) = true)
    by (apply Z.leb_le; unfold emax, prec; lia).
  rewrite Hb. split; assumption.
Qed.

Lemma new_location_exact nb k : new_location nb k <> loc_Exact -> k <> 0.
Proof.
  intros Hl Hk. apply Hl. subst k. unfold new_location.
  destruct (Z.even nb); reflexivity.
Qed.

(** The integer division at the heart of [SFdiv]. *)
Lemma div_core_spec mx ex my ey :
  exists q e' l r,
    SFdiv_core_binary prec emax (Z.pos mx) ex (Z.pos my) ey = (q, e', l)
    /\ e' = Z.min (fexp prec emax
                     (Zdigits2 (Z.pos mx) + ex - (Zdigits2 (Z.pos my) + ey)))
                  (ex - ey)
    /\ Z.pos mx * 2 ^ (ex - ey - e') = Z.pos my * q + r
    /\ 0 <= r < Z.pos my
    /\ (l <> loc_Exact -> r <> 0).
Proof.
  unfold SFdiv_core_binary.
  set (e' := Z.min _ _). set (s := ex - ey - e').
  assert (Hs : 0 <= s) by (unfold s, e'; lia).
  set (m' := match s with
             | 0 => Z.pos mx
             | Z.pos _ => Z.shiftl (Z.pos mx) s
             | Z.neg _ => 0
             end).
  assert (Hm' : m' = Z.pos mx * 2 ^ s).
  { unfold m'. destruct s as [|p|p]; [cbn; lia| |lia].
    apply Z.shiftl_mul_pow2. lia. }
  pose proof (Z_div_mod m' (Z.pos my) ltac:(lia)) as Hdm.
  destruct (Z.div_eucl m' (Z.pos my)) as [q r].
  exists q, e', (new_location (Z.pos my) r), r.
  split; [reflexivity|]. split; [reflexivity|].
  destruct Hdm as [Heq Hr].
  split; [unfold s in Hm'; rewrite <- Hm'; exact Heq|].
  split; [exact Hr|]. apply new_location_exact.
Qed.

Lemma pow2_shift a b A B s t :
  0 <= A -> 0 <= B -> 0 <= s -> 0 <= t ->
  A - B = s - t ->
  a * 2 ^ A <= b * 2 ^ B -> a * 2 ^ s <= b * 2 ^ t.
Proof.
  intros HA HB Hs Ht Heq H.
  destruct (Z.le_ge_cases A s) as [Hle|Hge].
  - replace s with (A + (s - A)) by lia. replace t with (B + (s - A)) by lia.
    rewrite !Z.pow_add_r by lia.
    rewrite !Z.mul_assoc. apply Z.mul_le_mono_nonneg_r; [|exact H].
    apply Z.pow_nonneg. lia.
  - replace A with (s + (A - s)) in H by lia.
    replace B with (t + (A - s)) in H by lia.
    rewrite !Z.pow_add_r in H by lia. rewrite !Z.mul_assoc in H.
    apply Z.mul_le_mono_pos_r in H; [exact H|].
    apply Z.pow_pos_nonneg; lia.
Qed.

Lemma digits2_pos_bounds p :
  2 ^ Z.pos (digits2_pos p) <= 2 * Z.pos p
  /\ Z.pos p < 2 ^ Z.pos (digits2_pos p).
Proof.
  assert (Hsize : digits2_pos p = Pos.size p).
  { clear. induction p as [p IH|p IH|]; cbn; congruence. }
  rewrite Hsize. pose proof (Pos.size_le p) as Hle.
  pose proof (Pos.size_gt p) as Hgt.
  apply Pos2Z.pos_le_pos in Hle. apply Pos2Z.pos_lt_pos in Hgt.
  rewrite Pos2Z.inj_pow in Hle, Hgt.
  change (Z.pos p~0) with (2 * Z.pos p) in Hle. split; assumption.
Qed.

(** The quotient of a smaller by a larger positive number is at most 1. *)
Lemma div_le_one mx ex my ey :
  -1074 <= ex -> -1074 <= ey ->
  Z.pos mx * 2 ^ (ex + 1074) <= Z.pos my * 2 ^ (ey + 1074) ->
  match div (S754_finite false mx ex) (S754_finite false my ey) with
  | S754_zero s => s = false
  | S754_finite s m e => s = false /\ -1074 <= e <= 0 /\ Z.pos m <= 2 ^ (- e)
  | _ => False
  end.
Proof.
  intros Hex Hey H. unfold div, SFdiv.
  destruct (div_core_spec mx ex my ey)
    as (q & e' & l & r & Hcore & He' & Hdiv & Hr & Hl).
  rewrite Hcore. cbn [xorb].
  destruct (digits2_pos_bounds mx) as [Hdx _].
  destruct (digits2_pos_bounds my) as [_ Hdy].
  cbn [Zdigits2] in He'.
  set (d1 := Z.pos (digits2_pos mx)) in *.
  set (d2 := Z.pos (digits2_pos my)) in *.
  assert (Hd1 : 0 < d1) by (unfold d1; lia).
  assert (Hd2 : 0 < d2) by (unfold d2; lia).
  assert (Hd : d1 + ex <= d2 + ey).
  { assert (Hlt : 2 ^ (d1 + ex + 1074) < 2 ^ (d2 + ey + 1074 + 1)).
    { replace (d1 + ex + 1074) with (d1 + (ex + 1074)) by lia.
      replace (d2 + ey + 1074 + 1) with (d2 + (ey + 1074) + 1) by lia.
      rewrite (Z.pow_add_r 2 d1 (ex + 1074)) by lia.
      rewrite (Z.pow_add_r 2 (d2 + (ey + 1074)) 1) by lia.
      rewrite (Z.pow_add_r 2 d2 (ey + 1074)) by lia.
      change (2 ^ 1) with 2.
      assert (HP : 0 < 2 ^ (ex + 1074)) by (apply Z.pow_pos_nonneg; lia).
      assert (HQ : 0 < 2 ^ (ey + 1074)) by (apply Z.pow_pos_nonneg; lia).
      assert (H1 : 2 ^ d1 * 2 ^ (ex + 1074)
                   <= 2 * Z.pos mx * 2 ^ (ex + 1074))
        by (apply Z.mul_le_mono_nonneg_r; lia).
      assert (H2 : Z.pos my * 2 ^ (ey + 1074)
                   < 2 ^ d2 * 2 ^ (ey + 1074))
        by (apply Z.mul_lt_mono_pos_r; lia).
      lia. }
    apply Z.pow_lt_mono_r_iff in Hlt; lia. }
  rewrite fexp_eq in He'.
  assert (He0 : e' <= -53) by lia.
  assert (Hq0 : 0 <= q).
  { assert (0 <= Z.pos mx * 2 ^ (ex - ey - e')).
    { apply Z.mul_nonneg_nonneg; [lia|]. apply Z.pow_nonneg. lia. }
    nia. }
  assert (Hpow : Z.pos mx * 2 ^ (ex - ey - e') <= Z.pos my * 2 ^ (- e')).
  { apply pow2_shift with (A := ex + 1074) (B := ey + 1074); lia. }
  assert (Hle : q <= 2 ^ (- e')) by nia.
  assert (Hlt : l <> loc_Exact -> q < 2 ^ (- e')).
  { intros Hne. specialize (Hl Hne). nia. }
  pose proof (@binary_round_aux_shape false q e' l Hq0) as Hshape.
  pose proof (@binary_round_aux_le_one false q e' l Hq0 ltac:(lia) Hle Hlt)
    as Hone.
  destruct (binary_round_aux prec emax false q e' l) as [s|s| |s m e];
    try contradiction.
  - exact Hshape.
  - destruct Hshape as [-> He]. destruct Hone as [He1 Hm]. repeat split; lia.
Qed.

(** A positive number divided by itself is exactly 1. *)
Lemma div_self m e :
  div (S754_finite false m e) (S754_finite false m e) = one.
Proof.
  unfold div, SFdiv.
  destruct (div_core_spec m e m e)
    as (q & e' & l & r & Hcore & He' & Hdiv & Hr & Hl).
  rewrite Hcore. cbn [xorb].
  replace (Zdigits2 (Z.pos m) + e - (Zdigits2 (Z.pos m) + e)) with 0 in He'
    by lia.
  replace (e - e) with 0 in He', Hdiv by lia.
  change (Z.min (fexp prec emax 0) 0) with (-53) in He'. subst e'.
  change (0 - -53) with 53 in Hdiv.
  assert (Hq : q = 2 ^ 53) by nia.
  assert (Hr0 : r = 0) by nia.
  assert (Hexact : l = loc_Exact).
  { destruct l as [|c]; [reflexivity|].
    exfalso. apply Hl; [discriminate|exact Hr0]. }
  subst q l. vm_compute. reflexivity.
Qed.

Lemma mul_nonneg x mw ew :
  nonneg x -> nonneg (mul x (S754_finite false mw ew)).
Proof.
  destruct x as [s|s| |s m e]; cbn [nonneg]; try contradiction.
  - intros ->. reflexivity.
  - intros ->. reflexivity.
  - intros [-> _]. unfold mul, SFmul. cbn [xorb].
    pose proof (@binary_round_aux_shape false (Z.pos (m * mw)) (e + ew)
                  loc_Exact ltac:(lia)) as Hshape.
    destruct (binary_round_aux prec emax false (Z.pos (m * mw)) (e + ew)
                loc_Exact); cbn [nonneg]; exact Hshape.
Qed.

Lemma add_nonneg x y : nonneg x -> nonneg y -> nonneg (add x y).
Proof.
  destruct x as [[|]|[|]| |[|] mx ex]; cbn [nonneg];
    try contradiction; try discriminate; try (intros [? _]; discriminate);
    destruct y as [[|]|[|]| |[|] my ey]; cbn [nonneg];
    try contradiction; try discriminate;
    try (intros _ [? _]; discriminate);
    intros Hx Hy; cbn [add SFadd nonneg]; try reflexivity; try assumption.
  unfold add, SFadd. cbn [cond_Zopp Z.add]. unfold binary_normalize.
  unfold binary_round.
  destruct (shl_align _ _ _) as [mz ez].
  pose proof (@binary_round_aux_shape false (Z.pos mz) ez loc_Exact
                ltac:(lia)) as Hshape.
  destruct (binary_round_aux prec emax false (Z.pos mz) ez loc_Exact);
    cbn [nonneg]; exact Hshape.
Qed.

Lemma div_nonneg x my ey :
  nonneg x -> nonneg (div x (S754_finite false my ey)).
Proof.
  destruct x as [s|s| |s m e]; cbn [nonneg]; try contradiction.
  - intros ->. reflexivity.
  - intros ->. reflexivity.
  - intros [-> _]. unfold div, SFdiv.
    destruct (div_core_spec m e my ey)
      as (q & e' & l & r & Hcore & _ & Hdiv & Hr & _).
    rewrite Hcore. cbn [xorb].
    assert (Hq0 : 0 <= q).
    { assert (0 <= Z.pos m * 2 ^ (e - ey - e')).
      { apply Z.mul_nonneg_nonneg; [lia|]. apply Z.pow_nonneg. lia. }
      nia. }
    pose proof (@binary_round_aux_shape false q e' l Hq0) as Hshape.
    destruct (binary_round_aux prec emax false q e' l);
      cbn [nonneg]; exact Hshape.
Qed.

(** Zero is below every non-negative number, and only zero is below
    zero. *)
Lemma leb_zero_nonneg x : nonneg x -> leb zero x = true.
Proof.
  destruct x as [s|s| |s m e]; cbn [nonneg]; try contradiction.
  - intros ->. reflexivity.
  - intros ->. reflexivity.
  - intros [-> He]. unfold leb, zero, scaled. cbn [cond_Zopp].
    apply Z.leb_le. apply Z.mul_nonneg_nonneg; [lia|].
    apply Z.pow_nonneg. lia.
Qed.

Lemma leb_nonneg_zero x : nonneg x -> leb x zero = true -> x = zero.
Proof.
  destruct x as [s|s| |s m e]; cbn [nonneg]; try contradiction.
  - intros -> _. reflexivity.
  - intros ->. discriminate.
  - intros [-> He]. unfold leb, zero, scaled. cbn [cond_Zopp].
    intros Hle. apply Z.leb_le in Hle. exfalso.
    assert (0 < 2 ^ (e - emin)).
    { apply Z.pow_pos_nonneg; [lia|]. unfold emin in *. lia. }
    nia.
Qed.

(** [y <= a] and [a < b] leave no room for [b < y]. *)
Lemma ltb_trans_not a b y :
  nonneg a -> nonneg b -> nonneg y ->
  ltb a b = true -> ltb a y = false -> ltb b y = false.
Proof.
  destruct a as [[|]|[|]| |[|] ma ea]; cbn [nonneg];
    try contradiction; try discriminate; try (intros [? _]; discriminate);
    destruct b as [[|]|[|]| |[|] mb eb]; cbn [nonneg];
    try contradiction; try discriminate;
    try (intros _ [? _]; discriminate);
    destruct y as [[|]|[|]| |[|] my ey]; cbn [nonneg];
    try contradiction; try discriminate;
    try (intros _ _ [? _]; discriminate);
    intros _ _ _;
    unfold ltb, scaled; cbn [cond_Zopp negb andb];
    rewrite ?Z.ltb_lt, ?Z.ltb_ge; try congruence; try lia.
Qed.

Lemma ltb_irrefl x : ltb x x = false.
Proof.
  destruct x as [[|]|[|]| |s m e]; try reflexivity.
  unfold ltb. apply Z.ltb_irrefl.
Qed.
End Float64Facts.

Section Float64Order.

Import SpecFloat Float64.

Local Open Scope Z_scope.

(** [x < a] and [a <= m] leave no room for [m < x]. *)
Lemma ltb_below x a m :
  nonneg x -> nonneg a -> nonneg m ->
  ltb x a = true -> ltb m a = false -> ltb m x = false.
Proof.
  destruct x as [[|]|[|]| |[|] mx ex]; cbn [nonneg];
    try contradiction; try discriminate; try (intros [? _]; discriminate);
    destruct a as [[|]|[|]| |[|] ma ea]; cbn [nonneg];
    try contradiction; try discriminate;
    try (intros _ [? _]; discriminate);
    destruct m as [[|]|[|]| |[|] mm em]; cbn [nonneg];
    try contradiction; try discriminate;
    try (intros _ _ [? _]; discriminate);
    intros _ _ _;
    unfold ltb, scaled; cbn [cond_Zopp negb andb];
    rewrite ?Z.ltb_lt, ?Z.ltb_ge; try congruence; try lia.
Qed.

(** [a <= x] and [x <= m] give [a <= m]. *)
Lemma ltb_false_trans m x a :
  nonneg x -> nonneg a -> nonneg m ->
  ltb m x = false -> ltb x a = false -> ltb m a = false.
Proof.
  destruct x as [[|]|[|]| |[|] mx ex]; cbn [nonneg];
    try contradiction; try discriminate; try (intros [? _]; discriminate);
    destruct a as [[|]|[|]| |[|] ma ea]; cbn [nonneg];
    try contradiction; try discriminate;
    try (intros _ [? _]; discriminate);
    destruct m as [[|]|[|]| |[|] mm em]; cbn [nonneg];
    try contradiction; try discriminate;
    try (intros _ _ [? _]; discriminate);
    intros _ _ _;
    unfold ltb, scaled; cbn [cond_Zopp negb andb];
    rewrite ?Z.ltb_lt, ?Z.ltb_ge; try congruence; try lia.
Qed.

Lemma nonneg_not_nan x : nonneg x -> is_nan x = false.
Proof. destruct x; cbn; intros H; try reflexivity. contradiction. Qed.

(** What is not above a positive finite number is zero or a positive
    finite number that denotes at most as much. *)
Lemma not_above_finite y mm em :
  nonneg y ->
  ltb (S754_finite false mm em) y = false ->
  y = zero
  \/ exists my ey,
       y = S754_finite false my ey
       /\ -1074 <= ey
       /\ Z.pos my * 2 ^ (ey + 1074) <= Z.pos mm * 2 ^ (em + 1074).
Proof.
  destruct y as [[|]|[|]| |[|] my ey]; cbn [nonneg];
    try contradiction; try discriminate; try (intros [? _]; discriminate).
  - intros _ _. now left.
  - intros [_ Hey]. unfold ltb, scaled, emin in *. cbn [cond_Zopp].
    rewrite Z.ltb_ge. intros Hle. right. exists my, ey.
    split; [reflexivity|]. split; [exact Hey|].
    replace (ey + 1074) with (ey - -1074) by lia.
    replace (em + 1074) with (em - -1074) by lia. exact Hle.
Qed.

(** A test for [nonneg] that computes. *)
Lemma nonneg_decide x :
  match x with
  | S754_zero s | S754_infinity s => s = false
  | S754_finite s _ e => s = false /\ (emin <=? e)%Z = true
  | S754_nan => False
  end ->
  nonneg x.
Proof.
  destruct x as [s|s| |s m e]; cbn [nonneg]; auto.
  intros [Hs He]. split; [exact Hs|]. now apply Z.leb_le.
Qed.

End Float64Order.

(** ** The comparison and the specification of the format *)

Section Float64Compare.

Import SpecFloat Float64.

Local Open Scope Z_scope.

(** A mantissa and exponent of the format: at most 53 digits, exactly 53
    above the smallest exponent. *)
Lemma bounded_spec m e :
  bounded prec emax m e = true ->
  -1074 <= e
  /\ Z.pos (digits2_pos m) <= 53
  /\ (e = -1074 \/ Z.pos (digits2_pos m) = 53).
Proof.
  unfold bounded, canonical_mantissa. intros H.
  apply andb_true_iff in H. destruct H as [Hc _].
  apply Z.eqb_eq in Hc. rewrite fexp_eq in Hc. lia.
Qed.

(** Among numbers of the format the one with the smaller exponent is the
    smaller number. *)
Lemma scaled_exponent_lt m1 e1 m2 e2 :
  bounded prec emax m1 e1 = true ->
  bounded prec emax m2 e2 = true ->
  e1 < e2 ->
  Z.pos m1 * 2 ^ (e1 - emin) < Z.pos m2 * 2 ^ (e2 - emin).
Proof.
  intros H1 H2 Hlt. unfold emin.
  destruct (@bounded_spec _ _ H1) as (He1 & Hd1 & _).
  destruct (@bounded_spec _ _ H2) as (He2 & _ & [->|Hd2]); [lia|].
  destruct (digits2_pos_bounds m1) as [_ Hm1].
  destruct (digits2_pos_bounds m2) as [Hm2 _]. rewrite Hd2 in Hm2.
  assert (Hm1' : Z.pos m1 < 2 ^ 53).
  { eapply Z.lt_le_trans; [exact Hm1|]. apply Z.pow_le_mono_r; lia. }
  replace (e2 - -1074) with ((e1 - -1074) + (e2 - e1)) by lia.
  rewrite Z.pow_add_r by lia.
  assert (Hp : 0 < 2 ^ (e1 - -1074)) by (apply Z.pow_pos_nonneg; lia).
  assert (Hq : 2 <= 2 ^ (e2 - e1)).
  { change 2 with (2 ^ 1) at 1. apply Z.pow_le_mono_r; lia. }
  change (2 ^ 53) with 9007199254740992 in *.
  set (P := 2 ^ (e1 - -1074)) in *. set (Q := 2 ^ (e2 - e1)) in *.
  assert (Ha : Z.pos m1 * P < 9007199254740992 * P)
    by (apply Z.mul_lt_mono_pos_r; lia).
  assert (Hb : 9007199254740992 * P <= 2 * Z.pos m2 * P)
    by (apply Z.mul_le_mono_nonneg_r; lia).
  assert (Hc : 2 * (Z.pos m2 * P) <= Q * (Z.pos m2 * P)).
  { apply Z.mul_le_mono_nonneg_r; [|exact Hq].
    apply Z.mul_nonneg_nonneg; lia. }
  lia.
Qed.

Lemma scaled_pos m e : -1074 <= e -> 0 < Z.pos m * 2 ^ (e - emin).
Proof.
  intros He. apply Z.mul_pos_pos; [lia|].
  apply Z.pow_pos_nonneg; unfold emin; lia.
Qed.

(** On numbers of the format [ltb] is the comparison of the Standard
    Library's specification. *)
Lemma ltb_SFltb x y :
  valid_binary prec emax x = true ->
  valid_binary prec emax y = true ->
  ltb x y = SFltb x y.
Proof.
  destruct x as [sx|sx| |sx mx ex]; destruct y as [sy|sy| |sy my ey];
    cbn [valid_binary]; intros Hx Hy;
    try reflexivity;
    try (destruct sx; destruct sy; reflexivity);
    try (destruct sx; reflexivity); try (destruct sy; reflexivity).
  - destruct (@bounded_spec _ _ Hy) as (He & _).
    pose proof (@scaled_pos my ey He) as Hp.
    unfold ltb, SFltb, SFcompare, scaled.
    destruct sy; cbn [cond_Zopp].
    + apply Z.ltb_ge. lia.
    + apply Z.ltb_lt. lia.
  - destruct (@bounded_spec _ _ Hx) as (He & _).
    pose proof (@scaled_pos mx ex He) as Hp.
    unfold ltb, SFltb, SFcompare, scaled.
    destruct sx; cbn [cond_Zopp].
    + apply Z.ltb_lt. lia.
    + apply Z.ltb_ge. lia.
  - destruct (@bounded_spec _ _ Hx) as (Hex & _).
    destruct (@bounded_spec _ _ Hy) as (Hey & _).
    pose proof (@scaled_pos mx ex Hex) as Hpx.
    pose proof (@scaled_pos my ey Hey) as Hpy.
    unfold ltb, SFltb, SFcompare, scaled.
    destruct sx, sy; cbn [cond_Zopp].
    + destruct (Z.compare_spec ex ey) as [->|Hlt|Hgt].
      * assert (Hp : 0 < 2 ^ (ey - emin))
          by (apply Z.pow_pos_nonneg; unfold emin; lia).
        change (Pos.compare_cont Eq mx my) with (mx ?= my)%positive.
        destruct (Pos.compare_spec mx my) as [->|Hm|Hm]; cbn [CompOpp].
        -- apply Z.ltb_irrefl.
        -- apply Z.ltb_ge. apply Pos2Z.pos_lt_pos in Hm. nia.
        -- apply Z.ltb_lt. apply Pos2Z.pos_lt_pos in Hm. nia.
      * pose proof (@scaled_exponent_lt mx ex my ey Hx Hy Hlt). apply Z.ltb_ge. lia.
      * pose proof (@scaled_exponent_lt my ey mx ex Hy Hx Hgt). apply Z.ltb_lt. lia.
    + apply Z.ltb_lt. lia.
    + apply Z.ltb_ge. lia.
    + destruct (Z.compare_spec ex ey) as [->|Hlt|Hgt].
      * assert (Hp : 0 < 2 ^ (ey - emin))
          by (apply Z.pow_pos_nonneg; unfold emin; lia).
        change (Pos.compare_cont Eq mx my) with (mx ?= my)%positive.
        destruct (Pos.compare_spec mx my) as [->|Hm|Hm].
        -- apply Z.ltb_irrefl.
        -- apply Z.ltb_lt. apply Pos2Z.pos_lt_pos in Hm. nia.
        -- apply Z.ltb_ge. apply Pos2Z.pos_lt_pos in Hm. nia.
      * pose proof (@scaled_exponent_lt mx ex my ey Hx Hy Hlt). apply Z.ltb_lt. lia.
      * pose proof (@scaled_exponent_lt my ey mx ex Hy Hx Hgt). apply Z.ltb_ge. lia.
Qed.

Lemma leb_SFleb x y :
  valid_binary prec emax x = true ->
  valid_binary prec emax y = true ->
  leb x y = SFleb x y.
Proof.
  destruct x as [sx|sx| |sx mx ex]; destruct y as [sy|sy| |sy my ey];
    cbn [valid_binary]; intros Hx Hy;
    try reflexivity;
    try (destruct sx; destruct sy; reflexivity);
    try (destruct sx; reflexivity); try (destruct sy; reflexivity).
  - destruct (@bounded_spec _ _ Hy) as (He & _).
    pose proof (@scaled_pos my ey He) as Hp.
    unfold leb, SFleb, SFcompare, scaled.
    destruct sy; cbn [cond_Zopp].
    + apply Z.leb_gt. lia.
    + apply Z.leb_le. lia.
  - destruct (@bounded_spec _ _ Hx) as (He & _).
    pose proof (@scaled_pos mx ex He) as Hp.
    unfold leb, SFleb, SFcompare, scaled.
    destruct sx; cbn [cond_Zopp].
    + apply Z.leb_le. lia.
    + apply Z.leb_gt. lia.
  - destruct (@bounded_spec _ _ Hx) as (Hex & _).
    destruct (@bounded_spec _ _ Hy) as (Hey & _).
    pose proof (@scaled_pos mx ex Hex) as Hpx.
    pose proof (@scaled_pos my ey Hey) as Hpy.
    unfold leb, SFleb, SFcompare, scaled.
    destruct sx, sy; cbn [cond_Zopp].
    + destruct (Z.compare_spec ex ey) as [->|Hlt|Hgt].
      * assert (Hp : 0 < 2 ^ (ey - emin))
          by (apply Z.pow_pos_nonneg; unfold emin; lia).
        change (Pos.compare_cont Eq mx my) with (mx ?= my)%positive.
        destruct (Pos.compare_spec mx my) as [->|Hm|Hm]; cbn [CompOpp].
        -- apply Z.leb_refl.
        -- apply Z.leb_gt. apply Pos2Z.pos_lt_pos in Hm. nia.
        -- apply Z.leb_le. apply Pos2Z.pos_lt_pos in Hm. nia.
      * pose proof (@scaled_exponent_lt mx ex my ey Hx Hy Hlt).
        apply Z.leb_gt. lia.
      * pose proof (@scaled_exponent_lt my ey mx ex Hy Hx Hgt).
        apply Z.leb_le. lia.
    + apply Z.leb_le. lia.
    + apply Z.leb_gt. lia.
    + destruct (Z.compare_spec ex ey) as [->|Hlt|Hgt].
      * assert (Hp : 0 < 2 ^ (ey - emin))
          by (apply Z.pow_pos_nonneg; unfold emin; lia).
        change (Pos.compare_cont Eq mx my) with (mx ?= my)%positive.
        destruct (Pos.compare_spec mx my) as [->|Hm|Hm].
        -- apply Z.leb_refl.
        -- apply Z.leb_le. apply Pos2Z.pos_lt_pos in Hm. nia.
        -- apply Z.leb_gt. apply Pos2Z.pos_lt_pos in Hm. nia.
      * pose proof (@scaled_exponent_lt mx ex my ey Hx Hy Hlt).
        apply Z.leb_le. lia.
      * pose proof (@scaled_exponent_lt my ey mx ex Hy Hx Hgt).
        apply Z.leb_gt. lia.
Qed.

End Float64Compare.

(** ** Uniqueness scores in binary64 *)

Section Uniqueness64Facts.

Import Py SpecFloat Float64 Uniqueness64.

Variable E : Type.
Variable metric : E -> E -> float.

Hypothesis metric_nonneg : forall x y, nonneg (metric x y).
Hypothesis metric_self : forall x, metric x x = zero.

Lemma insert64_In x a l : In x (insert a l) <-> a = x \/ In x l.
Proof.
  induction l as [|y l IH]; simpl; [tauto|].
  destruct (leb a y); simpl; [tauto|]. rewrite IH. tauto.
Qed.

Lemma sort64_In x l : In x (sort l) <-> In x l.
Proof.
  induction l as [|a l IH]; simpl; [tauto|].
  rewrite insert64_In, IH. intuition.
Qed.

Lemma insert64_length a l : List.length (insert a l) = S (List.length l).
Proof.
  induction l as [|y l IH]; simpl; [reflexivity|].
  destruct (leb a y); simpl; [reflexivity|now rewrite IH].
Qed.

Lemma sort64_length l : List.length (sort l) = List.length l.
Proof.
  induction l as [|a l IH]; simpl; [reflexivity|].
  now rewrite insert64_length, IH.
Qed.

(** Zero is sorted in front of non-negative numbers. *)
Lemma insert64_zero l :
  (forall y, In y l -> nonneg y) -> insert zero l = zero :: l.
Proof.
  destruct l as [|y l]; cbn [insert]; intros Hl; [reflexivity|].
  now rewrite (@leb_zero_nonneg y (Hl y (or_introl eq_refl))).
Qed.

(** Sorting non-negative numbers with a zero among them puts the zero in
    front of the others, sorted. *)
Lemma sort64_cons x l : sort (x :: l) = insert x (sort l).
Proof. reflexivity. Qed.

Lemma sort64_zero_middle l1 l2 :
  (forall y, In y (l1 ++ l2) -> nonneg y) ->
  sort (l1 ++ zero :: l2) = zero :: sort (l1 ++ l2).
Proof.
  induction l1 as [|x l1 IH]; intros Hl.
  - rewrite !app_nil_l in *. rewrite sort64_cons. apply insert64_zero.
    intros y Hy. apply Hl. exact (proj1 (sort64_In _ _) Hy).
  - rewrite <- !app_comm_cons, !sort64_cons.
    rewrite IH by (intros y Hy; apply Hl; right; exact Hy).
    cbn [insert]. destruct (leb x zero) eqn:Hx.
    + apply leb_nonneg_zero in Hx; [|apply Hl; now left]. subst x.
      f_equal. symmetry. apply insert64_zero.
      intros y Hy. apply Hl. right. exact (proj1 (sort64_In _ _) Hy).
    + reflexivity.
Qed.

Lemma nth_error_split_at {A} (l : list A) :
  forall i x,
    nth_error l i = Some x -> l = firstn i l ++ x :: skipn (S i) l.
Proof.
  induction l as [|a l IH]; intros [|i] x Hx; simpl in *; try discriminate.
  - now injection Hx as ->.
  - f_equal. now apply IH.
Qed.

(** Dropping the first of the [K + 1] smallest distances of a sample to
    all samples leaves the [K] smallest distances to the other samples:
    the first column is the distance of the sample to itself. *)
Lemma knn_row_excludes_self64 embeddings i x :
  nth_error embeddings i = Some x ->
  tl (firstn (K + 1) (sort (map (metric x) embeddings)))
  = firstn K (sort (others metric embeddings i)).
Proof.
  intros Hx. unfold others. rewrite Hx.
  rewrite (nth_error_split_at _ _ Hx) at 1.
  rewrite !map_app. cbn [map]. rewrite metric_self.
  rewrite sort64_zero_middle.
  - reflexivity.
  - intros y Hy. rewrite <- map_app in Hy. apply in_map_iff in Hy.
    destruct Hy as (z & <- & _). apply metric_nonneg.
Qed.

Lemma of_Z_3 : of_Z 3 = S754_finite false 6755399441055744 (-51).
Proof. vm_compute. reflexivity. Qed.

(** The weights are the numbers [0x1.3333333333333p-1],
    [0x1.3333333333333p-2] and [0x1.999999999999ap-4], as the literals
    [0.6], [0.3] and [0.1] are read. *)
Lemma weights_bits :
  weights
  = [S754_finite false 5404319552844595 (-53);
     S754_finite false 5404319552844595 (-54);
     S754_finite false 7205759403792794 (-56)].
Proof. reflexivity. Qed.

(** The weighted mean of three non-negative distances is non-negative,
    and not a NaN. *)
Lemma mean_times_nonneg d1 d2 d3 :
  nonneg d1 -> nonneg d2 -> nonneg d3 ->
  nonneg (mean (times [d1; d2; d3] weights)).
Proof.
  intros H1 H2 H3. unfold mean, times, sum, weights.
  cbn [combine map fst snd fold_left List.length Z.of_nat Pos.of_succ_nat
         Pos.succ].
  rewrite of_Z_3. apply div_nonneg.
  repeat apply add_nonneg; try (apply mul_nonneg; assumption).
  reflexivity.
Qed.

Lemma firstn_3_cases {A} (l : list A) :
  (3 <= List.length l)%nat ->
  exists a b c, firstn 3 l = [a; b; c] /\ In a l /\ In b l /\ In c l.
Proof.
  destruct l as [|a [|b [|c l]]]; simpl; try lia. intros _.
  exists a, b, c. tauto.
Qed.

Lemma others_length embeddings i :
  (i < List.length embeddings)%nat ->
  List.length (others metric embeddings i) = (List.length embeddings - 1)%nat.
Proof.
  intros Hi. unfold others.
  destruct (nth_error embeddings i) as [x|] eqn:Hx;
    [|apply nth_error_None in Hx; lia].
  rewrite length_map, length_app, length_firstn, length_skipn. lia.
Qed.

Lemma weighted_knn_mean_nonneg embeddings i :
  (4 <= List.length embeddings)%nat ->
  (i < List.length embeddings)%nat ->
  nonneg (weighted_knn_mean metric embeddings i).
Proof.
  intros Hlen Hi. unfold weighted_knn_mean.
  destruct (@firstn_3_cases _ (sort (others metric embeddings i)))
    as (a & b & c & Heq & Ha & Hb & Hc).
  { rewrite sort64_length, others_length by exact Hi. lia. }
  change K with 3%nat. rewrite Heq.
  assert (Hnn : forall y, In y (sort (others metric embeddings i)) ->
                          nonneg y).
  { intros y Hy. apply (proj1 (sort64_In _ _)) in Hy. unfold others in Hy.
    destruct (nth_error embeddings i); [|contradiction].
    apply in_map_iff in Hy. destruct Hy as (z & <- & _).
    apply metric_nonneg. }
  apply mean_times_nonneg; auto.
Qed.

Lemma map_seq_nth {A B} (f : A -> B) (l : list A) :
  forall g : nat -> B,
    (forall i x, nth_error l i = Some x -> f x = g i) ->
    map f l = map g (seq 0 (List.length l)).
Proof.
  induction l as [|a l IH]; intros g Hg; [reflexivity|].
  cbn [List.length seq map]. f_equal; [exact (Hg 0%nat a eq_refl)|].
  rewrite <- seq_shift, map_map. apply IH.
  intros i x Hx. exact (Hg (S i) x Hx).
Qed.

(** The steps of [_compute_uniqueness] on at least [K + 1] samples. *)
Lemma compute_uniqueness_steps64 embeddings :
  (4 <= List.length embeddings)%nat ->
  let raw := map (weighted_knn_mean metric embeddings)
               (seq 0 (List.length embeddings)) in
  _compute_uniqueness metric embeddings
  = (m <- max_of raw ;; Return (map (fun x => div x m) raw)).
Proof.
  intros Hlen raw. unfold _compute_uniqueness, kneighbors.
  assert (Hk : (List.length embeddings <? K + 1)%nat = false).
  { apply Nat.ltb_ge. simpl. lia. }
  rewrite Hk. cbn [bind]. rewrite map_map.
  rewrite (@map_seq_nth _ _
             (fun x =>
                mean
                  (times
                     (tl (firstn (K + 1) (sort (map (metric x) embeddings))))
                     weights))
             embeddings (weighted_knn_mean metric embeddings)).
  - reflexivity.
  - intros i x Hx. unfold weighted_knn_mean.
    now rewrite (@knn_row_excludes_self64 embeddings i x Hx).
Qed.

Lemma fold_max_spec64 rest :
  forall x,
    nonneg x -> (forall y, In y rest -> nonneg y) ->
    let m :=
      fold_left
        (fun m y =>
           if is_nan m then m
           else if is_nan y then y
           else if ltb m y then y else m)
        rest x in
    In m (x :: rest) /\ forall y, In y (x :: rest) -> ltb m y = false.
Proof.
  induction rest as [|a rest IH]; intros x Hx Hrest.
  - cbn [fold_left]. split; [now left|].
    intros y [<-|[]]. apply ltb_irrefl.
  - cbn [fold_left].
    assert (Ha : nonneg a) by (apply Hrest; now left).
    rewrite (@nonneg_not_nan x Hx), (@nonneg_not_nan a Ha).
    assert (Hrest' : forall y, In y rest -> nonneg y)
      by (intros y Hy; apply Hrest; now right).
    destruct (ltb x a) eqn:Hxa.
    + destruct (IH a Ha Hrest') as [Hin Hmax]. cbn zeta in Hin, Hmax.
      set (m := fold_left _ rest a) in *.
      assert (Hm : nonneg m).
      { destruct Hin as [<-|Hin]; [exact Ha|now apply Hrest']. }
      split; [right; exact Hin|].
      intros y [<-|Hy]; [|now apply Hmax].
      apply (@ltb_below x a m Hx Ha Hm Hxa). apply Hmax. now left.
    + destruct (IH x Hx Hrest') as [Hin Hmax]. cbn zeta in Hin, Hmax.
      set (m := fold_left _ rest x) in *.
      assert (Hm : nonneg m).
      { destruct Hin as [<-|Hin]; [exact Hx|now apply Hrest']. }
      split; [destruct Hin as [Hin|Hin]; [now left|right; now right]|].
      intros y [<-|[<-|Hy]].
      * apply Hmax. now left.
      * apply (@ltb_false_trans m x a Hx Ha Hm); [|exact Hxa].
        apply Hmax. now left.
      * apply Hmax. now right.
Qed.

(** On non-negative numbers [max()] returns an element that no element
    is above. *)
Lemma max_of_spec64 l m :
  (forall y, In y l -> nonneg y) ->
  max_of l = Return m ->
  In m l /\ forall y, In y l -> ltb m y = false.
Proof.
  destruct l as [|x rest]; cbn [max_of]; [discriminate|].
  intros Hl Hm. injection Hm as <-.
  apply fold_max_spec64; [apply Hl; now left|].
  intros y Hy. apply Hl. now right.
Qed.

End Uniqueness64Facts.

Section UnitInterval.

Import SpecFloat Float64.

Local Open Scope Z_scope.

Lemma scaled_one : scaled one = 2 ^ 1074.
Proof. vm_compute. reflexivity. Qed.

Lemma unit_interval_finite m e :
  -1074 <= e <= 0 -> Z.pos m <= 2 ^ (- e) ->
  leb zero (S754_finite false m e) = true
  /\ leb (S754_finite false m e) one = true.
Proof.
  intros He Hm.
  assert (Hp : 0 < 2 ^ (e - emin)).
  { apply Z.pow_pos_nonneg; [lia|]. unfold emin. lia. }
  split.
  - unfold leb, zero, scaled. cbn [cond_Zopp]. apply Z.leb_le. nia.
  - change (leb (S754_finite false m e) one)
      with (scaled (S754_finite false m e) <=? scaled one).
    rewrite scaled_one. unfold scaled. cbn [cond_Zopp]. apply Z.leb_le.
    replace 1074 with (- e + (e - emin)) by (unfold emin; lia).
    rewrite Z.pow_add_r by (unfold emin; lia).
    apply Z.mul_le_mono_nonneg_r; lia.
Qed.

(** A non-negative number divided by a positive finite number that it
    is not above lies between 0 and 1. *)
Lemma div_in_unit_interval y mm em :
  nonneg y -> -1074 <= em ->
  ltb (S754_finite false mm em) y = false ->
  leb zero (div y (S754_finite false mm em)) = true
  /\ leb (div y (S754_finite false mm em)) one = true.
Proof.
  intros Hy Hem Hlt.
  destruct (@not_above_finite y mm em Hy Hlt)
    as [->|(my & ey & -> & Hey & Hle)].
  - split; reflexivity.
  - pose proof (@div_le_one my ey mm em Hey Hem Hle) as Hdiv.
    destruct (div (S754_finite false my ey) (S754_finite false mm em))
      as [s|s| |s m e]; cbv beta iota in Hdiv; try contradiction.
    + subst s. split; reflexivity.
    + destruct Hdiv as (-> & He & Hm). now apply unit_interval_finite.
Qed.

Lemma positive_finite m :
  ltb zero m = true -> is_finite m = true ->
  exists mm em, m = S754_finite false mm em.
Proof.
  destruct m as [s|s| |[|] mm em]; cbn [is_finite]; try discriminate.
  - intros H _. unfold ltb, zero, scaled in H. cbn [cond_Zopp] in H.
    apply Z.ltb_lt in H.
    assert (0 <= 2 ^ (em - emin)) by (apply Z.pow_nonneg; lia). nia.
  - intros _ _. eauto.
Qed.

End UnitInterval.

Lemma nth_error_seq0 n i : i < n -> nth_error (seq 0 n) i = Some i.
Proof.
  intros Hi.
  rewrite (@nth_error_nth' _ (seq 0 n) i 0) by (now rewrite length_seq).
  now rewrite seq_nth.
Qed.

(** C8 (amended). For every embedding matrix of at least [K + 1 = 4]
    samples, [_compute_uniqueness] returns one score per sample, computed
    in binary64: the score of a sample is the weighted mean of its
    distances to its three nearest other samples, the weights being
    [0.6, 0.3, 0.1] and the mean being over the three products, divided
    by the largest such weighted mean [m] of the collection.  Whenever
    [m] is positive and finite, every score lies in [[0, 1]] and at least
    one score is exactly 1.  The distances are what the neighbour search
    returns: non-negative numbers of the format or plus infinity, zero
    from a sample to itself. *)
Theorem uniqueness_scores_normalized :
  forall (E : Type) (metric : E -> E -> Float64.float)
         (embeddings : list E),
    (forall x y, Float64.nonneg (metric x y)) ->
    (forall x, metric x x = Float64.zero) ->
    4 <= List.length embeddings ->
    exists m scores,
      Uniqueness64.max_of
        (map (Uniqueness64.weighted_knn_mean metric embeddings)
           (seq 0 (List.length embeddings)))
      = Py.Return m
      /\ Uniqueness64._compute_uniqueness metric embeddings
         = Py.Return scores
      /\ List.length scores = List.length embeddings
      /\ (forall i,
             i < List.length embeddings ->
             nth_error scores i
             = Some
                 (Float64.div
                    (Uniqueness64.weighted_knn_mean metric embeddings i) m))
      /\ (Float64.ltb Float64.zero m = true ->
          Float64.is_finite m = true ->
          (forall s,
              In s scores ->
              Float64.leb Float64.zero s = true
              /\ Float64.leb s Float64.one = true)
          /\ exists i,
               i < List.length embeddings
               /\ nth_error scores i = Some Float64.one).
Proof.
  intros E metric embeddings Hnonneg Hself Hlen.
  pose proof (@compute_uniqueness_steps64 E metric Hnonneg Hself embeddings
                Hlen) as Hrun.
  cbn zeta in Hrun.
  destruct (Uniqueness64.max_of
              (map (Uniqueness64.weighted_knn_mean metric embeddings)
                 (seq 0 (List.length embeddings)))) as [m|e] eqn:Hmax.
  2:{ destruct embeddings as [|x0 rest]; [simpl in Hlen; lia|].
      discriminate Hmax. }
  cbn [Py.bind] in Hrun.
  exists m. eexists. split; [reflexivity|]. split; [exact Hrun|].
  split; [now rewrite !length_map, length_seq|].
  assert (Hraw : forall y,
             In y (map (Uniqueness64.weighted_knn_mean metric embeddings)
                     (seq 0 (List.length embeddings))) ->
             Float64.nonneg y).
  { intros y Hy. apply in_map_iff in Hy. destruct Hy as (i & <- & Hi).
    apply in_seq in Hi.
    apply (@weighted_knn_mean_nonneg E metric Hnonneg embeddings i Hlen).
    lia. }
  destruct (@max_of_spec64 _ m Hraw Hmax) as [Hin Hbound].
  split.
  - intros i Hi. rewrite !nth_error_map.
    now rewrite (@nth_error_seq0 _ i Hi).
  - intros Hpos Hfin.
    destruct (@positive_finite m Hpos Hfin) as (mm & em & ->).
    pose proof (Hraw _ Hin) as [_ Hem]. split.
    + intros s Hs. apply in_map_iff in Hs. destruct Hs as (y & <- & Hy).
      apply div_in_unit_interval; [now apply Hraw|exact Hem|].
      now apply Hbound.
    + apply in_map_iff in Hin. destruct Hin as (i & Hi & Hseq).
      apply in_seq in Hseq. exists i. split; [lia|].
      rewrite !nth_error_map.
      rewrite (@nth_error_seq0 (List.length embeddings) i) by lia.
      cbn [option_map]. rewrite Hi. now rewrite div_self.
Qed.

Lemma uniqueness_scores_normalized_witness :
  (forall p q, Float64.nonneg (Example.line_distance p q))
  /\ (forall p, Example.line_distance p p = Float64.zero)
  /\ 4 <= List.length Example.stations
  /\ Uniqueness64.max_of
       (map (Uniqueness64.weighted_knn_mean Example.line_distance
               Example.stations)
          (seq 0 (List.length Example.stations)))
     = Py.Return (Example.largest_mean)
  /\ Float64.ltb Float64.zero Example.largest_mean = true
  /\ exists scores,
       Uniqueness64._compute_uniqueness Example.line_distance
         Example.stations
       = Py.Return scores
       /\ (forall s,
              In s scores ->
              Float64.leb Float64.zero s = true
              /\ Float64.leb s Float64.one = true)
       /\ exists i, i < 5 /\ nth_error scores i = Some Float64.one.
Proof.
  assert (Hnonneg : forall p q, Float64.nonneg (Example.line_distance p q)).
  { intros p q. apply nonneg_decide.
    destruct p, q; vm_compute; split; reflexivity. }
  assert (Hself : forall p, Example.line_distance p p = Float64.zero).
  { intros p. destruct p; vm_compute; reflexivity. }
  assert (Hlen : 4 <= List.length Example.stations) by (simpl; lia).
  assert (Hmax :
            Uniqueness64.max_of
              (map (Uniqueness64.weighted_knn_mean Example.line_distance
                      Example.stations)
                 (seq 0 (List.length Example.stations)))
            = Py.Return (Example.largest_mean)).
  { vm_compute. reflexivity. }
  assert (Hpos :
            Float64.ltb Float64.zero
              (Example.largest_mean) = true).
  { vm_compute. reflexivity. }
  split; [exact Hnonneg|]. split; [exact Hself|]. split; [exact Hlen|].
  split; [exact Hmax|]. split; [exact Hpos|].
  destruct (@uniqueness_scores_normalized
              Example.station Example.line_distance Example.stations
              Hnonneg Hself Hlen)
    as (m & scores & Hm & Hrun & _ & _ & Hguarded).
  rewrite Hmax in Hm. injection Hm as <-.
  destruct (Hguarded Hpos eq_refl) as [Hunit Hone].
  exists scores. split; [exact Hrun|]. split; [exact Hunit|exact Hone].
Defined.

(** C8 as stated fails on non-empty matrices.  One sample alone has no
    four neighbours and the search raises.  Four equal samples have all
    distances zero, the maximum is zero, and every score is [0 / 0], a
    NaN.  Four samples so far apart that the distances overflow have
    plus infinity as maximum, which is positive, and every score is
    [inf / inf], a NaN: no score is 1 and none lies in [[0, 1]]. *)
Lemma uniqueness_small_degenerate_or_overflowing_counterexample :
  Uniqueness64._compute_uniqueness Example.euclid_1d [Float64.of_Z 0]
  = Py.Raise (Py.ValueError "Expected n_neighbors <= n_samples_fit")
  /\ Uniqueness64._compute_uniqueness Example.euclid_1d
       [Float64.of_Z 1; Float64.of_Z 1; Float64.of_Z 1; Float64.of_Z 1]
     = Py.Return [Float64.nan; Float64.nan; Float64.nan; Float64.nan]
  /\ Uniqueness64.max_of
       (map (Uniqueness64.weighted_knn_mean Example.euclid_1d
               Example.far_points)
          (seq 0 4))
     = Py.Return Float64.infinity
  /\ Float64.ltb Float64.zero Float64.infinity = true
  /\ Uniqueness64._compute_uniqueness Example.euclid_1d Example.far_points
     = Py.Return [Float64.nan; Float64.nan; Float64.nan; Float64.nan]
  /\ ~ (forall embeddings : list Float64.float,
          embeddings <> [] ->
          exists scores,
            Uniqueness64._compute_uniqueness Example.euclid_1d embeddings
            = Py.Return scores)
  /\ ~ (forall (embeddings : list Float64.float) (m : Float64.float),
          4 <= List.length embeddings ->
          Uniqueness64.max_of
            (map (Uniqueness64.weighted_knn_mean Example.euclid_1d
                    embeddings)
               (seq 0 (List.length embeddings)))
          = Py.Return m ->
          Float64.ltb Float64.zero m = true ->
          exists scores,
            Uniqueness64._compute_uniqueness Example.euclid_1d embeddings
            = Py.Return scores
            /\ (forall s,
                   In s scores ->
                   Float64.leb Float64.zero s = true
                   /\ Float64.leb s Float64.one = true)
            /\ exists i, nth_error scores i = Some Float64.one).
Proof.
  split; [vm_compute; reflexivity|]. split; [vm_compute; reflexivity|].
  split; [vm_compute; reflexivity|]. split; [vm_compute; reflexivity|].
  split; [vm_compute; reflexivity|]. split.
  - intros Hall.
    destruct (Hall [Float64.of_Z 0] ltac:(discriminate)) as (scores & Hrun).
    vm_compute in Hrun. discriminate.
  - intros Hall.
    destruct (Hall Example.far_points (Float64.infinity))
      as (scores & Hrun & Hunit & _).
    + simpl. lia.
    + vm_compute. reflexivity.
    + vm_compute. reflexivity.
    + assert (Hscores :
                scores
                = [Float64.nan; Float64.nan; Float64.nan; Float64.nan]).
      { vm_compute in Hrun. now injection Hrun as <-. }
      subst scores.
      destruct (Hunit Float64.nan (or_introl eq_refl)) as [Hz _].
      discriminate.
Qed.

(** * Further properties *)

(** ** Writing to the dataset *)

Section DatasetWrites.

Lemma get_sample_save ds t i :
  fo.get_sample (fo.save ds t) i
  = if String.eqb (fo.id t) i
    then (if fo.has_id ds i then Some t else None)
    else fo.get_sample ds i.
Proof.
  unfold fo.get_sample, fo.has_id, fo.save.
  induction ds as [|d ds IH]; simpl.
  - now destruct (fo.id t =? i)%string.
  - destruct (fo.id d =? fo.id t)%string eqn:Hdt.
    + apply String.eqb_eq in Hdt. rewrite Hdt.
      destruct (fo.id t =? i)%string eqn:Hti; simpl; [reflexivity|].
      rewrite IH. reflexivity.
    + destruct (fo.id d =? i)%string eqn:Hdi; simpl.
      * apply String.eqb_eq in Hdi. subst i. rewrite String.eqb_sym, Hdt.
        reflexivity.
      * exact IH.
Qed.

Lemma has_id_save ds t i : fo.has_id (fo.save ds t) i = fo.has_id ds i.
Proof. apply has_id_ext, save_ids. Qed.

Lemma get_field_set_assoc k v kvs :
  option_map snd (find (fun kv => String.eqb (fst kv) k) (fo.set_assoc k v kvs))
  = Some v.
Proof.
  induction kvs as [|[k' v'] kvs IH]; simpl.
  - now rewrite String.eqb_refl.
  - destruct (k' =? k)%string eqn:Hk; simpl.
    + now rewrite String.eqb_refl.
    + now rewrite Hk.
Qed.

(** Reading back a field that was just set gives the value set. *)
Lemma get_field_set_field s field value :
  fo.get_field (fo.set_field s field value) field = Some value.
Proof. unfold fo.get_field, fo.set_field. simpl. apply get_field_set_assoc. Qed.

Lemma get_sample_found ds i :
  fo.has_id ds i = true -> exists d, fo.get_sample ds i = Some d.
Proof.
  intros Hh. destruct (fo.get_sample ds i) as [d|] eqn:Hg; [eauto|].
  apply get_sample_has_id in Hg. congruence.
Qed.

Lemma lookup_all_In ds ids s :
  In s (fo.lookup_all ds ids) ->
  In (fo.id s) ids /\ fo.get_sample ds (fo.id s) = Some s.
Proof.
  induction ids as [|i ids IH]; simpl; [tauto|].
  destruct (fo.get_sample ds i) as [d|] eqn:Hd.
  - intros [<-|Hin].
    + destruct (get_sample_some _ _ Hd) as [_ Hid]. subst i. auto.
    + destruct (IH Hin). auto.
  - intros Hin. destruct (IH Hin). auto.
Qed.

(** The samples a collection yields are documents of its dataset, each
    the one its identifier looks up. *)
Lemma iter_samples_get c s :
  In s (fo.iter_samples c) ->
  fo.get_sample (fo._dataset c) (fo.id s) = Some s.
Proof. intros Hin. now apply lookup_all_In in Hin. Qed.

End DatasetWrites.

(** ** Building the hash-bucket index *)

Section HashBuild.

Import Py HashIndex.

Variable compute_filehash : string -> result string.
Variable read_gray_resized : string -> nat -> result ImageHash.Matrix.
Variable cfg : LeakySplitsHashConfig.

Lemma append_id_nonempty hash i d :
  Forall (fun l => l <> []) (values d) ->
  Forall (fun l => l <> []) (values (append_id hash i d)).
Proof.
  induction d as [|[k l] d IH]; simpl; intros Hd.
  - repeat constructor. discriminate.
  - inversion Hd as [|? ? Hl Hd']; subst.
    destruct (k =? hash)%string; simpl; constructor; auto.
    destruct l; discriminate.
Qed.

(** A successful run leaves no bucket empty and has found a fingerprint
    for every sample it visited. *)
Lemma compute_hashes_loop_hashed todo :
  forall d ds ds' d',
    _compute_hashes_loop compute_filehash read_gray_resized cfg todo d ds
    = (ds', Return d') ->
    (Forall (fun l => l <> []) (values d) ->
     Forall (fun l => l <> []) (values d'))
    /\ (forall s, In s todo ->
                  exists f hash,
                    _hash_function compute_filehash read_gray_resized cfg
                    = Some f
                    /\ f (fo.filepath s) = Return hash).
Proof.
  induction todo as [|s todo IH]; intros d ds ds' d'; simpl.
  - intros Heq. injection Heq as <- <-. split; [auto|intros s []].
  - destruct (_hash_function compute_filehash read_gray_resized cfg)
      as [f|] eqn:Hf; [|discriminate].
    destruct (f (fo.filepath s)) as [hash|e] eqn:Hh; [|discriminate].
    intros Hloop. apply IH in Hloop. destruct Hloop as [Hne Hall]. split.
    + intros Hd. now apply Hne, append_id_nonempty.
    + intros s' [<-|Hin]; [eauto|]. apply Hall in Hin.
      destruct Hin as (f' & hash' & Hf' & Hh'). eauto.
Qed.

(** Without a hash field the loop writes nothing. *)
Lemma compute_hashes_loop_no_field todo :
  forall d ds,
    truthy_str (hash_field cfg) = false ->
    fst (_compute_hashes_loop compute_filehash read_gray_resized cfg
           todo d ds) = ds.
Proof.
  induction todo as [|s todo IH]; intros d ds Hf; simpl; [reflexivity|].
  destruct (_hash_function compute_filehash read_gray_resized cfg)
    as [f|]; [|reflexivity].
  destruct (f (fo.filepath s)) as [hash|e]; [|reflexivity].
  destruct (hash_field cfg) as [[|c f']|]; try discriminate; now apply IH.
Qed.

(** With a hash field, the document of a visited sample ends as the
    sample with its fingerprint in the field; other documents are looked
    up as before. *)
Lemma compute_hashes_loop_writes c field todo :
  forall d ds ds' d' f,
    hash_field cfg = Some (String c field) ->
    _hash_function compute_filehash read_gray_resized cfg = Some f ->
    _compute_hashes_loop compute_filehash read_gray_resized cfg todo d ds
    = (ds', Return d') ->
    (forall s s', In s todo -> In s' todo -> fo.id s = fo.id s' -> s = s') ->
    forall i,
      fo.get_sample ds' i
      = match find (fun s => String.eqb (fo.id s) i) todo with
        | Some s =>
            if fo.has_id ds i
            then match f (fo.filepath s) with
                 | Return hash =>
                     Some (fo.set_field s (String c field) hash)
                 | Raise _ => None
                 end
            else None
        | None => fo.get_sample ds i
        end.
Proof.
  induction todo as [|s todo IH]; intros d ds ds' d' f Hfield Hfun; simpl.
  - intros Heq _ i. now injection Heq as <- <-.
  - rewrite Hfun, Hfield.
    destruct (f (fo.filepath s)) as [hash|e] eqn:Hh; [|discriminate].
    intros Hloop Huniq i.
    rewrite (IH _ _ _ _ f Hfield Hfun Hloop)
      by (intros; apply Huniq; auto).
    rewrite has_id_save, get_sample_save.
    change (fo.id (fo.set_field s (String c field) hash)) with (fo.id s).
    destruct (fo.id s =? i)%string eqn:Hsi.
    + rewrite Hh.
      destruct (find (fun s0 => (fo.id s0 =? i)%string) todo)
        as [s'|] eqn:Hfind; [|reflexivity].
      apply find_some in Hfind. destruct Hfind as [Hin Heq].
      apply String.eqb_eq in Heq, Hsi.
      assert (s' = s) by (apply Huniq; auto; congruence).
      subst s'. now rewrite Hh.
    + reflexivity.
Qed.

End HashBuild.

Section HashBuildFacts.

Import Py HashIndex.

Lemma NoDup_concat_member {A} (L : list (list A)) l :
  NoDup (List.concat L) -> In l L -> NoDup l.
Proof.
  induction L as [|l0 L IH]; simpl; intros Hnd Hin; [contradiction|].
  destruct Hin as [<-|Hin].
  - now apply NoDup_app_remove_r in Hnd.
  - apply IH; [|exact Hin]. now apply NoDup_app_remove_l in Hnd.
Qed.

Lemma two_members_length {A} (l : list A) a b :
  In a l -> In b l -> a <> b -> 2 <= List.length l.
Proof.
  destruct l as [|x [|y l]]; simpl; intros Ha Hb Hab.
  - destruct Ha.
  - destruct Ha as [<-|[]], Hb as [<-|[]]. congruence.
  - lia.
Qed.

Lemma other_member (l : list string) a :
  NoDup l -> 2 <= List.length l -> exists b, In b l /\ b <> a.
Proof.
  destruct l as [|x [|y l]]; simpl; intros Hnd Hlen; try lia.
  inversion Hnd as [|? ? Hx _]; subst.
  destruct (String.eqb_spec x a) as [->|Hxa].
  - exists y. split; [auto|]. intros ->. apply Hx. now left.
  - exists x. auto.
Qed.

Lemma bucket_in_values d k :
  bucket d k <> [] -> In (bucket d k) (values d).
Proof.
  unfold bucket, values. intros Hne.
  destruct (find (fun kv => (fst kv =? k)%string) d) as [[k' l]|] eqn:Hf;
    [|congruence].
  apply find_some in Hf. destruct Hf as [Hin _].
  apply in_map_iff. now exists (k', l).
Qed.

Lemma values_entry d l : In l (values d) -> exists k, In (k, l) d.
Proof.
  unfold values. intros Hin. apply in_map_iff in Hin.
  destruct Hin as ([k l'] & Heq & Hin). simpl in Heq. subst. eauto.
Qed.

Lemma scan_buckets_some ds i buckets v :
  scan_buckets ds i buckets = Some v ->
  exists id_list,
    In id_list buckets /\ In i id_list /\ v = fo.select ds id_list false.
Proof.
  induction buckets as [|l buckets IH]; simpl; [discriminate|].
  destruct (contains i l) eqn:Hc.
  - intros Heq. injection Heq as <-. apply contains_In in Hc.
    exists l. auto.
  - intros Hscan. destruct (IH Hscan) as (l' & Hl' & Hil' & Hv).
    exists l'. auto.
Qed.

End HashBuildFacts.

(** X2. A successfully built hash-bucket index partitions the samples of
    the collection: the buckets together hold every sample identifier
    exactly once, no bucket is empty, no fingerprint has two buckets, and
    two buckets never share an identifier. *)
Theorem hash_buckets_partition_samples :
  forall compute_filehash read_gray_resized samples cfg ds idx,
    NoDup (fo._ids samples) ->
    HashIndex.__init__ compute_filehash read_gray_resized samples cfg
    = (ds, Py.Return idx) ->
    Permutation (List.concat (HashIndex.values (HashIndex._hash2ids idx)))
      (map fo.id (fo.iter_samples samples))
    /\ NoDup (HashIndex.keys (HashIndex._hash2ids idx))
    /\ Forall (fun id_list => id_list <> [])
         (HashIndex.values (HashIndex._hash2ids idx))
    /\ (forall l1 l2 i,
           In l1 (HashIndex.values (HashIndex._hash2ids idx)) ->
           In l2 (HashIndex.values (HashIndex._hash2ids idx)) ->
           In i l1 -> In i l2 -> l1 = l2).
Proof.
  intros cfh rgr samples cfg ds idx Hnd Hinit.
  destruct (init_spec cfh rgr cfg samples Hnd Hinit)
    as (_ & _ & Hperm & Hndc & Hkeys & _ & _).
  split; [exact Hperm|]. split; [exact Hkeys|]. split.
  - unfold HashIndex.__init__ in Hinit.
    destruct (Splits._to_views samples (HashIndex.split_views cfg)
                (HashIndex.split_field cfg) (HashIndex.split_tags cfg));
      [|discriminate].
    unfold HashIndex._compute_hashes in Hinit.
    destruct (HashIndex._compute_hashes_loop cfh rgr cfg
                (fo.iter_samples samples) [] (fo._dataset samples))
      as [ds0 [d|e]] eqn:Hloop; [|discriminate].
    injection Hinit as _ <-. simpl.
    apply compute_hashes_loop_hashed in Hloop. apply Hloop. constructor.
  - intros l1 l2 i H1 H2 Hi1 Hi2.
    now apply (concat_NoDup_one_bucket _ l1 l2 i Hndc).
Qed.

Lemma hash_buckets_partition_samples_witness :
  NoDup (fo._ids Example.samples)
  /\ Permutation
       (List.concat (HashIndex.values (HashIndex._hash2ids Example.index)))
       (map fo.id (fo.iter_samples Example.samples)).
Proof.
  assert (Hnd : NoDup (fo._ids Example.samples)).
  { repeat constructor; simpl; intuition discriminate. }
  assert (Hinit :
            HashIndex.__init__ Example.compute_filehash
              Example.read_gray_resized Example.samples Example.cfg
            = (fst Example.built, Py.Return Example.index)).
  { vm_compute. reflexivity. }
  split; [exact Hnd|].
  exact (proj1 (hash_buckets_partition_samples _ _ _ _ Hnd Hinit)).
Defined.

(** X3. In a successfully built hash-bucket index a sample of the
    collection is among the leaks exactly when another sample of the
    collection has the same fingerprint. *)
Theorem hash_leak_iff_shared_fingerprint :
  forall compute_filehash read_gray_resized samples cfg ds idx s,
    NoDup (fo._ids samples) ->
    HashIndex.__init__ compute_filehash read_gray_resized samples cfg
    = (ds, Py.Return idx) ->
    In s (fo.iter_samples samples) ->
    (In (fo.id s) (fo._ids (HashIndex.leaks idx)) <->
     exists s' k,
       In s' (fo.iter_samples samples)
       /\ fo.id s' <> fo.id s
       /\ HashIndex.has_hash compute_filehash read_gray_resized cfg k s
          = true
       /\ HashIndex.has_hash compute_filehash read_gray_resized cfg k s'
          = true).
Proof.
  intros cfh rgr samples cfg ds idx s Hnd Hinit Hs.
  destruct (init_spec cfh rgr cfg samples Hnd Hinit)
    as (Hds & _ & _ & Hndc & Hkeys & Hbucket & Hhas).
  rewrite <- Hds in Hhas.
  destruct (leaks_ids_of_index idx Hndc Hhas) as [Hleak _].
  rewrite Hleak, in_concat. split.
  - intros (l & Hl & Hil). apply filter_In in Hl. destruct Hl as [Hl Hlen].
    apply Nat.leb_le in Hlen.
    destruct (values_entry _ _ Hl) as [k Hkl].
    pose proof (bucket_of_entry _ _ _ Hkeys Hkl) as Hb.
    rewrite Hbucket in Hb. subst l.
    destruct (other_member (fo.id s) (NoDup_concat_member _ _ Hndc Hl) Hlen)
      as (j & Hj & Hne).
    apply in_map_iff in Hj. destruct Hj as (s' & Hid' & Hs').
    apply filter_In in Hs'. destruct Hs' as [Hs' Hh'].
    apply in_map_iff in Hil. destruct Hil as (s0 & Hid0 & Hs0).
    apply filter_In in Hs0. destruct Hs0 as [Hs0 Hh0].
    assert (s0 = s).
    { apply iter_samples_get in Hs0. apply iter_samples_get in Hs.
      rewrite Hid0 in Hs0. congruence. }
    subst s0. exists s', k. split; [exact Hs'|].
    split; [congruence|]. split; [exact Hh0|exact Hh'].
  - intros (s' & k & Hs' & Hne & Hh & Hh').
    assert (Hin : In (fo.id s) (HashIndex.bucket (HashIndex._hash2ids idx) k)).
    { rewrite Hbucket. apply in_map, filter_In. auto. }
    assert (Hin' : In (fo.id s')
                     (HashIndex.bucket (HashIndex._hash2ids idx) k)).
    { rewrite Hbucket. apply in_map, filter_In. auto. }
    exists (HashIndex.bucket (HashIndex._hash2ids idx) k).
    split; [|exact Hin]. apply filter_In. split.
    + apply bucket_in_values. intros Heq. rewrite Heq in Hin. destruct Hin.
    + apply Nat.leb_le.
      exact (@two_members_length _ _ (fo.id s') (fo.id s) Hin' Hin Hne).
Qed.

Lemma hash_leak_iff_shared_fingerprint_witness :
  NoDup (fo._ids Example.samples)
  /\ In (Example.sample "s6" "/copy/a.png" "test")
       (fo.iter_samples Example.samples)
  /\ In "s6" (fo._ids (HashIndex.leaks Example.index)).
Proof.
  assert (Hnd : NoDup (fo._ids Example.samples)).
  { repeat constructor; simpl; intuition discriminate. }
  assert (Hinit :
            HashIndex.__init__ Example.compute_filehash
              Example.read_gray_resized Example.samples Example.cfg
            = (fst Example.built, Py.Return Example.index)).
  { vm_compute. reflexivity. }
  assert (Hs : In (Example.sample "s6" "/copy/a.png" "test")
                 (fo.iter_samples Example.samples)).
  { vm_compute. tauto. }
  split; [exact Hnd|]. split; [exact Hs|].
  apply (proj2 (hash_leak_iff_shared_fingerprint _ _ _ _ _ Hnd Hinit Hs)).
  exists (Example.sample "s1" "/data/a.png" "train"), "AAAA".
  split; [vm_compute; tauto|]. split; [discriminate|].
  split; reflexivity.
Defined.

(** X4. When a non-empty hash field is configured, a successful build
    leaves every sample of the collection stored with its fingerprint in
    that field and otherwise as it was; documents outside the collection
    are looked up as before. *)
Theorem hash_field_holds_fingerprint :
  forall compute_filehash read_gray_resized samples cfg ds idx c field,
    NoDup (fo._ids samples) ->
    HashIndex.__init__ compute_filehash read_gray_resized samples cfg
    = (ds, Py.Return idx) ->
    HashIndex.hash_field cfg = Some (String c field) ->
    (forall s,
        In s (fo.iter_samples samples) ->
        exists hash,
          HashIndex.has_hash compute_filehash read_gray_resized cfg hash s
          = true
          /\ fo.get_sample ds (fo.id s)
             = Some (fo.set_field s (String c field) hash)
          /\ fo.get_field (fo.set_field s (String c field) hash)
               (String c field) = Some hash)
    /\ (forall i,
           ~ In i (map fo.id (fo.iter_samples samples)) ->
           fo.get_sample ds i = fo.get_sample (fo._dataset samples) i).
Proof.
  intros cfh rgr samples cfg ds idx c field Hnd Hinit Hfield.
  unfold HashIndex.__init__ in Hinit.
  destruct (Splits._to_views samples (HashIndex.split_views cfg)
              (HashIndex.split_field cfg) (HashIndex.split_tags cfg));
    [|discriminate].
  unfold HashIndex._compute_hashes in Hinit.
  destruct (HashIndex._compute_hashes_loop cfh rgr cfg
              (fo.iter_samples samples) [] (fo._dataset samples))
    as [ds0 [d|e]] eqn:Hloop; [|discriminate].
  injection Hinit as <- _.
  assert (Huniq : forall s s',
             In s (fo.iter_samples samples) ->
             In s' (fo.iter_samples samples) ->
             fo.id s = fo.id s' -> s = s').
  { intros s s' Hs Hs' Heq. apply iter_samples_get in Hs, Hs'.
    rewrite Heq in Hs. congruence. }
  destruct (@compute_hashes_loop_hashed cfh rgr cfg _ _ _ _ _ Hloop)
    as [_ Hall].
  split.
  - intros s Hs. destruct (Hall s Hs) as (f & hash & Hf & Hh).
    exists hash. split; [|split].
    + unfold HashIndex.has_hash. rewrite Hf, Hh. apply String.eqb_refl.
    + rewrite (@compute_hashes_loop_writes cfh rgr cfg c field _ _ _ _ _ f
                 Hfield Hf Hloop Huniq).
      destruct (find (fun s0 => (fo.id s0 =? fo.id s)%string)
                  (fo.iter_samples samples)) as [s'|] eqn:Hfind.
      * apply find_some in Hfind. destruct Hfind as [Hs' Heq].
        apply String.eqb_eq in Heq.
        assert (s' = s) by (apply Huniq; auto). subst s'.
        rewrite iter_samples_has_id by (now apply in_map).
        now rewrite Hh.
      * exfalso. eapply find_none in Hfind; [|exact Hs].
        now rewrite String.eqb_refl in Hfind.
    + apply get_field_set_field.
  - intros i Hi.
    destruct (fo.iter_samples samples) as [|s0 rest] eqn:Hiter.
    + simpl in Hloop. now injection Hloop as <- _.
    + destruct (Hall s0 (or_introl eq_refl)) as (f & _ & Hf & _).
      rewrite (@compute_hashes_loop_writes cfh rgr cfg c field _ _ _ _ _ f
                 Hfield Hf Hloop Huniq).
      destruct (find (fun s => (fo.id s =? i)%string) (s0 :: rest))
        as [s'|] eqn:Hfind; [|reflexivity].
      apply find_some in Hfind. destruct Hfind as [Hs' Heq].
      apply String.eqb_eq in Heq. exfalso. apply Hi. subst i.
      now apply in_map.
Qed.

Lemma hash_field_holds_fingerprint_witness :
  NoDup (fo._ids Example.samples)
  /\ HashIndex.hash_field Example.cfg = Some "filehash"
  /\ exists d,
       fo.get_sample (fst Example.built) "s6" = Some d
       /\ fo.get_field d "filehash" = Some "AAAA".
Proof.
  assert (Hnd : NoDup (fo._ids Example.samples)).
  { repeat constructor; simpl; intuition discriminate. }
  assert (Hinit :
            HashIndex.__init__ Example.compute_filehash
              Example.read_gray_resized Example.samples Example.cfg
            = (fst Example.built, Py.Return Example.index)).
  { vm_compute. reflexivity. }
  split; [exact Hnd|]. split; [reflexivity|].
  destruct (hash_field_holds_fingerprint _ _ _ _ Hnd Hinit
              (c := "f"%char) (field := "ilehash") eq_refl) as [Hwritten _].
  destruct (Hwritten (Example.sample "s6" "/copy/a.png" "test"))
    as (hash & Hhash & Hget & Hfield).
  { vm_compute. tauto. }
  vm_compute in Hhash.
  destruct (String.eqb_spec hash "AAAA") as [->|Hne].
  - eexists. split; [exact Hget|exact Hfield].
  - exfalso. clear - Hhash Hne.
    apply Hne. apply String.eqb_eq. rewrite String.eqb_sym. exact Hhash.
Defined.

(** X5. Without a hash field ([None] or the empty string) building the
    index never writes to the dataset, whether it succeeds or raises. *)
Theorem hash_build_without_field_writes_nothing :
  forall compute_filehash read_gray_resized samples cfg,
    Py.truthy_str (HashIndex.hash_field cfg) = false ->
    fst (HashIndex.__init__ compute_filehash read_gray_resized samples cfg)
    = fo._dataset samples.
Proof.
  intros cfh rgr samples cfg Hfield. unfold HashIndex.__init__.
  destruct (Splits._to_views samples (HashIndex.split_views cfg)
              (HashIndex.split_field cfg) (HashIndex.split_tags cfg));
    [|reflexivity].
  unfold HashIndex._compute_hashes.
  pose proof (@compute_hashes_loop_no_field cfh rgr cfg
                (fo.iter_samples samples) [] (fo._dataset samples) Hfield)
    as Hfst.
  destruct (HashIndex._compute_hashes_loop cfh rgr cfg
              (fo.iter_samples samples) [] (fo._dataset samples))
    as [ds0 [d|e]]; exact Hfst.
Qed.

Lemma hash_build_without_field_writes_nothing_witness :
  fst (HashIndex.__init__ Example.compute_filehash Example.read_gray_resized
         Example.samples
         {| HashIndex.split_views := None;
            HashIndex.split_field := None;
            HashIndex.split_tags := Some ["train"; "test"];
            HashIndex._method := "filepath";
            HashIndex.hash_field := Some "" |})
  = Example.docs.
Proof.
  exact (hash_build_without_field_writes_nothing
           Example.compute_filehash Example.read_gray_resized
           Example.samples
           {| HashIndex.split_views := None;
              HashIndex.split_field := None;
              HashIndex.split_tags := Some ["train"; "test"];
              HashIndex._method := "filepath";
              HashIndex.hash_field := Some "" |} eq_refl).
Defined.

Section HashBuildFailure.

Import Py HashIndex.

Variable compute_filehash : string -> result string.
Variable read_gray_resized : string -> nat -> result ImageHash.Matrix.
Variable cfg : LeakySplitsHashConfig.

(** The loop stops at the first sample whose fingerprint cannot be
    computed, with the writes of the samples before it. *)
Lemma compute_hashes_loop_first_failure f e before s after :
  _hash_function compute_filehash read_gray_resized cfg = Some f ->
  (forall p, In p before -> raises (f (fo.filepath p)) = false) ->
  f (fo.filepath s) = Raise e ->
  forall d ds,
    _compute_hashes_loop compute_filehash read_gray_resized cfg
      (before ++ s :: after) d ds
    = (fst (_compute_hashes_loop compute_filehash read_gray_resized cfg
              before d ds),
       Raise e)
    /\ map fo.id
         (fst (_compute_hashes_loop compute_filehash read_gray_resized cfg
                 before d ds))
       = map fo.id ds.
Proof.
  intros Hf Hbefore Hs.
  induction before as [|p before IH]; intros d ds; simpl.
  - now rewrite Hf, Hs.
  - rewrite Hf.
    pose proof (Hbefore p (or_introl eq_refl)) as Hp.
    destruct (f (fo.filepath p)) as [hash|e']; [|discriminate].
    destruct (IH (fun q Hq => Hbefore q (or_intror Hq))
                (append_id hash (fo.id p) d)
                (match hash_field cfg with
                 | Some (String c f') =>
                     fo.save ds (fo.set_field p (String c f') hash)
                 | _ => ds
                 end)) as [Hrun Hids].
    split; [exact Hrun|]. rewrite Hids.
    destruct (hash_field cfg) as [[|c f']|]; auto using save_ids.
Qed.

End HashBuildFailure.

(** X6. If split resolution succeeds and the fingerprint of some sample
    cannot be computed (a missing or unreadable file), the build raises
    the error of the first such sample: it is not skipped.  The dataset
    keeps the fingerprints already written for the samples before it and
    the identifiers of its documents. *)
Theorem hash_build_raises_first_fingerprint_error :
  forall compute_filehash read_gray_resized samples cfg views f e
         before s after,
    Splits._to_views samples (HashIndex.split_views cfg)
      (HashIndex.split_field cfg) (HashIndex.split_tags cfg)
    = Py.Return views ->
    fo.iter_samples samples = before ++ s :: after ->
    HashIndex._hash_function compute_filehash read_gray_resized cfg
    = Some f ->
    (forall p, In p before -> Py.raises (f (fo.filepath p)) = false) ->
    f (fo.filepath s) = Py.Raise e ->
    HashIndex.__init__ compute_filehash read_gray_resized samples cfg
    = (fst (HashIndex._compute_hashes_loop compute_filehash
              read_gray_resized cfg before [] (fo._dataset samples)),
       Py.Raise e)
    /\ map fo.id
         (fst (HashIndex.__init__ compute_filehash read_gray_resized
                 samples cfg))
       = map fo.id (fo._dataset samples).
Proof.
  intros cfh rgr samples cfg views f e before s after
    Hviews Hiter Hf Hbefore Hs.
  unfold HashIndex.__init__, HashIndex._compute_hashes.
  rewrite Hviews, Hiter.
  destruct (@compute_hashes_loop_first_failure cfh rgr cfg f e before s
              after Hf Hbefore Hs [] (fo._dataset samples)) as [Hrun Hids].
  rewrite Hrun. split; [reflexivity|exact Hids].
Qed.

Lemma hash_build_raises_first_fingerprint_error_witness :
  snd (HashIndex.__init__ Example.compute_filehash Example.read_gray_resized
         (fo.whole
            [Example.sample "s1" "/data/a.png" "train";
             Example.sample "s9" "/data/gone.png" "test";
             Example.sample "s6" "/copy/a.png" "test"])
         Example.cfg)
  = Py.Raise (Py.OSError "No such file or directory").
Proof.
  destruct (@hash_build_raises_first_fingerprint_error
              Example.compute_filehash Example.read_gray_resized
              (fo.whole
                 [Example.sample "s1" "/data/a.png" "train";
                  Example.sample "s9" "/data/gone.png" "test";
                  Example.sample "s6" "/copy/a.png" "test"])
              Example.cfg
              (Some
                 [fo.match_tags
                    (fo.whole
                       [Example.sample "s1" "/data/a.png" "train";
                        Example.sample "s9" "/data/gone.png" "test";
                        Example.sample "s6" "/copy/a.png" "test"])
                    ["train"];
                  fo.match_tags
                    (fo.whole
                       [Example.sample "s1" "/data/a.png" "train";
                        Example.sample "s9" "/data/gone.png" "test";
                        Example.sample "s6" "/copy/a.png" "test"])
                    ["test"]])
              Example.compute_filehash
              (Py.OSError "No such file or directory")
              [Example.sample "s1" "/data/a.png" "train"]
              (Example.sample "s9" "/data/gone.png" "test")
              [Example.sample "s6" "/copy/a.png" "test"]
              eq_refl eq_refl eq_refl) as [Hrun _].
  - intros p [<-|[]]. reflexivity.
  - reflexivity.
  - rewrite Hrun. reflexivity.
Defined.

(** X7. A method name other than ["filepath"] and ["image"] is not
    rejected by the configuration: when split resolution succeeds, the
    build raises a [TypeError] at the first sample, and on a collection
    that yields no sample it returns an index without buckets. *)
Theorem hash_build_unknown_method :
  forall compute_filehash read_gray_resized samples cfg views,
    HashIndex._method cfg <> "filepath" ->
    HashIndex._method cfg <> "image" ->
    Splits._to_views samples (HashIndex.split_views cfg)
      (HashIndex.split_field cfg) (HashIndex.split_tags cfg)
    = Py.Return views ->
    (fo.iter_samples samples <> [] ->
     HashIndex.__init__ compute_filehash read_gray_resized samples cfg
     = (fo._dataset samples,
        Py.Raise (Py.TypeError "'NoneType' object is not callable")))
    /\ (fo.iter_samples samples = [] ->
        exists idx,
          HashIndex.__init__ compute_filehash read_gray_resized samples cfg
          = (fo._dataset samples, Py.Return idx)
          /\ HashIndex._hash2ids idx = []
          /\ fo._ids (HashIndex.leaks idx) = []).
Proof.
  intros cfh rgr samples cfg views Hfile Himage Hviews.
  assert (Hnone : HashIndex._hash_function cfh rgr cfg = None).
  { unfold HashIndex._hash_function.
    apply String.eqb_neq in Hfile, Himage. now rewrite Hfile, Himage. }
  unfold HashIndex.__init__, HashIndex._compute_hashes. rewrite Hviews.
  split.
  - intros Hne. destruct (fo.iter_samples samples) as [|s rest];
      [congruence|].
    simpl. now rewrite Hnone.
  - intros Hnil. rewrite Hnil. simpl. eexists. split; [reflexivity|].
    split; reflexivity.
Qed.

Lemma hash_build_unknown_method_witness :
  HashIndex.__init__ Example.compute_filehash Example.read_gray_resized
    Example.samples
    {| HashIndex.split_views := None;
       HashIndex.split_field := None;
       HashIndex.split_tags := Some ["train"; "test"];
       HashIndex._method := "md5";
       HashIndex.hash_field := None |}
  = (Example.docs,
     Py.Raise (Py.TypeError "'NoneType' object is not callable")).
Proof.
  apply (@hash_build_unknown_method
           Example.compute_filehash Example.read_gray_resized
           Example.samples
           {| HashIndex.split_views := None;
              HashIndex.split_field := None;
              HashIndex.split_tags := Some ["train"; "test"];
              HashIndex._method := "md5";
              HashIndex.hash_field := None |}
           (Some
              [fo.match_tags Example.samples ["train"];
               fo.match_tags Example.samples ["test"]])).
  - discriminate.
  - discriminate.
  - reflexivity.
  - discriminate.
Defined.

Lemma hash_init_raises_eagerly_witness :
  HashIndex.__init__ Example.compute_filehash Example.read_gray_resized
    Example.samples
    {| HashIndex.split_views := None;
       HashIndex.split_field := None;
       HashIndex.split_tags := Some ["train"];
       HashIndex._method := "filepath";
       HashIndex.hash_field := Some "filehash" |}
  = (Example.docs, Py.Raise (Py.ValueError "Must provide at least two tags.")).
Proof.
  exact (@hash_init_raises_eagerly
           Example.compute_filehash Example.read_gray_resized Example.samples
           {| HashIndex.split_views := None;
              HashIndex.split_field := None;
              HashIndex.split_tags := Some ["train"];
              HashIndex._method := "filepath";
              HashIndex.hash_field := Some "filehash" |}
           (Py.ValueError "Must provide at least two tags.") eq_refl).
Defined.

(** ** Looking up the cluster of a sample *)

(** X9. [leaks_by_sample] returns [None] exactly when the identifier lies
    in no bucket of the index; otherwise it returns the unordered
    selection of one bucket that holds the identifier. *)
Theorem leaks_by_sample_none_iff_not_indexed :
  forall (idx : HashIndex.LeakySplitsHashIndex) (i : string),
    (HashIndex.leaks_by_sample idx (HashIndex.OfStr i) = None <->
     ~ In i (List.concat (HashIndex.values (HashIndex._hash2ids idx))))
    /\ (forall v,
           HashIndex.leaks_by_sample idx (HashIndex.OfStr i) = Some v ->
           exists id_list,
             In id_list (HashIndex.values (HashIndex._hash2ids idx))
             /\ In i id_list
             /\ v = fo.select (HashIndex._dataset idx) id_list false).
Proof.
  intros idx i. split; [split|].
  - intros Hnone Hin.
    destruct (scan_buckets_hit (HashIndex._dataset idx) _ _ Hin)
      as (l & _ & _ & Hscan).
    unfold HashIndex.leaks_by_sample in Hnone. congruence.
  - apply scan_buckets_miss.
  - intros v Hv. now apply scan_buckets_some in Hv.
Qed.

(** X10. In a successfully built index the answers of [leaks_by_sample]
    are clusters: every sample shown in the answer for one sample gets
    the very same answer. *)
Theorem leaks_by_sample_same_for_cluster_members :
  forall compute_filehash read_gray_resized samples cfg ds idx i j v,
    NoDup (fo._ids samples) ->
    HashIndex.__init__ compute_filehash read_gray_resized samples cfg
    = (ds, Py.Return idx) ->
    HashIndex.leaks_by_sample idx (HashIndex.OfStr i) = Some v ->
    In j (fo._ids v) ->
    HashIndex.leaks_by_sample idx (HashIndex.OfStr j) = Some v.
Proof.
  intros cfh rgr samples cfg ds idx i j v Hnd Hinit Hv Hj.
  destruct (init_spec cfh rgr cfg samples Hnd Hinit)
    as (_ & _ & _ & Hndc & _ & _ & _).
  apply scan_buckets_some in Hv. destruct Hv as (l & Hl & Hil & ->).
  apply select_unordered_In in Hj. destruct Hj as [Hjl _].
  assert (Hin : In j (List.concat
                        (HashIndex.values (HashIndex._hash2ids idx)))).
  { apply in_concat. eauto. }
  destruct (scan_buckets_hit (HashIndex._dataset idx) _ _ Hin)
    as (l' & Hl' & Hjl' & Hscan).
  unfold HashIndex.leaks_by_sample. rewrite Hscan.
  now rewrite (concat_NoDup_one_bucket _ l' l j Hndc Hl' Hl Hjl' Hjl).
Qed.

Lemma leaks_by_sample_same_for_cluster_members_witness :
  NoDup (fo._ids Example.samples)
  /\ HashIndex.leaks_by_sample Example.index (HashIndex.OfStr "s6")
     = HashIndex.leaks_by_sample Example.index (HashIndex.OfStr "s1").
Proof.
  assert (Hnd : NoDup (fo._ids Example.samples)).
  { repeat constructor; simpl; intuition discriminate. }
  assert (Hinit :
            HashIndex.__init__ Example.compute_filehash
              Example.read_gray_resized Example.samples Example.cfg
            = (fst Example.built, Py.Return Example.index)).
  { vm_compute. reflexivity. }
  split; [exact Hnd|].
  destruct (HashIndex.leaks_by_sample Example.index (HashIndex.OfStr "s1"))
    as [v|] eqn:Hv; [|vm_compute in Hv; discriminate].
  apply (@leaks_by_sample_same_for_cluster_members
           Example.compute_filehash Example.read_gray_resized
           Example.samples Example.cfg (fst Example.built) Example.index
           "s1" "s6" v Hnd Hinit Hv).
  vm_compute in Hv. injection Hv as <-. simpl. tauto.
Defined.

Section ClusterSizes.

Lemma filter_contains_length ids l :
  NoDup ids -> NoDup l -> (forall i, In i l -> In i ids) ->
  List.length (filter (fun i => Py.contains i l) ids) = List.length l.
Proof.
  intros Hids Hl Hsub. apply Permutation_length, NoDup_Permutation.
  - now apply NoDup_filter.
  - exact Hl.
  - intros i. rewrite filter_In, contains_In. split; [tauto|].
    intros Hi. split; [now apply Hsub|exact Hi].
Qed.

(** The number of samples an unordered selection of existing, distinct
    identifiers shows. *)
Lemma select_unordered_count ds l :
  NoDup (map fo.id ds) -> NoDup l ->
  (forall i, In i l -> fo.has_id ds i = true) ->
  fo.count (fo.select ds l false) = List.length l.
Proof.
  intros Hds Hl Hhas. unfold fo.count.
  rewrite <- (length_map fo.id), iter_samples_ids. simpl.
  rewrite filter_all.
  - apply filter_contains_length; auto.
    intros i Hi. now apply has_id_In, Hhas.
  - intros i Hi. apply filter_In in Hi. now apply has_id_In.
Qed.

Lemma concat_long_lists_length {A} (L : list (list A)) :
  Forall (fun l => 2 <= List.length l) L ->
  List.length (List.concat L) <> 1.
Proof.
  destruct 1 as [|l L Hl HL]; simpl; [lia|].
  rewrite length_app. lia.
Qed.

End ClusterSizes.

(** X11. In a successfully built index over a dataset with distinct
    document identifiers, an identifier is shown by [leaks] exactly when
    [leaks_by_sample] answers it with a view of at least two samples. *)
Theorem leak_iff_cluster_of_two :
  forall compute_filehash read_gray_resized samples cfg ds idx i,
    NoDup (map fo.id (fo._dataset samples)) ->
    NoDup (fo._ids samples) ->
    HashIndex.__init__ compute_filehash read_gray_resized samples cfg
    = (ds, Py.Return idx) ->
    (In i (fo._ids (HashIndex.leaks idx)) <->
     exists v,
       HashIndex.leaks_by_sample idx (HashIndex.OfStr i) = Some v
       /\ 2 <= fo.count v).
Proof.
  intros cfh rgr samples cfg ds idx i Hdocs Hnd Hinit.
  destruct (init_spec cfh rgr cfg samples Hnd Hinit)
    as (Hds & Hids & _ & Hndc & _ & _ & Hhas).
  rewrite <- Hds in Hhas.
  assert (Hdocs' : NoDup (map fo.id (HashIndex._dataset idx))).
  { now rewrite Hds, Hids. }
  assert (Hcount : forall l,
             In l (HashIndex.values (HashIndex._hash2ids idx)) ->
             fo.count (fo.select (HashIndex._dataset idx) l false)
             = List.length l).
  { intros l Hl. apply select_unordered_count; auto.
    - exact (NoDup_concat_member _ _ Hndc Hl).
    - intros j Hj. apply Hhas, in_concat. eauto. }
  destruct (leaks_ids_of_index idx Hndc Hhas) as [Hleak _].
  rewrite Hleak, in_concat. split.
  - intros (l & Hl & Hil). apply filter_In in Hl. destruct Hl as [Hl Hlen].
    apply Nat.leb_le in Hlen.
    assert (Hin : In i (List.concat
                          (HashIndex.values (HashIndex._hash2ids idx)))).
    { apply in_concat. eauto. }
    destruct (scan_buckets_hit (HashIndex._dataset idx) _ _ Hin)
      as (l' & Hl' & Hil' & Hscan).
    rewrite (concat_NoDup_one_bucket _ l' l i Hndc Hl' Hl Hil' Hil) in Hscan.
    eexists. split; [exact Hscan|]. now rewrite Hcount.
  - intros (v & Hv & Hlen).
    apply scan_buckets_some in Hv. destruct Hv as (l & Hl & Hil & ->).
    rewrite Hcount in Hlen by exact Hl.
    exists l. split; [|exact Hil]. apply filter_In. split; [exact Hl|].
    now apply Nat.leb_le.
Qed.

Lemma leak_iff_cluster_of_two_witness :
  NoDup (map fo.id (fo._dataset Example.samples))
  /\ NoDup (fo._ids Example.samples)
  /\ exists v,
       HashIndex.leaks_by_sample Example.index (HashIndex.OfStr "s1")
       = Some v
       /\ 2 <= fo.count v.
Proof.
  assert (Hnd : NoDup (fo._ids Example.samples)).
  { repeat constructor; simpl; intuition discriminate. }
  assert (Hinit :
            HashIndex.__init__ Example.compute_filehash
              Example.read_gray_resized Example.samples Example.cfg
            = (fst Example.built, Py.Return Example.index)).
  { vm_compute. reflexivity. }
  split; [exact Hnd|]. split; [exact Hnd|].
  apply (proj1 (@leak_iff_cluster_of_two
                  Example.compute_filehash Example.read_gray_resized
                  Example.samples Example.cfg (fst Example.built)
                  Example.index "s1" Hnd Hnd Hinit)).
  vm_compute. tauto.
Defined.

(** X12. On a successfully built hash-bucket index, what [num_leaks]
    returns is the bound [count] method of the leaks view; calling it
    gives the total size of the buckets with at least two members, which
    is never 1, and reading [num_leaks] leaves the index as it was. *)
Theorem hash_num_leaks_never_one :
  forall compute_filehash read_gray_resized samples cfg ds idx,
    NoDup (fo._ids samples) ->
    HashIndex.__init__ compute_filehash read_gray_resized samples cfg
    = (ds, Py.Return idx) ->
    exists m,
      fst (Interface.num_leaks idx) = Interface.BoundMethod m
      /\ fo.call m
         = List.length
             (List.concat
                (filter (fun id_list => 2 <=? List.length id_list)
                   (HashIndex.values (HashIndex._hash2ids idx))))
      /\ fo.call m <> 1
      /\ snd (Interface.num_leaks idx) = idx.
Proof.
  intros cfh rgr samples cfg ds idx Hnd Hinit.
  destruct (init_spec cfh rgr cfg samples Hnd Hinit)
    as (Hds & _ & _ & Hndc & _ & _ & Hhas).
  rewrite <- Hds in Hhas.
  destruct (leaks_ids_of_index idx Hndc Hhas) as [_ Hmat].
  exists (fo.bound_count (HashIndex.leaks idx)).
  assert (Hnum : fo.call (fo.bound_count (HashIndex.leaks idx))
                 = List.length
                     (List.concat
                        (filter (fun id_list => 2 <=? List.length id_list)
                           (HashIndex.values (HashIndex._hash2ids idx))))).
  { cbn [fo.call]. unfold fo.count. now rewrite <- Hmat, length_map. }
  split; [reflexivity|]. split; [exact Hnum|]. split; [|reflexivity].
  rewrite Hnum. apply concat_long_lists_length.
  apply Forall_forall. intros l Hl. apply filter_In in Hl.
  now apply Nat.leb_le.
Qed.

Lemma hash_num_leaks_never_one_witness :
  NoDup (fo._ids Example.samples)
  /\ exists m,
       fst (Interface.num_leaks Example.index) = Interface.BoundMethod m
       /\ fo.call m <> 1.
Proof.
  assert (Hnd : NoDup (fo._ids Example.samples)).
  { repeat constructor; simpl; intuition discriminate. }
  assert (Hinit :
            HashIndex.__init__ Example.compute_filehash
              Example.read_gray_resized Example.samples Example.cfg
            = (fst Example.built, Py.Return Example.index)).
  { vm_compute. reflexivity. }
  split; [exact Hnd|].
  destruct (hash_num_leaks_never_one _ _ _ _ Hnd Hinit)
    as (m & Hm & _ & Hne & _).
  exists m. split; [exact Hm|exact Hne].
Defined.

(** ** Tagging the leaks *)

Section TaggingFacts.

Import Tagging.

Lemma tag_loop_ids todo tag :
  forall ds, map fo.id (tag_loop todo tag ds) = map fo.id ds.
Proof.
  induction todo as [|s todo IH]; intros ds; simpl; [reflexivity|].
  now rewrite IH, save_ids.
Qed.

Lemma tag_loop_get todo tag :
  forall ds i,
    (forall s s', In s todo -> In s' todo -> fo.id s = fo.id s' -> s = s') ->
    fo.get_sample (tag_loop todo tag ds) i
    = match find (fun s => String.eqb (fo.id s) i) todo with
      | Some s => if fo.has_id ds i then Some (append_tag s tag) else None
      | None => fo.get_sample ds i
      end.
Proof.
  induction todo as [|s todo IH]; intros ds i Huniq; cbn [tag_loop find];
    [reflexivity|].
  rewrite IH by (intros; apply Huniq; simpl; auto).
  rewrite has_id_save, get_sample_save.
  change (fo.id (append_tag s tag)) with (fo.id s).
  destruct (fo.id s =? i)%string eqn:Hsi; [|reflexivity].
  destruct (find (fun s0 => (fo.id s0 =? i)%string) todo) as [s'|] eqn:Hfind;
    [|reflexivity].
  apply find_some in Hfind. destruct Hfind as [Hin Heq].
  apply String.eqb_eq in Heq, Hsi.
  assert (s' = s) by (apply Huniq; [now right|now left|congruence]).
  now subst s'.
Qed.

(** One call of [tag_leaks] on an index whose buckets repeat no
    identifier and hold identifiers of the dataset. *)
Lemma tag_leaks_once idx tag :
  NoDup (List.concat (HashIndex.values (HashIndex._hash2ids idx))) ->
  (forall i, In i (List.concat (HashIndex.values (HashIndex._hash2ids idx)))
             -> fo.has_id (HashIndex._dataset idx) i = true) ->
  map fo.id (HashIndex._dataset (tag_leaks idx tag))
  = map fo.id (HashIndex._dataset idx)
  /\ fo._ids (HashIndex.leaks (tag_leaks idx tag))
     = fo._ids (HashIndex.leaks idx)
  /\ (forall i d,
         fo.get_sample (HashIndex._dataset idx) i = Some d ->
         fo.get_sample (HashIndex._dataset (tag_leaks idx tag)) i
         = Some (if Py.contains i (fo._ids (HashIndex.leaks idx))
                 then append_tag d tag
                 else d)).
Proof.
  intros Hndc Hhas.
  destruct (leaks_ids_of_index idx Hndc Hhas) as [Hleak Hmat].
  assert (Hids : map fo.id (HashIndex._dataset (tag_leaks idx tag))
                 = map fo.id (HashIndex._dataset idx)).
  { apply tag_loop_ids. }
  split; [exact Hids|]. split.
  - unfold HashIndex.leaks. cbn [fo.select fo._ids].
    apply filter_ext. intros i. now apply has_id_ext.
  - intros i d Hd. cbn [tag_leaks HashIndex._dataset].
    rewrite tag_loop_get.
    + destruct (find (fun s => (fo.id s =? i)%string)
                  (fo.iter_samples (HashIndex.leaks idx)))
        as [s|] eqn:Hfind.
      * apply find_some in Hfind. destruct Hfind as [Hs Heq].
        apply String.eqb_eq in Heq.
        pose proof (iter_samples_get _ _ Hs) as Hget.
        change (fo._dataset (HashIndex.leaks idx))
          with (HashIndex._dataset idx) in Hget.
        rewrite Heq, Hd in Hget. injection Hget as ->.
        assert (Hin : In i (fo._ids (HashIndex.leaks idx))).
        { rewrite Hleak, <- Hmat, <- Heq. now apply in_map. }
        apply contains_In in Hin. rewrite Hin.
        assert (Hh : fo.has_id (HashIndex._dataset idx) i = true).
        { apply has_id_In. apply get_sample_some in Hd.
          destruct Hd as [Hd <-]. now apply in_map. }
        now rewrite Hh.
      * destruct (Py.contains i (fo._ids (HashIndex.leaks idx))) eqn:Hc;
          [|exact Hd].
        exfalso. apply contains_In in Hc. rewrite Hleak, <- Hmat in Hc.
        apply in_map_iff in Hc. destruct Hc as (s & Hid & Hs).
        eapply find_none in Hfind; [|exact Hs].
        rewrite Hid, String.eqb_refl in Hfind. discriminate.
    + intros s s' Hs Hs' Heq. apply iter_samples_get in Hs, Hs'.
      rewrite Heq in Hs. congruence.
Qed.

End TaggingFacts.

(** X13. [tag_leaks] appends the tag to exactly the samples [leaks] shows
    and leaves every other document, the buckets and the leaks as they
    were.  It does not deduplicate: after a second call a leaked sample
    carries the tag twice more than before the first. *)
Theorem tag_leaks_tags_exactly_the_leaks :
  forall (idx : HashIndex.LeakySplitsHashIndex) (tag : string),
    NoDup (List.concat (HashIndex.values (HashIndex._hash2ids idx))) ->
    (forall i,
        In i (List.concat (HashIndex.values (HashIndex._hash2ids idx))) ->
        fo.has_id (HashIndex._dataset idx) i = true) ->
    HashIndex._hash2ids (Tagging.tag_leaks idx tag)
    = HashIndex._hash2ids idx
    /\ fo._ids (HashIndex.leaks (Tagging.tag_leaks idx tag))
       = fo._ids (HashIndex.leaks idx)
    /\ (forall i d,
           fo.get_sample (HashIndex._dataset idx) i = Some d ->
           fo.get_sample (HashIndex._dataset (Tagging.tag_leaks idx tag)) i
           = Some (if Py.contains i (fo._ids (HashIndex.leaks idx))
                   then Tagging.append_tag d tag
                   else d))
    /\ (forall i d,
           fo.get_sample (HashIndex._dataset idx) i = Some d ->
           In i (fo._ids (HashIndex.leaks idx)) ->
           option_map fo.tags
             (fo.get_sample
                (HashIndex._dataset
                   (Tagging.tag_leaks (Tagging.tag_leaks idx tag) tag)) i)
           = Some (fo.tags d ++ [tag; tag])).
Proof.
  intros idx tag Hndc Hhas.
  destruct (tag_leaks_once idx tag Hndc Hhas) as (Hids & Hleaks & Hget).
  split; [reflexivity|]. split; [exact Hleaks|]. split; [exact Hget|].
  intros i d Hd Hin.
  assert (Hhas' : forall j,
             In j (List.concat
                     (HashIndex.values
                        (HashIndex._hash2ids (Tagging.tag_leaks idx tag)))) ->
             fo.has_id (HashIndex._dataset (Tagging.tag_leaks idx tag)) j
             = true).
  { intros j Hj. rewrite (has_id_ext _ _ j Hids). now apply Hhas. }
  destruct (tag_leaks_once (Tagging.tag_leaks idx tag) tag Hndc Hhas')
    as (_ & _ & Hget').
  apply contains_In in Hin.
  specialize (Hget i d Hd). rewrite Hin in Hget.
  rewrite (Hget' _ _ Hget), Hleaks, Hin. simpl.
  now rewrite <- app_assoc.
Qed.

Lemma tag_leaks_tags_exactly_the_leaks_witness :
  option_map fo.tags
    (fo.get_sample
       (HashIndex._dataset
          (Tagging.tag_leaks
             (Tagging.tag_leaks Example.index Tagging.default_tag)
             Tagging.default_tag)) "s6")
  = Some ["test"; "leak"; "leak"].
Proof.
  assert (Hndc : NoDup
                   (List.concat
                      (HashIndex.values
                         (HashIndex._hash2ids Example.index)))).
  { vm_compute. repeat constructor; simpl; intuition discriminate. }
  assert (Hhas : forall i,
             In i (List.concat
                     (HashIndex.values
                        (HashIndex._hash2ids Example.index))) ->
             fo.has_id (HashIndex._dataset Example.index) i = true).
  { intros i Hi. vm_compute in Hi.
    repeat (destruct Hi as [<-|Hi]; [reflexivity|]). destruct Hi. }
  destruct (tag_leaks_tags_exactly_the_leaks Example.index
              Tagging.default_tag Hndc Hhas) as (_ & _ & _ & Htwice).
  destruct (fo.get_sample (HashIndex._dataset Example.index) "s6")
    as [d|] eqn:Hd; [|vm_compute in Hd; discriminate].
  rewrite (Htwice "s6" d Hd) by (vm_compute; tauto).
  vm_compute in Hd. injection Hd as <-. reflexivity.
Defined.

(** ** More on the image fingerprint *)

Section ImageHashMore.

Import Py ImageHash.

Lemma row_diff_cons2 a b r :
  row_diff (a :: b :: r) = (b >? a)%Z :: row_diff (b :: r).
Proof. reflexivity. Qed.

Lemma row_diff_map (g : Z -> Z) :
  (forall x y, (x < y)%Z -> (g x < g y)%Z) ->
  forall r, row_diff (map g r) = row_diff r.
Proof.
  intros Hg. induction r as [|a r IH]; [reflexivity|].
  destruct r as [|b r]; [reflexivity|].
  change (map g (a :: b :: r)) with (g a :: g b :: map g r).
  rewrite !row_diff_cons2. f_equal; [|exact IH].
  destruct (Z.gtb_spec b a) as [Hlt|Hge].
  - apply Hg in Hlt. now apply Z.gtb_lt.
  - destruct (Z.gtb_spec (g b) (g a)) as [Hlt'|_]; [|reflexivity].
    destruct (Z.eq_dec b a) as [->|Hne]; [lia|].
    assert (Hba : (b < a)%Z) by lia. apply Hg in Hba. lia.
Qed.

Lemma bits_value_acc_inj b1 :
  forall b2 a1 a2,
    List.length b1 = List.length b2 ->
    bits_value_acc b1 a1 = bits_value_acc b2 a2 ->
    a1 = a2 /\ b1 = b2.
Proof.
  induction b1 as [|x b1 IH]; intros [|y b2] a1 a2 Hlen Hval;
    simpl in Hlen; try discriminate.
  - auto.
  - cbn [bits_value_acc] in Hval.
    destruct (IH b2 _ _ (eq_add_S _ _ Hlen) Hval) as [Hacc ->].
    destruct x, y; split; try f_equal; lia.
Qed.

Lemma app_inj_length {A} (l1 l2 r1 r2 : list A) :
  List.length l1 = List.length l2 ->
  l1 ++ r1 = l2 ++ r2 -> l1 = l2 /\ r1 = r2.
Proof.
  revert l2. induction l1 as [|a l1 IH]; intros [|b l2] Hlen Heq;
    simpl in *; try discriminate; auto.
  injection Heq as -> Heq. destruct (IH l2 (eq_add_S _ _ Hlen) Heq).
  now subst.
Qed.

Lemma concat_inj_uniform {A} cols (d1 : list (list A)) :
  forall d2,
    List.length d1 = List.length d2 ->
    Forall (fun r => List.length r = cols) d1 ->
    Forall (fun r => List.length r = cols) d2 ->
    List.concat d1 = List.concat d2 -> d1 = d2.
Proof.
  induction d1 as [|r1 d1 IH]; intros [|r2 d2] Hlen H1 H2 Heq;
    simpl in Hlen; try discriminate; [reflexivity|].
  inversion H1; inversion H2; subst. simpl in Heq.
  apply app_inj_length in Heq; [|congruence].
  destruct Heq as [-> Heq]. f_equal. apply IH; auto.
Qed.

End ImageHashMore.

(** X14. For one hash size and two matrices of the shape the resize step
    produces, the fingerprints are equal exactly when all comparisons
    [pixel[i][j+1] > pixel[i][j]] agree: the hexadecimal encoding loses
    nothing and adds nothing. *)
Theorem dhash_equal_iff_same_comparisons :
  forall hash_size m1 m2,
    0 < hash_size ->
    ImageHash.has_shape hash_size (hash_size + 1) m1 ->
    ImageHash.has_shape hash_size (hash_size + 1) m2 ->
    (ImageHash.dhash hash_size m1 = ImageHash.dhash hash_size m2 <->
     ImageHash.diff m1 = ImageHash.diff m2).
Proof.
  intros hs m1 m2 Hpos Hs1 Hs2. rewrite Nat.add_1_r in Hs1, Hs2.
  destruct (diff_shape Hs1) as [Hr1 Hc1].
  destruct (diff_shape Hs2) as [Hr2 Hc2].
  pose proof (concat_length_uniform Hc1) as Hl1. rewrite Hr1 in Hl1.
  pose proof (concat_length_uniform Hc2) as Hl2. rewrite Hr2 in Hl2.
  split.
  - assert (Hne1 : ImageHash.flatten (ImageHash.diff m1) <> []).
    { intros Heq. unfold ImageHash.flatten in Heq. rewrite Heq in Hl1.
      simpl in Hl1. nia. }
    assert (Hne2 : ImageHash.flatten (ImageHash.diff m2) <> []).
    { intros Heq. unfold ImageHash.flatten in Heq. rewrite Heq in Hl2.
      simpl in Hl2. nia. }
    unfold ImageHash.dhash.
    rewrite (int_base2_binary Hne1), (int_base2_binary Hne2).
    cbn [Py.bind]. intros Heq. injection Heq as Heq.
    apply (f_equal ImageHash.hex_value) in Heq.
    rewrite !hex_value_format_0x in Heq. injection Heq as Heq.
    unfold ImageHash.bits_value in Heq.
    apply bits_value_acc_inj in Heq;
      [|unfold ImageHash.flatten; congruence].
    destruct Heq as [_ Heq].
    apply (concat_inj_uniform (cols := hs)); auto. congruence.
  - intros Heq. unfold ImageHash.dhash. now rewrite Heq.
Qed.

Lemma dhash_equal_iff_same_comparisons_witness :
  0 < 3
  /\ ImageHash.has_shape 3 (3 + 1) Example.ramp3
  /\ ImageHash.has_shape 3 (3 + 1) Example.flat3
  /\ ImageHash.diff Example.ramp3 <> ImageHash.diff Example.flat3.
Proof.
  assert (Hramp : ImageHash.has_shape 3 (3 + 1) Example.ramp3).
  { split; [reflexivity|]. repeat constructor. }
  assert (Hflat : ImageHash.has_shape 3 (3 + 1) Example.flat3).
  { split; [reflexivity|]. repeat constructor. }
  split; [lia|]. split; [exact Hramp|]. split; [exact Hflat|].
  intros Heq.
  apply (proj2 (@dhash_equal_iff_same_comparisons 3 Example.ramp3
                  Example.flat3 (Nat.lt_0_succ 2) Hramp Hflat)) in Heq.
  vm_compute in Heq. discriminate.
Defined.

(** X15. The fingerprint depends on the pixels only through their order:
    applying one strictly increasing map to every pixel (brighter, more
    contrast) leaves the fingerprint, or the error, unchanged. *)
Theorem dhash_invariant_under_increasing_map :
  forall (g : Z -> Z) hash_size resized,
    (forall x y, (x < y)%Z -> (g x < g y)%Z) ->
    ImageHash.dhash hash_size (map (map g) resized)
    = ImageHash.dhash hash_size resized.
Proof.
  intros g hs m Hg. unfold ImageHash.dhash, ImageHash.diff.
  rewrite map_map.
  rewrite (map_ext (fun r => ImageHash.row_diff (map g r))
             ImageHash.row_diff (row_diff_map g Hg)).
  reflexivity.
Qed.

Lemma dhash_invariant_under_increasing_map_witness :
  ImageHash.dhash 3 (map (map (fun x => 2 * x + 10)%Z) Example.ramp3)
  = ImageHash.dhash 3 Example.ramp3.
Proof.
  apply (dhash_invariant_under_increasing_map (fun x => 2 * x + 10)%Z).
  intros x y Hxy. lia.
Defined.

(** X16. The fingerprint computation raises exactly when there is nothing
    to compare (no row, or rows of at most one pixel): the empty bit
    string is not a number. *)
Theorem dhash_raises_iff_no_comparison :
  forall hash_size resized,
    Py.raises (ImageHash.dhash hash_size resized) = true <->
    ImageHash.flatten (ImageHash.diff resized) = [].
Proof.
  intros hs m. unfold ImageHash.dhash.
  destruct (ImageHash.flatten (ImageHash.diff m)) as [|b bits] eqn:Hbits.
  - simpl. tauto.
  - assert (Hne : b :: bits <> []) by discriminate.
    rewrite (int_base2_binary Hne). cbn [Py.bind Py.raises].
    split; discriminate.
Qed.

Lemma dhash_length_any_size_witness :
  0 < 3
  /\ ImageHash.has_shape 3 (3 + 1) Example.flat3
  /\ exists h,
       ImageHash.dhash 3 Example.flat3 = Py.Return h
       /\ 3 * 3 / 4 <= String.length h <= 3 * 3 / 4 + 1.
Proof.
  assert (Hflat : ImageHash.has_shape 3 (3 + 1) Example.flat3).
  { split; [reflexivity|]. repeat constructor. }
  split; [lia|]. split; [exact Hflat|].
  exact (@dhash_length_any_size 3 Example.flat3 (Nat.lt_0_succ 2) Hflat).
Defined.

(** ** More on the embedding-similarity index *)

Lemma leaks_second_access_witness :
  fo.truthy
    (fst (Example.skl_leaks
            (snd (SKLIndex.set_threshold (10 # 1) Example.skl_index))))
  = true
  /\ Example.skl_leaks
       (snd (Example.skl_leaks
               (snd (SKLIndex.set_threshold (10 # 1) Example.skl_index))))
     = Example.skl_leaks
         (snd (SKLIndex.set_threshold (10 # 1) Example.skl_index)).
Proof.
  assert (Ht : fo.truthy
                 (fst (Example.skl_leaks
                         (snd (SKLIndex.set_threshold (10 # 1)
                                 Example.skl_index)))) = true).
  { vm_compute. reflexivity. }
  split; [exact Ht|].
  exact (@leaks_second_access _ _
           (SKLIndex.counting_backend Example.far_apart)
           (snd (SKLIndex.set_threshold (10 # 1) Example.skl_index)) Ht).
Defined.

Lemma leaks_after_set_threshold_witness :
  fst (Example.skl_leaks
         (snd (SKLIndex.set_threshold (1 # 2)
                 (snd (Example.skl_leaks
                         (snd (SKLIndex.set_threshold (10 # 1)
                                 Example.skl_index)))))))
  = fst (Example.skl_leaks
           (snd (Example.skl_leaks
                   (snd (SKLIndex.set_threshold (10 # 1)
                           Example.skl_index))))).
Proof.
  apply (@leaks_after_set_threshold _ _
           (SKLIndex.counting_backend Example.far_apart)
           (snd (Example.skl_leaks
                   (snd (SKLIndex.set_threshold (10 # 1)
                           Example.skl_index))))
           (fst (Example.skl_leaks
                   (snd (SKLIndex.set_threshold (10 # 1)
                           Example.skl_index))))
           (1 # 2)).
  - vm_compute. reflexivity.
  - vm_compute. reflexivity.
Defined.

(** ** More on the uniqueness scores *)

(** X18. [_compute_uniqueness] raises exactly when there are fewer than
    [K + 1 = 4] embeddings; from four on it always returns scores. *)
Theorem compute_uniqueness_raises_iff_too_few :
  forall (E : Type) (metric : E -> E -> Q) (embeddings : list E),
    Py.raises (Uniqueness._compute_uniqueness metric embeddings) = true <->
    List.length embeddings < 4.
Proof.
  intros E metric embeddings. split.
  - intros Hr. destruct (Nat.lt_ge_cases (List.length embeddings) 4)
      as [Hlt|Hge]; [exact Hlt|].
    destruct (@compute_uniqueness_steps E metric embeddings Hge)
      as (m & _ & Hrun).
    rewrite Hrun in Hr. discriminate.
  - intros Hlt. unfold Uniqueness._compute_uniqueness, Uniqueness.kneighbors.
    assert (Hk : (List.length embeddings <? Uniqueness.K + 1) = true).
    { apply Nat.ltb_lt. simpl. lia. }
    now rewrite Hk.
Qed.

Section UniquenessDegenerate.

Import Py Uniqueness.

Local Open Scope Q_scope.

Lemma sum_all_zero l : (forall y, In y l -> y == 0) -> sum l == 0.
Proof.
  induction l as [|a l IH]; simpl; intros Hl; [reflexivity|].
  rewrite (Hl a (or_introl eq_refl)), IH; [lra|].
  intros y Hy. apply Hl. now right.
Qed.

Lemma mean_times_all_zero l w :
  (forall y, In y l -> y == 0) -> mean (times l w) == 0.
Proof.
  intros Hl. unfold mean. rewrite sum_all_zero.
  - unfold Qdiv. lra.
  - intros y Hy. unfold times in Hy. apply in_map_iff in Hy.
    destruct Hy as ([d c] & <- & Hin). simpl.
    apply in_combine_l in Hin. rewrite (Hl d Hin). lra.
Qed.

Lemma np_divide_zero_zero x m : x == 0 -> m == 0 -> np_divide x m = NaN.
Proof.
  intros Hx Hm. unfold np_divide.
  now rewrite (Qeq_eq_bool _ _ Hm), (Qeq_eq_bool _ _ Hx).
Qed.

End UniquenessDegenerate.

(** X19. When all of at least four embeddings are at distance zero from
    one another, the maximum the scores are divided by is zero and every
    score is not-a-number: the division is not guarded. *)
Theorem compute_uniqueness_all_equal_gives_nan :
  forall (E : Type) (metric : E -> E -> Q) (embeddings : list E),
    4 <= List.length embeddings ->
    (forall x y, In x embeddings -> In y embeddings -> (metric x y == 0)%Q) ->
    exists scores,
      Uniqueness._compute_uniqueness metric embeddings = Py.Return scores
      /\ List.length scores = List.length embeddings
      /\ Forall (fun score => score = Uniqueness.NaN) scores.
Proof.
  intros E metric embeddings Hlen Hzero.
  destruct (@compute_uniqueness_steps E metric embeddings Hlen)
    as (m & Hmax & Hrun).
  assert (Hraw : forall x,
             In x embeddings ->
             (Uniqueness.mean
                (Uniqueness.times
                   (tl (firstn (Uniqueness.K + 1)
                          (Uniqueness.sort (map (metric x) embeddings))))
                   Uniqueness.weights) == 0)%Q).
  { intros x Hx. apply mean_times_all_zero. intros y Hy.
    apply In_tl, In_firstn in Hy. apply (proj1 (sort_In _ _)) in Hy.
    apply in_map_iff in Hy. destruct Hy as (z & <- & Hz). now apply Hzero. }
  apply max_of_spec in Hmax. destruct Hmax as [Hin _].
  apply in_map_iff in Hin. destruct Hin as (x0 & Hm & Hx0).
  assert (Hmzero : (m == 0)%Q) by (rewrite <- Hm; now apply Hraw).
  eexists. split; [exact Hrun|]. split; [now rewrite length_map|].
  apply Forall_forall. intros score Hscore.
  apply in_map_iff in Hscore. destruct Hscore as (x & <- & Hx).
  apply np_divide_zero_zero; [now apply Hraw|exact Hmzero].
Qed.

Lemma compute_uniqueness_all_equal_gives_nan_witness :
  exists scores,
    Uniqueness._compute_uniqueness Example.line_metric [2; 2; 2; 2; 2]%Q
    = Py.Return scores
    /\ List.length scores = 5
    /\ Forall (fun score => score = Uniqueness.NaN) scores.
Proof.
  apply (@compute_uniqueness_all_equal_gives_nan
           Q Example.line_metric [2; 2; 2; 2; 2]%Q).
  - simpl. lia.
  - intros x y Hx Hy. simpl in Hx, Hy.
    repeat (destruct Hx as [<-|Hx]; [|]); try contradiction;
      repeat (destruct Hy as [<-|Hy]; [|]); try contradiction;
      reflexivity.
Defined.

(** ** Preparing the data of the uniqueness path *)

Section LoaderFacts.

Import Py Loaders.

Variable exists_on_disk : string -> bool.
Variable to_detection : Polyline -> Detection.
Variable allowed_names : string.

Lemma validate_returns_iff sample :
  _validate exists_on_disk sample = Return tt <->
  exists_on_disk (filepath sample) = true /\ media_type sample = IMAGE.
Proof.
  unfold _validate.
  destruct (exists_on_disk (filepath sample)); simpl.
  - destruct (String.eqb_spec (media_type sample) IMAGE); simpl;
      split; auto; try discriminate. intros [_ ?]. contradiction.
  - split; [discriminate|]. intros [? _]. discriminate.
Qed.

Lemma validate_result sample :
  _validate exists_on_disk sample = Return tt
  \/ exists e, _validate exists_on_disk sample = Raise e.
Proof.
  destruct (_validate exists_on_disk sample) as [[]|e]; eauto.
Qed.

Lemma make_patch_data_loader_app before rest roi_field r :
  _make_patch_data_loader exists_on_disk to_detection allowed_names
    before roi_field = Return r ->
  _make_patch_data_loader exists_on_disk to_detection allowed_names
    (before ++ rest) roi_field
  = (tail <- _make_patch_data_loader exists_on_disk to_detection
               allowed_names rest roi_field ;;
     Return (fst r ++ fst tail, snd r ++ snd tail)).
Proof.
  revert r. induction before as [|p before IH]; intros r; simpl.
  - intros Hr. injection Hr as <-. simpl.
    destruct (_make_patch_data_loader exists_on_disk to_detection
                allowed_names rest roi_field) as [[ps rs]|e];
      reflexivity.
  - destruct (_validate exists_on_disk p) as [[]|e]; [|discriminate].
    simpl.
    destruct (_parse_rois to_detection allowed_names p roi_field)
      as [rois|e]; [|discriminate].
    simpl.
    destruct (_make_patch_data_loader exists_on_disk to_detection
                allowed_names before roi_field) as [r0|e] eqn:Hr0;
      [|discriminate].
    simpl. intros Hr. injection Hr as <-.
    rewrite (IH r0 eq_refl). cbn [fst snd].
    destruct (_make_patch_data_loader exists_on_disk to_detection
                allowed_names rest roi_field) as [tail|e];
      reflexivity.
Qed.

End LoaderFacts.

(** X21. [_make_data_loader] returns exactly when every sample's file
    exists on disk and every sample is an image, and then it returns the
    file paths of the samples in their order. *)
Theorem make_data_loader_returns_iff_all_valid :
  forall exists_on_disk samples image_paths,
    Loaders._make_data_loader exists_on_disk samples
    = Py.Return image_paths <->
    (forall s,
        In s samples ->
        exists_on_disk (Loaders.filepath s) = true
        /\ Loaders.media_type s = Loaders.IMAGE)
    /\ image_paths = map Loaders.filepath samples.
Proof.
  intros ex samples. induction samples as [|s samples IH];
    intros paths; simpl.
  - split.
    + intros Heq. injection Heq as <-. split; [intros s []|reflexivity].
    + intros [_ ->]. reflexivity.
  - destruct (validate_result ex s) as [Hv|[e Hv]]; rewrite Hv; simpl.
    + apply validate_returns_iff in Hv.
      destruct (Loaders._make_data_loader ex samples) as [rest|e] eqn:Hrest;
        simpl.
      * destruct (proj1 (IH rest) eq_refl) as [Hall ->]. split.
        -- intros Heq. injection Heq as <-. split; [|reflexivity].
           intros s' [<-|Hs']; auto.
        -- intros [_ ->]. reflexivity.
      * split; [discriminate|]. intros [Hall ->].
        assert (Hok : Py.Raise e
                      = Py.Return (map Loaders.filepath samples)).
        { apply IH. split; [|reflexivity]. intros s' Hs'. apply Hall.
          now right. }
        discriminate.
    + split; [discriminate|]. intros [Hall _].
      assert (Hok : Loaders._validate ex s = Py.Return tt).
      { apply validate_returns_iff, Hall. now left. }
      congruence.
Qed.

(** X22. When [_make_patch_data_loader] returns, the image paths are the
    file paths of the samples in their order, every sample passed
    validation, and each image has its parsed regions of interest beside
    it, the whole image standing in for an empty list: no image is left
    without a region. *)
Theorem make_patch_data_loader_regions :
  forall exists_on_disk to_detection allowed_names samples roi_field
         image_paths detections,
    Loaders._make_patch_data_loader exists_on_disk to_detection
      allowed_names samples roi_field
    = Py.Return (image_paths, detections) ->
    image_paths = map Loaders.filepath samples
    /\ detections
       = map
           (fun s =>
              match Loaders._parse_rois to_detection allowed_names s
                      roi_field with
              | Py.Return (d :: rois) => d :: rois
              | _ => [Loaders.whole_image]
              end)
           samples
    /\ Forall (fun rois => rois <> []) detections
    /\ (forall s,
           In s samples ->
           exists_on_disk (Loaders.filepath s) = true
           /\ Loaders.media_type s = Loaders.IMAGE
           /\ Py.raises
                (Loaders._parse_rois to_detection allowed_names s roi_field)
              = false).
Proof.
  intros ex td names samples roi.
  induction samples as [|s samples IH]; intros paths dets; simpl.
  - intros Heq. injection Heq as <- <-.
    split; [reflexivity|]. split; [reflexivity|]. split; [constructor|].
    intros s0 [].
  - destruct (validate_result ex s) as [Hv|[e Hv]]; rewrite Hv; simpl;
      [|discriminate].
    apply validate_returns_iff in Hv.
    destruct (Loaders._parse_rois td names s roi) as [rois|e] eqn:Hp;
      simpl; [|discriminate].
    destruct (Loaders._make_patch_data_loader ex td names samples roi)
      as [[ps rs]|e] eqn:Hrest; simpl; [|discriminate].
    intros Heq. injection Heq as <- <-.
    destruct (IH ps rs eq_refl) as (-> & -> & Hne & Hall).
    split; [reflexivity|]. split; [|split].
    + f_equal. now destruct rois.
    + constructor; [destruct rois; discriminate|exact Hne].
    + intros s' [<-|Hs'].
      * destruct Hv. rewrite Hp. auto.
      * now apply Hall.
Qed.

Lemma make_patch_data_loader_regions_witness :
  Loaders._make_patch_data_loader (fun _ => true)
    (fun _ => Loaders.whole_image) "{...}"
    [ {| Loaders.id := "s1"; Loaders.filepath := "/data/a.png";
         Loaders.media_type := "image";
         Loaders.label := fun _ => Loaders.OfDetections [] |} ]
    "ground_truth"
  = Py.Return (["/data/a.png"], [[Loaders.whole_image]])
  /\ Forall (fun rois => rois <> []) [[Loaders.whole_image]].
Proof.
  assert (Hrun :
            Loaders._make_patch_data_loader (fun _ => true)
              (fun _ => Loaders.whole_image) "{...}"
              [ {| Loaders.id := "s1"; Loaders.filepath := "/data/a.png";
                   Loaders.media_type := "image";
                   Loaders.label := fun _ => Loaders.OfDetections [] |} ]
              "ground_truth"
            = Py.Return (["/data/a.png"], [[Loaders.whole_image]])).
  { reflexivity. }
  split; [exact Hrun|].
  exact (proj1 (proj2 (proj2 (make_patch_data_loader_regions _ _ _ _ _ Hrun)))).
Defined.

(** X23. Both checks of a sample come before the samples after it, and
    validation before the parsing of its regions: when the samples before
    it load, a sample that fails validation makes
    [_make_patch_data_loader] raise the validation error whatever its
    label is, and one that passes validation but has no valid label makes
    it raise the error of [_parse_rois]. *)
Theorem make_patch_data_loader_first_error :
  forall exists_on_disk to_detection allowed_names before s after
         roi_field r e,
    Loaders._make_patch_data_loader exists_on_disk to_detection
      allowed_names before roi_field = Py.Return r ->
    (Loaders._validate exists_on_disk s = Py.Raise e
     \/ (Loaders._validate exists_on_disk s = Py.Return tt
         /\ Loaders._parse_rois to_detection allowed_names s roi_field
            = Py.Raise e)) ->
    Loaders._make_patch_data_loader exists_on_disk to_detection
      allowed_names (before ++ s :: after) roi_field
    = Py.Raise e.
Proof.
  intros ex td names before s after roi r e Hbefore Hfail.
  rewrite (@make_patch_data_loader_app ex td names before (s :: after)
             roi r Hbefore).
  simpl. destruct Hfail as [Hv|[Hv Hp]]; rewrite Hv; simpl;
    [reflexivity|].
  now rewrite Hp.
Qed.

Lemma make_patch_data_loader_first_error_witness :
  Loaders._make_patch_data_loader
    (fun path => String.eqb path "/data/a.png")
    (fun _ => Loaders.whole_image) "{...}"
    ([ {| Loaders.id := "s1"; Loaders.filepath := "/data/a.png";
          Loaders.media_type := "image";
          Loaders.label := fun _ => Loaders.OfDetections [] |} ]
     ++ {| Loaders.id := "s2"; Loaders.filepath := "/data/gone.png";
           Loaders.media_type := "image";
           Loaders.label := fun _ => Loaders.OfOther "Classification" |}
     :: [])
    "ground_truth"
  = Py.Raise
      (Py.ValueError
         "Sample 's2' source media '/data/gone.png' does not exist on disk").
Proof.
  apply (@make_patch_data_loader_first_error
           (fun path => String.eqb path "/data/a.png")
           (fun _ => Loaders.whole_image) "{...}"
           [ {| Loaders.id := "s1"; Loaders.filepath := "/data/a.png";
                Loaders.media_type := "image";
                Loaders.label := fun _ => Loaders.OfDetections [] |} ]
           {| Loaders.id := "s2"; Loaders.filepath := "/data/gone.png";
              Loaders.media_type := "image";
              Loaders.label := fun _ => Loaders.OfOther "Classification" |}
           [] "ground_truth"
           (["/data/a.png"], [[Loaders.whole_image]])).
  - reflexivity.
  - left. reflexivity.
Defined.

Section EmbeddingFacts.

Import Loaders.

Variables Img Vec : Type.
Variable embed_all : list Img -> list Vec.
Variable mean_axis0 : list Vec -> Vec.

Lemma compute_embeddings_loop_some data_loader :
  forall e,
    _compute_embeddings_loop embed_all data_loader (Some e)
    = Some (e ++ List.concat (map embed_all data_loader)).
Proof.
  induction data_loader as [|imgs rest IH]; intros e; simpl.
  - now rewrite app_nil_r.
  - rewrite IH. unfold vstack. now rewrite app_assoc.
Qed.

Lemma batches_fuel_concat batch_size fuel :
  0 < batch_size ->
  forall items : list Img,
    List.length items <= fuel ->
    List.concat (batches_fuel fuel batch_size items) = items.
Proof.
  intros Hpos. induction fuel as [|fuel IH]; intros items Hlen; simpl.
  - destruct items; [reflexivity|simpl in Hlen; lia].
  - destruct items as [|x items]; [reflexivity|].
    cbn [List.concat]. rewrite IH.
    + apply firstn_skipn.
    + rewrite length_skipn. cbn [List.length] in *. lia.
Qed.

Lemma batches_nil_iff batch_size (items : list Img) :
  batches batch_size items = [] <-> items = [].
Proof.
  unfold batches. destruct items; simpl; split; auto; discriminate.
Qed.

Lemma compute_patch_embeddings_loop_matrix data_loader :
  forall rows,
    _compute_patch_embeddings_loop embed_all mean_axis0 data_loader
      (Some (Matrix2D rows))
    = Some
        (Matrix2D
           (rows ++ map (fun patches => mean_axis0 (embed_all patches))
                      data_loader)).
Proof.
  induction data_loader as [|patches rest IH]; intros rows; simpl.
  - now rewrite app_nil_r.
  - rewrite IH. now rewrite <- app_assoc.
Qed.

End EmbeddingFacts.

(** X24. [_compute_embeddings] returns [None] when the loader yields no
    batch and otherwise the vectors of all batches stacked in order; with
    a loader that cuts the images into consecutive batches and a model
    that embeds each image on its own, row [i] is the embedding of image
    [i], whatever the batch size. *)
Theorem compute_embeddings_rows_follow_images :
  forall (Img Vec : Type) (embed_all : list Img -> list Vec)
         (embed : Img -> Vec) (batch_size : nat) (images : list Img),
    0 < batch_size ->
    (forall batch, embed_all batch = map embed batch) ->
    (forall data_loader,
        Loaders._compute_embeddings embed_all data_loader
        = match data_loader with
          | [] => None
          | _ => Some (List.concat (map embed_all data_loader))
          end)
    /\ Loaders._compute_embeddings embed_all
         (Loaders.batches batch_size images)
       = match images with
         | [] => None
         | _ => Some (map embed images)
         end.
Proof.
  intros Img Vec embed_all embed n images Hpos Hembed.
  assert (Hgen : forall data_loader,
             Loaders._compute_embeddings embed_all data_loader
             = match data_loader with
               | [] => None
               | _ => Some (List.concat (map embed_all data_loader))
               end).
  { intros [|imgs rest]; [reflexivity|].
    unfold Loaders._compute_embeddings. simpl.
    apply compute_embeddings_loop_some. }
  split; [exact Hgen|]. rewrite Hgen.
  destruct (Loaders.batches n images) as [|b bs] eqn:Hb.
  - apply batches_nil_iff in Hb. now subst images.
  - destruct images as [|x images]; [discriminate|].
    rewrite <- Hb. f_equal.
    rewrite (map_ext embed_all (map embed) Hembed), <- concat_map.
    f_equal. unfold Loaders.batches.
    now apply batches_fuel_concat.
Qed.

Lemma compute_embeddings_rows_follow_images_witness :
  Loaders._compute_embeddings (map (fun n => n * n))
    (Loaders.batches 2 [1; 2; 3; 4; 5])
  = Some [1; 4; 9; 16; 25].
Proof.
  exact (proj2 (@compute_embeddings_rows_follow_images
                  nat nat (map (fun n => n * n)) (fun n => n * n) 2
                  [1; 2; 3; 4; 5] (Nat.lt_0_succ 1) (fun b => eq_refl))).
Defined.

(** X25. [_compute_patch_embeddings] returns [None] for no image, a bare
    vector (the mean over the patches) for exactly one image, and for two
    images or more a matrix with one such row per image, in order. *)
Theorem compute_patch_embeddings_shape :
  forall (Img Vec : Type) (embed_all : list Img -> list Vec)
         (mean_axis0 : list Vec -> Vec),
    Loaders._compute_patch_embeddings embed_all mean_axis0 [] = None
    /\ (forall patches,
           Loaders._compute_patch_embeddings embed_all mean_axis0 [patches]
           = Some (Loaders.Vector1D (mean_axis0 (embed_all patches))))
    /\ (forall p q rest,
           Loaders._compute_patch_embeddings embed_all mean_axis0
             (p :: q :: rest)
           = Some
               (Loaders.Matrix2D
                  (map (fun patches => mean_axis0 (embed_all patches))
                     (p :: q :: rest)))).
Proof.
  intros Img Vec embed_all mean_axis0.
  split; [reflexivity|]. split; [reflexivity|].
  intros p q rest. unfold Loaders._compute_patch_embeddings. simpl.
  now rewrite compute_patch_embeddings_loop_matrix.
Qed.

(** ** The views of the splits *)

Section DistinctValues.

Lemma ascii_compare_refl a : Ascii.compare a a = Eq.
Proof. unfold Ascii.compare. apply N.compare_refl. Qed.

Lemma string_compare_lt_trans s1 :
  forall s2 s3,
    String.compare s1 s2 = Lt -> String.compare s2 s3 = Lt ->
    String.compare s1 s3 = Lt.
Proof.
  induction s1 as [|a s1 IH]; intros [|b s2] [|c s3]; simpl;
    try discriminate; auto.
  destruct (Ascii.compare a b) eqn:Hab; try discriminate;
    destruct (Ascii.compare b c) eqn:Hbc; try discriminate.
  - apply Ascii.compare_eq_iff in Hab, Hbc. subst.
    rewrite ascii_compare_refl. apply IH.
  - apply Ascii.compare_eq_iff in Hab. subst. now rewrite Hbc.
  - apply Ascii.compare_eq_iff in Hbc. subst. now rewrite Hab.
  - intros _ _. unfold Ascii.compare in *.
    rewrite N.compare_lt_iff in Hab, Hbc.
    assert (Hac : (N_of_ascii a < N_of_ascii c)%N) by lia.
    apply N.compare_lt_iff in Hac. now rewrite Hac.
Qed.

Lemma string_compare_refl s : String.compare s s = Eq.
Proof.
  induction s as [|a s IH]; simpl; [reflexivity|].
  now rewrite ascii_compare_refl.
Qed.

Lemma leb_neq_lt v w :
  String.leb v w = true -> v <> w -> String.compare v w = Lt.
Proof.
  unfold String.leb. destruct (String.compare v w) eqn:Hc;
    try discriminate; auto.
  apply String.compare_eq_iff in Hc. contradiction.
Qed.

Lemma leb_false_lt v w : String.leb v w = false -> String.compare w v = Lt.
Proof.
  unfold String.leb. rewrite (String.compare_antisym w v).
  destruct (String.compare v w); try discriminate. reflexivity.
Qed.

Lemma insert_sorted_In x v l :
  In x (fo.insert_sorted v l) <-> v = x \/ In x l.
Proof.
  induction l as [|w l IH]; simpl; [tauto|].
  destruct (String.eqb_spec v w) as [->|Hne]; simpl; [tauto|].
  destruct (String.leb v w); simpl; [tauto|]. rewrite IH. tauto.
Qed.

Lemma insert_sorted_sorted v l :
  StronglySorted (fun a b => String.compare a b = Lt) l ->
  StronglySorted (fun a b => String.compare a b = Lt)
    (fo.insert_sorted v l).
Proof.
  induction 1 as [|w l Hs IH Hw]; simpl.
  - repeat constructor.
  - destruct (String.eqb_spec v w) as [->|Hne]; [now constructor|].
    destruct (String.leb v w) eqn:Hle.
    + pose proof (leb_neq_lt Hle Hne) as Hlt.
      constructor; [now constructor|]. constructor; [exact Hlt|].
      eapply Forall_impl; [|exact Hw].
      intros x Hx. simpl in Hx. eapply string_compare_lt_trans; eauto.
    + apply leb_false_lt in Hle. constructor; [exact IH|].
      apply Forall_forall. intros x Hx. apply insert_sorted_In in Hx.
      destruct Hx as [<-|Hx]; [exact Hle|].
      rewrite Forall_forall in Hw. now apply Hw.
Qed.

Lemma sorted_NoDup l :
  StronglySorted (fun a b => String.compare a b = Lt) l -> NoDup l.
Proof.
  induction 1 as [|w l Hs IH Hw]; constructor; [|exact IH].
  intros Hin. rewrite Forall_forall in Hw. specialize (Hw w Hin).
  rewrite string_compare_refl in Hw. discriminate.
Qed.

Lemma present_values_In field v l :
  In v (fo.present_values field l) <->
  exists s, In s l /\ fo.get_field s field = Some v.
Proof.
  induction l as [|s l IH]; simpl.
  - split; [tauto|]. intros (s & [] & _).
  - destruct (fo.get_field s field) as [w|] eqn:Hw; simpl; rewrite IH.
    + split.
      * intros [<-|(s' & Hs' & Hv)]; eauto.
      * intros (s' & [<-|Hs'] & Hv); [left; congruence|eauto].
    + split.
      * intros (s' & Hs' & Hv). eauto.
      * intros (s' & [<-|Hs'] & Hv); [congruence|eauto].
Qed.

(** [distinct] lists each value some sample has in the field, once, in
    ascending order. *)
Lemma distinct_spec c field :
  StronglySorted (fun a b => String.compare a b = Lt) (fo.distinct c field)
  /\ NoDup (fo.distinct c field)
  /\ (forall v,
         In v (fo.distinct c field) <->
         exists s, In s (fo.iter_samples c) /\ fo.get_field s field = Some v).
Proof.
  unfold fo.distinct.
  assert (Hgen : forall vals,
             StronglySorted (fun a b => String.compare a b = Lt)
               (fold_right fo.insert_sorted [] vals)
             /\ (forall v, In v (fold_right fo.insert_sorted [] vals)
                           <-> In v vals)).
  { induction vals as [|x vals [IHs IHin]]; simpl.
    - split; [constructor|tauto].
    - split; [now apply insert_sorted_sorted|].
      intros v. rewrite insert_sorted_In, IHin. tauto. }
  destruct (Hgen (fo.present_values field (fo.iter_samples c))) as [Hs Hin].
  split; [exact Hs|]. split; [now apply sorted_NoDup|].
  intros v. rewrite Hin. apply present_values_In.
Qed.

End DistinctValues.

Section SplitViews.

Lemma match_tags_single_In c tag i :
  In i (fo._ids (fo.match_tags c [tag])) <->
  exists s, In s (fo.iter_samples c) /\ fo.id s = i /\ In tag (fo.tags s).
Proof.
  simpl. rewrite in_map_iff. split.
  - intros (s & Hid & Hs). apply filter_In in Hs. destruct Hs as [Hs Ht].
    rewrite orb_false_r in Ht. apply contains_In in Ht. eauto.
  - intros (s & Hs & Hid & Ht). exists s. split; [exact Hid|].
    apply filter_In. split; [exact Hs|].
    rewrite orb_false_r. now apply contains_In.
Qed.

Lemma match_field_eq_In c field val i :
  In i (fo._ids (fo.match_field_eq c field val)) <->
  exists s,
    In s (fo.iter_samples c) /\ fo.id s = i
    /\ fo.get_field s field = Some val.
Proof.
  simpl. rewrite in_map_iff. split.
  - intros (s & Hid & Hs). apply filter_In in Hs. destruct Hs as [Hs Hv].
    destruct (fo.get_field s field) as [v|] eqn:Hg; [|discriminate].
    apply String.eqb_eq in Hv. subst v. eauto.
  - intros (s & Hs & Hid & Hg). exists s. split; [exact Hid|].
    apply filter_In. split; [exact Hs|].
    rewrite Hg. apply String.eqb_refl.
Qed.

End SplitViews.

(** X26. With tags as the only specifier, a result of [_to_views] has one
    view per tag, in the order of the tags and at least two; the view of
    a tag shows exactly the samples of the collection that carry the tag,
    so a sample with two of the tags is in two views and a sample with
    none of them in no view. *)
Theorem to_views_tags_one_view_per_tag :
  forall samples tags views,
    Splits._to_views samples None None (Some tags)
    = Py.Return (Some views) ->
    2 <= List.length tags
    /\ List.length views = List.length tags
    /\ (forall k tag,
           nth_error tags k = Some tag ->
           exists view,
             nth_error views k = Some view
             /\ (forall i,
                    In i (fo._ids view) <->
                    exists s,
                      In s (fo.iter_samples samples)
                      /\ fo.id s = i /\ In tag (fo.tags s))).
Proof.
  intros samples tags views Hrun.
  destruct tags as [|t ts]; [discriminate|].
  rewrite to_views_only_tags in Hrun. unfold Splits._tags_to_views in Hrun.
  remember (t :: ts) as tags eqn:Htags. clear Htags t ts.
  destruct (List.length tags <? 2) eqn:Hlen; [discriminate|].
  apply Nat.ltb_ge in Hlen. cbn [Py.bind] in Hrun.
  injection Hrun as <-.
  split; [exact Hlen|]. split; [apply length_map|].
  intros k tag Hk. eexists. split.
  - apply map_nth_error. exact Hk.
  - intros i. apply match_tags_single_In.
Qed.

Lemma to_views_tags_one_view_per_tag_witness :
  exists views,
    Splits._to_views Example.samples None None (Some ["train"; "test"])
    = Py.Return (Some views)
    /\ List.length views = 2.
Proof.
  eexists. split; [reflexivity|].
  exact (proj1 (proj2 (@to_views_tags_one_view_per_tag
                         Example.samples ["train"; "test"] _ eq_refl))).
Defined.

(** X27. With a field as the only specifier, a result of [_to_views] has
    at least two views, no sample is shown in two of them, and a sample
    of the collection is shown in one exactly when it has a value in the
    field: the views partition the samples that have the field. *)
Theorem to_views_field_views_partition :
  forall samples field views,
    Splits._to_views samples None (Some field) None
    = Py.Return (Some views) ->
    2 <= List.length views
    /\ (forall k1 k2 v1 v2 i,
           nth_error views k1 = Some v1 ->
           nth_error views k2 = Some v2 ->
           In i (fo._ids v1) -> In i (fo._ids v2) -> k1 = k2)
    /\ (forall s,
           In s (fo.iter_samples samples) ->
           (fo.get_field s field <> None <->
            exists view, In view views /\ In (fo.id s) (fo._ids view))).
Proof.
  intros samples field views Hrun.
  destruct field as [|c field]; [discriminate|].
  rewrite to_views_only_field in Hrun.
  unfold Splits._field_to_views in Hrun.
  remember (fo.distinct samples (String c field)) as values eqn:Hvalues.
  destruct (List.length values <? 2) eqn:Hlen; [discriminate|].
  subst values.
  apply Nat.ltb_ge in Hlen. cbn [Py.bind] in Hrun. injection Hrun as <-.
  destruct (distinct_spec samples (String c field)) as (_ & Hnd & Hin).
  split; [now rewrite length_map|]. split.
  - intros k1 k2 v1 v2 i H1 H2 Hi1 Hi2.
    rewrite nth_error_map in H1, H2.
    destruct (nth_error (fo.distinct samples (String c field)) k1)
      as [val1|] eqn:Hk1; [|discriminate].
    destruct (nth_error (fo.distinct samples (String c field)) k2)
      as [val2|] eqn:Hk2; [|discriminate].
    simpl in H1, H2. injection H1 as <-. injection H2 as <-.
    apply match_field_eq_In in Hi1, Hi2.
    destruct Hi1 as (s1 & Hs1 & Hid1 & Hg1).
    destruct Hi2 as (s2 & Hs2 & Hid2 & Hg2).
    assert (s1 = s2).
    { apply iter_samples_get in Hs1, Hs2.
      rewrite Hid1 in Hs1. rewrite Hid2 in Hs2. congruence. }
    subst s2. assert (val1 = val2) by congruence. subst val2.
    apply (proj1 (NoDup_nth_error _) Hnd).
    + apply nth_error_Some. congruence.
    + congruence.
  - intros s Hs. split.
    + intros Hsome.
      destruct (fo.get_field s (String c field)) as [val|] eqn:Hg;
        [|congruence].
      exists (fo.match_field_eq samples (String c field) val). split.
      * apply in_map, Hin. eauto.
      * apply match_field_eq_In. eauto.
    + intros (view & Hview & Hshown).
      apply in_map_iff in Hview. destruct Hview as (val & <- & _).
      apply match_field_eq_In in Hshown.
      destruct Hshown as (s' & Hs' & Hid & Hg).
      assert (s' = s).
      { apply iter_samples_get in Hs, Hs'. rewrite Hid in Hs'. congruence. }
      subst s'. congruence.
Qed.

Lemma to_views_field_views_partition_witness :
  exists views,
    Splits._to_views
      (fo.whole
         [ {| fo.id := "a"; fo.filepath := "/a.png"; fo.tags := [];
              fo.fields := [("split", "train")] |};
           {| fo.id := "b"; fo.filepath := "/b.png"; fo.tags := [];
              fo.fields := [("split", "test")] |};
           {| fo.id := "c"; fo.filepath := "/c.png"; fo.tags := [];
              fo.fields := [] |} ])
      None (Some "split") None
    = Py.Return (Some views)
    /\ 2 <= List.length views.
Proof.
  eexists. split; [reflexivity|].
  exact (proj1 (@to_views_field_views_partition
                  (fo.whole
                     [ {| fo.id := "a"; fo.filepath := "/a.png";
                          fo.tags := [];
                          fo.fields := [("split", "train")] |};
                       {| fo.id := "b"; fo.filepath := "/b.png";
                          fo.tags := [];
                          fo.fields := [("split", "test")] |};
                       {| fo.id := "c"; fo.filepath := "/c.png";
                          fo.tags := []; fo.fields := [] |} ])
                  "split" _ eq_refl)).
Defined.

Section HashBuildSuccess.

Import Py HashIndex.

Variable compute_filehash : string -> result string.
Variable read_gray_resized : string -> nat -> result ImageHash.Matrix.
Variable cfg : LeakySplitsHashConfig.

Lemma compute_hashes_loop_succeeds todo :
  forall d ds,
    (forall s, In s todo ->
               exists f hash,
                 _hash_function compute_filehash read_gray_resized cfg
                 = Some f
                 /\ f (fo.filepath s) = Return hash) ->
    exists ds' d',
      _compute_hashes_loop compute_filehash read_gray_resized cfg todo d ds
      = (ds', Return d').
Proof.
  induction todo as [|s todo IH]; intros d ds Hall; simpl; [eauto|].
  destruct (Hall s (or_introl eq_refl)) as (f & hash & Hf & Hh).
  rewrite Hf, Hh. apply IH. intros s' Hs'. apply Hall. now right.
Qed.

End HashBuildSuccess.

(** X8. When no hash field is configured ([None] or the empty string),
    so that the build saves nothing, building the hash-bucket index
    succeeds exactly when split resolution returns and every sample of
    the collection has a fingerprint: the method is known and its hash
    function returns for the file of the sample. *)
Theorem hash_build_succeeds_iff :
  forall compute_filehash read_gray_resized samples cfg,
    Py.truthy_str (HashIndex.hash_field cfg) = false ->
    ((exists ds idx,
         HashIndex.__init__ compute_filehash read_gray_resized samples cfg
         = (ds, Py.Return idx)) <->
     (exists views,
         Splits._to_views samples (HashIndex.split_views cfg)
           (HashIndex.split_field cfg) (HashIndex.split_tags cfg)
         = Py.Return views)
     /\ (forall s,
            In s (fo.iter_samples samples) ->
            exists f hash,
              HashIndex._hash_function compute_filehash read_gray_resized
                cfg
              = Some f
              /\ f (fo.filepath s) = Py.Return hash)).
Proof.
  intros cfh rgr samples cfg _. unfold HashIndex.__init__. split.
  - intros (ds & idx & Hinit).
    destruct (Splits._to_views samples (HashIndex.split_views cfg)
                (HashIndex.split_field cfg) (HashIndex.split_tags cfg))
      as [views|e]; [|discriminate].
    split; [eauto|].
    unfold HashIndex._compute_hashes in Hinit.
    destruct (HashIndex._compute_hashes_loop cfh rgr cfg
                (fo.iter_samples samples) [] (fo._dataset samples))
      as [ds0 [d|e]] eqn:Hloop; [|discriminate].
    exact (proj2 (@compute_hashes_loop_hashed cfh rgr cfg _ _ _ _ _ Hloop)).
  - intros [(views & Hviews) Hall]. rewrite Hviews.
    unfold HashIndex._compute_hashes.
    destruct (@compute_hashes_loop_succeeds cfh rgr cfg
                (fo.iter_samples samples) [] (fo._dataset samples) Hall)
      as (ds' & d' & Hloop).
    rewrite Hloop. eauto.
Qed.

Lemma hash_build_succeeds_iff_witness :
  Py.truthy_str
    (HashIndex.hash_field Example.cfg_without_field) = false
  /\ forall s,
       In s (fo.iter_samples Example.samples) ->
       exists f hash,
         HashIndex._hash_function Example.compute_filehash
           Example.read_gray_resized Example.cfg_without_field
         = Some f
         /\ f (fo.filepath s) = Py.Return hash.
Proof.
  split; [reflexivity|].
  assert (Hbuilt :
            exists ds idx,
              HashIndex.__init__ Example.compute_filehash
                Example.read_gray_resized Example.samples
                Example.cfg_without_field
              = (ds, Py.Return idx)).
  { eexists. eexists. vm_compute. reflexivity. }
  exact (proj2 (proj1 (@hash_build_succeeds_iff Example.compute_filehash
                         Example.read_gray_resized Example.samples
                         Example.cfg_without_field eq_refl) Hbuilt)).
Defined.
